(** * TechFrame: the defect-tracking API and its derived analytics

    A shallow embedding of the request handlers of the server
    ([index.tsx], the Hono application) and of the client's timeline
    transform ([AnalyticsPage.getTimelineData]), with the properties the
    specification states about them. *)

From Stdlib Require Import ZArith Lia Ascii String List.
From stdpp Require Import gmap strings list fin_maps pretty sorting.

Set Warnings "-register-all".

Local Open Scope string_scope.
Local Open Scope Z_scope.

(** ** JSON documents

    Every payload and every stored record is an untyped JSON value.
    [JNum n] is the number with integer value [n] (exact for the safe
    integers, which is all the handlers produce).  [JObj] lists the own
    properties in the order [Object.keys] enumerates them; a property
    whose value is [undefined] does not exist in JSON, so [undefined] is
    [None : option json] and never sits inside a document. *)

Inductive json : Type :=
| JNull
| JBool (b : bool)
| JNum (n : Z)
| JStr (s : string)
| JArr (items : list json)
| JObj (props : list (string * json)).

Module Js.

(** [!!v] as JavaScript evaluates it. *)
Definition truthy (v : option json) : bool :=
  match v with
  | None | Some JNull => false
  | Some (JBool b) => b
  | Some (JNum n) => negb (Z.eqb n 0)
  | Some (JStr s) => negb (String.eqb s "")
  | Some (JArr _) | Some (JObj _) => true
  end.

(** Own-property lookup in a property list. *)
Fixpoint own (k : string) (props : list (string * json)) : option json :=
  match props with
  | [] => None
  | (k', v) :: rest => if String.eqb k k' then Some v else own k rest
  end.

(** [o[k] = v] on a plain object: an existing property keeps its place,
    a new one goes last.  (JavaScript enumerates keys that are array
    indices before the others; that reordering is left out, the order in
    which a stored document lists its keys is not observed.) *)
Fixpoint set (k : string) (v : json) (props : list (string * json))
  : list (string * json) :=
  match props with
  | [] => [(k, v)]
  | (k', v') :: rest =>
      if String.eqb k k' then (k, v) :: rest else (k', v') :: set k v rest
  end.

(** An object literal [{k1: e1, ..., kn: en}] after JSON serialisation:
    properties whose value is [undefined] are dropped. *)
Definition literal (fields : list (string * option json)) : json :=
  JObj (fold_left
          (fun acc '(k, ov) =>
             match ov with Some v => set k v acc | None => acc end)
          fields []).

(** [v.k] for the property names the handlers read ([title], [status],
    [comments], [role], ...): none of them is defined on a prototype, so
    only an own property of an object answers; reading a property of
    [null] is a [TypeError], rendered as the outer [None]. *)
Definition prop (v : json) (k : string) : option (option json) :=
  match v with
  | JNull => None
  | JObj props => Some (own k props)
  | _ => Some None
  end.

(** Destructuring [const { k } = v] reads [v.k] the same way. *)
Definition field (v : json) (k : string) : option json :=
  match v with
  | JObj props => own k props
  | _ => None
  end.

(** [ToString] of a JSON value ([None] is a [TypeError]).  An object
    with an own [toString] property has a non-callable one, since JSON
    holds no functions, and then [ToPrimitive] fails whatever [valueOf]
    is. *)
Fixpoint to_string (v : json) : option string :=
  match v with
  | JNull => Some "null"
  | JBool true => Some "true"
  | JBool false => Some "false"
  | JNum n => Some (pretty n)
  | JStr s => Some s
  | JArr items =>
      let fix go (l : list json) : option (list string) :=
        match l with
        | [] => Some []
        | x :: rest =>
            match (match x with JNull => Some "" | _ => to_string x end), go rest with
            | Some s, Some ss => Some (s :: ss)
            | _, _ => None
            end
        end in
      match go items with
      | Some ss => Some (String.concat "," ss)
      | None => None
      end
  | JObj props =>
      match own "toString" props with
      | Some _ => None
      | None => Some "[object Object]"
      end
  end.

(** [ToPropertyKey] of an expression that may be [undefined]. *)
Definition to_key (v : option json) : option string :=
  match v with
  | None => Some "undefined"
  | Some v => to_string v
  end.

End Js.


(** ** Dates

    A time value is the number of milliseconds since the epoch, as held by
    a JavaScript [Date]; [None] stands for the invalid date ([NaN]). *)

Module Date.

Definition ms_per_day : Z := 86400000.
Definition max_time : Z := 8640000000000000.

(** [TimeClip]: what [new Date(n)] keeps of a number. *)
Definition time_clip (n : Z) : option Z :=
  if Z.abs n <=? max_time then Some n else None.

Definition digit (k : Z) : ascii := ascii_of_nat (48 + Z.to_nat k).

(** The last [w] decimal digits of [k], most significant first. *)
Fixpoint digits (w : nat) (k : Z) : string :=
  match w with
  | O => ""
  | S w' => digits w' (k / 10) +:+ String (digit (k mod 10)) ""
  end.

(** [Day(t)]: the UTC day number of a time value. *)
Definition day (t : Z) : Z := t / ms_per_day.

(** The proleptic Gregorian calendar in eras of 400 years (146097 days)
    that start on 1 March: the era of a day number and the day in the
    era, the year in the era and the day in that year, the month counted
    from March and the day of the month. *)
Definition era_of (z : Z) : Z := (z + 719468) / 146097.
Definition day_of_era (z : Z) : Z := (z + 719468) mod 146097.
Definition year_of_era (doe : Z) : Z :=
  (doe - doe / 1460 + doe / 36524 - doe / 146096) / 365.
Definition day_of_year (doe : Z) : Z :=
  let yoe := year_of_era doe in doe - (365 * yoe + yoe / 4 - yoe / 100).
Definition month_index (doy : Z) : Z := (5 * doy + 2) / 153.
Definition day_of_month (doy : Z) : Z := doy - (153 * month_index doy + 2) / 5 + 1.

(** Year, month and day of month of a UTC day number. *)
Definition civil (z : Z) : Z * Z * Z :=
  let doe := day_of_era z in
  let doy := day_of_year doe in
  let mp := month_index doy in
  let m := if mp <? 10 then mp + 3 else mp - 9 in
  let y := year_of_era doe + era_of z * 400 + (if m <=? 2 then 1 else 0) in
  (y, m, day_of_month doy).

(** Four digits for the years 0 to 9999, a sign and six digits beyond. *)
Definition year_string (y : Z) : string :=
  if (0 <=? y) && (y <=? 9999) then digits 4 y
  else (if y <? 0 then "-" else "+") +:+ digits 6 (Z.abs y).

(** The date of a UTC day number, as [toISOString] writes it. *)
Definition date_string (z : Z) : string :=
  let '(y, m, d) := civil z in
  year_string y +:+ "-" +:+ digits 2 m +:+ "-" +:+ digits 2 d.

Definition iso_date (t : Z) : string := date_string (day t).

Definition iso_time (t : Z) : string :=
  let ms := t mod ms_per_day in
  digits 2 (ms / 3600000) +:+ ":" +:+ digits 2 (ms / 60000 mod 60) +:+ ":"
    +:+ digits 2 (ms / 1000 mod 60) +:+ "." +:+ digits 3 (ms mod 1000).

(** [new Date(t).toISOString()] for a valid time value [t]. *)
Definition toISOString (t : Z) : string :=
  iso_date t +:+ "T" +:+ iso_time t +:+ "Z".

(** The day numbers of 0000-01-01 and 9999-12-31, between which the
    year is written with four digits. *)
Definition first_day : Z := -719528.
Definition last_day : Z := 2932896.

(** A date as one number, year then month then day of month. *)
Definition civil_num (z : Z) : Z :=
  let '(y, m, d) := civil z in y * 10000 + m * 100 + d.

End Date.

(** [s.split(sep)] for a one-character separator. *)
Fixpoint split_on (sep : ascii) (s : string) : list string :=
  match s with
  | EmptyString => [""]
  | String c rest =>
      if Ascii.eqb c sep then "" :: split_on sep rest
      else match split_on sep rest with
           | [] => [String c ""]
           | piece :: pieces => String c piece :: pieces
           end
  end.

(** ** The platform the code runs on

    What the JavaScript runtime, the identity service and the machine
    supply, and the repository does not define. *)

Record AuthUser := { uid : string; raw : json }.

(** Calls made on the identity service's admin interface. *)
Inductive AuthCall :=
| CreateUser (email password : option json) (user_metadata : json)
| UpdateUserById (id : string) (attributes : json).

Inductive CreateResult :=
| CreateThrows
| CreateError (message : string)
| CreateOk (user : AuthUser).

Class Platform := {
  (** [Date.parse]: the time value of a date string, [None] for [NaN]. *)
  parseDate : string → option Z;
  (** the UTF-16 code units of a string, each as a one-unit string. *)
  code_units : string → list string;
  (** the source text [Function.prototype.toString] gives for the method
      of [Object.prototype] with that name. *)
  fn_source : string → string;
  (** whether [Object.prototype] has the [__proto__] accessor (browsers
      have it, Deno removes it). *)
  proto_accessor : bool;
  (** [supabase.auth.getUser(token)]: the identity of a token, [None]
      when the service reports an error, no user, or fails. *)
  getUser : string → option AuthUser;
  (** [supabase.auth.admin.createUser], given the calls made so far. *)
  createUser : list AuthCall → option json → option json → json → CreateResult;
  (** the wall clock at its n-th reading. *)
  clock : nat → Z;
  (** the n-th token [crypto.randomUUID()] hands out. *)
  uuid : nat → string;
  (** [a.localeCompare(b)]. *)
  localeCompare : string → string → comparison;
  (** [d.toLocaleDateString('ru')] of a date, valid or not. *)
  toLocaleDateString : option Z → string;
  (** the offset of local time from UTC at a time value, in milliseconds. *)
  localTZA : Z → Z
}.

(** ** The world a request runs in *)

Record World := {
  kv : gmap string json;      (** the key-value table *)
  auth_log : list AuthCall;   (** admin calls made on the identity service *)
  reads : nat;                (** how often the clock was read *)
  draws : nat                 (** how many tokens were drawn *)
}.

Definition with_kv (f : gmap string json → gmap string json) (w : World) : World :=
  {| kv := f (kv w); auth_log := auth_log w; reads := reads w; draws := draws w |}.

Definition with_call (c : AuthCall) (w : World) : World :=
  {| kv := kv w; auth_log := auth_log w ++ [c]; reads := reads w; draws := draws w |}.

Definition tick (w : World) : World :=
  {| kv := kv w; auth_log := auth_log w; reads := S (reads w); draws := draws w |}.

Definition drawn (w : World) : World :=
  {| kv := kv w; auth_log := auth_log w; reads := reads w; draws := S (draws w) |}.

(** A computation either yields a value or throws; what it did to the
    world before throwing stays done. *)
Inductive outcome (A : Type) : Type :=
| Ok (a : A)
| Throw.
Arguments Ok {A} a.
Arguments Throw {A}.

Definition M (A : Type) : Type := World → outcome A * World.

Definition ret {A} (a : A) : M A := fun w => (Ok a, w).
Definition throw {A} : M A := fun w => (Throw, w).
Definition bind {A B} (m : M A) (k : A → M B) : M B :=
  fun w => match m w with
           | (Ok a, w') => k a w'
           | (Throw, w') => (Throw, w')
           end.

Declare Scope handler_scope.
Delimit Scope handler_scope with handler.
Notation "'let*' x ':=' m 'in' k" := (bind m (fun x => k))
  (at level 10, x name, m at level 100, k at level 200) : handler_scope.
Notation "m ';;' k" := (bind m (fun _ => k))
  (at level 100, k at level 200, right associativity) : handler_scope.
Local Open Scope handler_scope.

(** An expression that may raise a [TypeError]. *)
Definition lift {A} (o : option A) : M A :=
  match o with Some a => ret a | None => throw end.

Section Server.

Context `{Platform}.

(** [new Date()] and [new Date().toISOString()]. *)
Definition now : M Z := fun w => (Ok (clock (reads w)), tick w).
Definition timestamp : M json :=
  let* t := now in ret (JStr (Date.toISOString t)).

(** [crypto.randomUUID()]. *)
Definition randomUUID : M string := fun w => (Ok (uuid (draws w)), drawn w).

(** *** The key-value module [kv_store] *)

(** Modelled from the spec: [kv_store.tsx] is not among the sources.
    [get(key)] gives the document stored under the key or nothing.  The
    store is taken to answer every call; were it to fail, the route's
    [catch] would answer 500. *)
Definition kv_get (key : string) : M (option json) :=
  fun w => (Ok (kv w !! key), w).

(** Modelled from the spec: [set(key, document)] stores the document
    under the key, replacing what was there. *)
Definition kv_set (key : string) (doc : json) : M unit :=
  fun w => (Ok tt, with_kv (insert key doc) w).

(** Modelled from the spec: [getByPrefix(prefix)] gives the documents
    whose key starts with the prefix, one per key, in no promised
    order. *)
Definition kv_getByPrefix (prefix : string) : M (list json) :=
  fun w => (Ok (map snd (filter (fun kd => String.prefix prefix (fst kd) = true)
                                (map_to_list (kv w)))), w).

(** *** Requests and responses *)

Record Request := {
  authorization : option string;  (** the [Authorization] header *)
  param_id : string;              (** the [:id] segment of the path *)
  payload : option json           (** the parsed body; [None] when the
                                      body is not JSON and [c.req.json()]
                                      rejects *)
}.

Record Response := { status : Z; body : json }.

(** [c.json(doc)] and [c.json({ error }, status)]. *)
Definition json_ok (doc : json) : Response := {| status := 200; body := doc |}.
Definition json_error (message : string) (code : Z) : Response :=
  {| status := code; body := JObj [("error", JStr message)] |}.

(** [c.req.header('Authorization')?.split(' ')[1]]. *)
Definition accessToken (r : Request) : option string :=
  match authorization r with
  | Some header => nth_error (split_on " " header) 1
  | None => None
  end.

(** The two guards every protected route starts with: a missing or
    empty token, or one [verifyAuth] cannot resolve, is answered 401. *)
Definition verifyAuth (token : string) : option AuthUser := getUser token.

Definition authenticated (r : Request) (k : AuthUser → M Response) : M Response :=
  match accessToken r with
  | None => ret (json_error "Unauthorized" 401)
  | Some token =>
      if String.eqb token "" then ret (json_error "Unauthorized" 401)
      else match verifyAuth token with
           | None => ret (json_error "Unauthorized" 401)
           | Some user => k user
           end
  end.

(** [await c.req.json()]. *)
Definition req_json (r : Request) : M json := lift (payload r).

(** [const { k } = v] and [v.k]. *)
Definition get (v : json) (k : string) : M (option json) := lift (Js.prop v k).

(** The [try { ... } catch] around every route: a thrown error becomes
    a 500 with the route's message. *)
Definition guarded (message : string) (m : M Response) (w : World)
  : Response * World :=
  match m w with
  | (Ok r, w') => (r, w')
  | (Throw, w') => (json_error message 500, w')
  end.

(** *** Spreading and listing properties *)

(** The own enumerable properties of a value, as a spread copies them
    and [Object.keys] names them. *)
Definition own_entries (v : json) : list (string * json) :=
  match v with
  | JObj props => props
  | JArr items => imap (fun i x => (pretty i, x)) items
  | JStr s => imap (fun i u => (pretty i, JStr u)) (code_units s)
  | _ => []
  end.

(** [{ ...target, ...v }]: the properties of [v] set one by one. *)
Definition spread (v : json) (target : list (string * json))
  : list (string * json) :=
  fold_left (fun acc kv => Js.set (fst kv) (snd kv) acc) (own_entries v) target.

(** [Object.keys(v)], a [TypeError] on [null]. *)
Definition object_keys (v : json) : M (list string) :=
  match v with
  | JNull => throw
  | _ => ret (map fst (own_entries v))
  end.

(** *** The identity service's admin interface *)

(** [supabase.auth.admin.createUser({ email, password, user_metadata,
    email_confirm: true })]: the call is recorded, the service answers. *)
Definition admin_createUser (email password : option json) (user_metadata : json)
  : M CreateResult :=
  fun w => (Ok (createUser (auth_log w) email password user_metadata),
            with_call (CreateUser email password user_metadata) w).

(** [supabase.auth.admin.updateUserById(id, attributes)]; the route
    does not look at the answer. *)
Definition admin_updateUserById (id : string) (attributes : json) : M unit :=
  fun w => (Ok tt, with_call (UpdateUserById id attributes) w).

(** *** POST /signup *)

Definition signup (r : Request) : World → Response * World :=
  guarded "Internal server error during signup" (
    let* data := req_json r in
    let* email := get data "email" in
    let* password := get data "password" in
    let* name := get data "name" in
    let role := JStr "observer" in
    let user_metadata := Js.literal [("name", name); ("role", Some role)] in
    let* result := admin_createUser email password user_metadata in
    match result with
    | CreateThrows => throw
    | CreateError message => ret (json_error message 400)
    | CreateOk user =>
        let* createdAt := timestamp in
        kv_set ("user:" +:+ uid user)
          (Js.literal [("id", Some (JStr (uid user))); ("email", email);
                       ("name", name); ("role", Some role);
                       ("createdAt", Some createdAt)]);;
        ret (json_ok (JObj [("user", raw user)]))
    end).

(** *** POST /defects *)

Definition create_defect (r : Request) : World → Response * World :=
  guarded "Internal server error while creating defect" (
    authenticated r (fun user =>
      let* data := req_json r in
      let* title := get data "title" in
      let* description := get data "description" in
      let* priority := get data "priority" in
      let* assignee := get data "assignee" in
      let* projectId := get data "projectId" in
      let* dueDate := get data "dueDate" in
      let* defectId := randomUUID in
      let* createdAt := timestamp in
      let* updatedAt := timestamp in
      let defect :=
        Js.literal [("id", Some (JStr defectId)); ("title", title);
                    ("description", description); ("priority", priority);
                    ("assignee", assignee); ("projectId", projectId);
                    ("dueDate", dueDate); ("status", Some (JStr "Новая"));
                    ("createdBy", Some (JStr (uid user)));
                    ("createdAt", Some createdAt); ("updatedAt", Some updatedAt);
                    ("comments", Some (JArr []))] in
      kv_set ("defect:" +:+ defectId) defect;;
      let* entryId := randomUUID in
      let* at_ := timestamp in
      let historyEntry :=
        Js.literal [("id", Some (JStr entryId)); ("defectId", Some (JStr defectId));
                    ("action", Some (JStr "created"));
                    ("userId", Some (JStr (uid user)));
                    ("timestamp", Some at_);
                    ("details", Some (JStr "Дефект создан"))] in
      kv_set ("history:" +:+ defectId +:+ ":" +:+ entryId) historyEntry;;
      ret (json_ok (JObj [("defect", defect)])))).

(** *** PUT /defects/:id *)

Definition update_defect (r : Request) : World → Response * World :=
  guarded "Internal server error while updating defect" (
    authenticated r (fun user =>
      let defectId := param_id r in
      let* updates := req_json r in
      let* existingDefect := kv_get ("defect:" +:+ defectId) in
      if negb (Js.truthy existingDefect) then ret (json_error "Defect not found" 404)
      else
        let* updatedAt := timestamp in
        let updatedDefect :=
          JObj (Js.set "updatedAt" updatedAt
                  (spread updates (spread (default JNull existingDefect) []))) in
        kv_set ("defect:" +:+ defectId) updatedDefect;;
        let* entryId := randomUUID in
        let* at_ := timestamp in
        let* keys := object_keys updates in
        let historyEntry :=
          Js.literal [("id", Some (JStr entryId)); ("defectId", Some (JStr defectId));
                      ("action", Some (JStr "updated"));
                      ("userId", Some (JStr (uid user)));
                      ("timestamp", Some at_);
                      ("details",
                       Some (JStr ("Дефект обновлен: " +:+ String.concat ", " keys)))] in
        kv_set ("history:" +:+ defectId +:+ ":" +:+ entryId) historyEntry;;
        ret (json_ok (JObj [("defect", updatedDefect)])))).

(** *** POST /defects/:id/comments *)

(** [defect.comments = defect.comments || []; defect.comments.push(c)]
    and the document [kv.set] then serialises.  Assigning a property to
    a primitive throws in a module, as does calling [push] on what is
    not an array; a property added to an array is not serialised. *)
Definition push_comment (defect newComment : json) : option json :=
  match defect with
  | JObj props =>
      match (if Js.truthy (Js.own "comments" props)
             then default JNull (Js.own "comments" props) else JArr []) with
      | JArr items => Some (JObj (Js.set "comments" (JArr (items ++ [newComment])) props))
      | _ => None
      end
  | JArr items => Some (JArr items)
  | _ => None
  end.

Definition add_comment (r : Request) : World → Response * World :=
  guarded "Internal server error while adding comment" (
    authenticated r (fun user =>
      let defectId := param_id r in
      let* data := req_json r in
      let* comment := get data "comment" in
      let* defect := kv_get ("defect:" +:+ defectId) in
      if negb (Js.truthy defect) then ret (json_error "Defect not found" 404)
      else
        let* commentId := randomUUID in
        let* at_ := timestamp in
        let newComment :=
          Js.literal [("id", Some (JStr commentId)); ("author", Some (JStr (uid user)));
                      ("comment", comment); ("timestamp", Some at_)] in
        let* stored := lift (push_comment (default JNull defect) newComment) in
        kv_set ("defect:" +:+ defectId) stored;;
        ret (json_ok (JObj [("comment", newComment)])))).

(** *** PUT /users/:id/role *)

Definition validRoles : list string := ["observer"; "engineer"; "manager"; "admin"].

(** [validRoles.includes(role)]: only a string equal to one of them. *)
Definition includes_role (role : option json) : bool :=
  match role with
  | Some (JStr s) => existsb (String.eqb s) validRoles
  | _ => false
  end.

(** [v !== 'text']. *)
Definition differs_from (text : string) (v : option json) : bool :=
  match v with
  | Some (JStr s) => negb (String.eqb s text)
  | _ => true
  end.

Definition update_role (r : Request) : World → Response * World :=
  guarded "Internal server error while updating user role" (
    authenticated r (fun adminUser =>
      let* adminProfile := kv_get ("user:" +:+ uid adminUser) in
      if negb (Js.truthy adminProfile)
         || differs_from "admin" (default None (Js.prop (default JNull adminProfile) "role"))
      then ret (json_error "Forbidden: Admin access required" 403)
      else
        let userId := param_id r in
        let* data := req_json r in
        let* role := get data "role" in
        if negb (includes_role role) then ret (json_error "Invalid role" 400)
        else
          let* userProfile := kv_get ("user:" +:+ userId) in
          if negb (Js.truthy userProfile) then ret (json_error "User not found" 404)
          else
            let* updatedAt := timestamp in
            let profile := spread (default JNull userProfile) [] in
            let updatedProfile :=
              JObj (Js.set "updatedAt" updatedAt
                      (Js.set "role" (default JNull role) profile)) in
            kv_set ("user:" +:+ userId) updatedProfile;;
            admin_updateUserById userId
              (JObj [("user_metadata",
                      JObj (Js.set "role" (default JNull role) profile))]);;
            ret (json_ok (JObj [("user", updatedProfile)])))).

(** *** GET /analytics *)

(** The methods every object inherits from [Object.prototype]. *)
Definition inherited_methods : list string :=
  ["constructor"; "hasOwnProperty"; "isPrototypeOf"; "propertyIsEnumerable";
   "toLocaleString"; "toString"; "valueOf"; "__defineGetter__";
   "__defineSetter__"; "__lookupGetter__"; "__lookupSetter__"].

(** [(v || 0) + 1] for an own value [v]. *)
Definition plus_one (v : json) : option json :=
  match v with
  | JNum n => Some (JNum (n + 1))
  | JStr s => Some (if String.eqb s "" then JNum 1 else JStr (s +:+ "1"))
  | JNull | JBool false => Some (JNum 1)
  | JBool true => Some (JNum 2)
  | _ => match Js.to_string v with
         | Some s => Some (JStr (s +:+ "1"))
         | None => None
         end
  end.

(** [counts[k] = (counts[k] || 0) + 1] on an object that began as [{}].
    A name not yet counted is looked up on [Object.prototype]: an
    inherited method is truthy and [+ 1] appends to its source text; the
    [__proto__] accessor yields the prototype and ignores the string
    assigned to it. *)
Definition bump (k : string) (counts : list (string * json))
  : option (list (string * json)) :=
  match Js.own k counts with
  | Some v =>
      match plus_one v with
      | Some v' => Some (Js.set k v' counts)
      | None => None
      end
  | None =>
      if existsb (String.eqb k) inherited_methods
      then Some (Js.set k (JStr (fn_source k +:+ "1")) counts)
      else if String.eqb k "__proto__" && proto_accessor then Some counts
      else Some (Js.set k (JNum 1) counts)
  end.

(** [new Date(v)]: the time value, [None] for an invalid date; the
    conversion of an object to a primitive may throw (the outer
    [None]). *)
Definition new_Date (v : option json) : option (option Z) :=
  match v with
  | None => Some None
  | Some JNull => Some (Some 0)
  | Some (JBool b) => Some (Some (if b then 1 else 0))
  | Some (JNum n) => Some (Date.time_clip n)
  | Some v => match Js.to_string v with
              | Some s => Some (parseDate s)
              | None => None
              end
  end.

Record Tally := {
  statusCount : list (string * json);
  priorityCount : list (string * json);
  totalDefects : Z;
  overdue : Z
}.

(** [defect.dueDate && new Date(defect.dueDate) < new Date()
    && defect.status !== 'Закрыта'], left to right. *)
Definition is_overdue (defect : json) : M bool :=
  let* dueDate := get defect "dueDate" in
  if Js.truthy dueDate then
    let* due := lift (new_Date dueDate) in
    let* current := now in
    if match due with Some t => t <? current | None => false end
    then let* status := get defect "status" in ret (differs_from "Закрыта" status)
    else ret false
  else ret false.

(** One turn of the loop over the defects. *)
Definition tally_defect (acc : Tally) (defect : json) : M Tally :=
  let total := totalDefects acc + 1 in
  let* status := get defect "status" in
  let* statusKey := lift (Js.to_key status) in
  let* statuses := lift (bump statusKey (statusCount acc)) in
  let* priority := get defect "priority" in
  let* priorityKey := lift (Js.to_key priority) in
  let* priorities := lift (bump priorityKey (priorityCount acc)) in
  let* late := is_overdue defect in
  ret {| statusCount := statuses; priorityCount := priorities;
         totalDefects := total;
         overdue := if late then overdue acc + 1 else overdue acc |}.

Fixpoint tally (defects : list json) (acc : Tally) : M Tally :=
  match defects with
  | [] => ret acc
  | defect :: rest => let* acc' := tally_defect acc defect in tally rest acc'
  end.

Definition analytics (r : Request) : World → Response * World :=
  guarded "Internal server error while fetching analytics" (
    authenticated r (fun user =>
      let* defects := kv_getByPrefix "defect:" in
      let* result :=
        tally defects {| statusCount := []; priorityCount := [];
                         totalDefects := 0; overdue := 0 |} in
      ret (json_ok (JObj [("totalDefects", JNum (totalDefects result));
                          ("overdue", JNum (overdue result));
                          ("statusCount", JObj (statusCount result));
                          ("priorityCount", JObj (priorityCount result))])))).

End Server.

(** ** The client's timeline ([AnalyticsPage]) *)

Section Client.

Context `{Platform}.

(** [Array.prototype.sort] with a comparator, as a stable insertion
    sort: an element goes before the first one it compares below. *)
Fixpoint insert_by {A} (cmp : A → A → comparison) (x : A) (l : list A) : list A :=
  match l with
  | [] => [x]
  | y :: rest =>
      match cmp x y with
      | Lt => x :: y :: rest
      | _ => y :: insert_by cmp x rest
      end
  end.

Definition sort_by {A} (cmp : A → A → comparison) (l : list A) : list A :=
  fold_left (fun sorted x => insert_by cmp x sorted) l [].

(** [l.slice(-n)]. *)
Definition slice_last {A} (n : nat) (l : list A) : list A :=
  drop (length l - n) l.

(** [new Date(defect.createdAt).toISOString().split('T')[0]];
    [toISOString] throws a [RangeError] on an invalid date. *)
Definition day_key (defect : json) : option string :=
  match Js.prop defect "createdAt" with
  | Some createdAt =>
      match new_Date createdAt with
      | Some (Some t) => Some (hd "undefined" (split_on "T" (Date.toISOString t)))
      | _ => None
      end
  | None => None
  end.

(** The [forEach] that fills [timeline]. *)
Fixpoint fill_timeline (defects : list json) (timeline : list (string * json))
  : option (list (string * json)) :=
  match defects with
  | [] => Some timeline
  | defect :: rest =>
      match day_key defect with
      | Some date =>
          match bump date timeline with
          | Some timeline' => fill_timeline rest timeline'
          | None => None
          end
      | None => None
      end
  end.

(** [Object.entries(timeline).sort(...).slice(-30)]. *)
Definition timeline_buckets (defects : list json) : option (list (string * json)) :=
  match fill_timeline defects [] with
  | Some timeline =>
      Some (slice_last 30
              (sort_by (fun a b => localeCompare (fst a) (fst b)) timeline))
  | None => None
  end.

(** [getTimelineData]: the buckets with their dates rendered for
    display; [None] when the function throws. *)
Definition getTimelineData (defects : list json) : option (list json) :=
  match timeline_buckets defects with
  | Some buckets =>
      Some (map (fun entry =>
                   JObj [("date", JStr (toLocaleDateString (parseDate (fst entry))));
                         ("count", snd entry)])
                buckets)
  | None => None
  end.

(** The calendar day of a time value in the client's time zone. *)
Definition local_day (t : Z) : Z := Date.day (t + localTZA t).

End Client.

(** ** Notions the properties are stated with *)

Section Notions.

Context `{Platform}.

(** The request carries a token the identity service resolves to
    [user]. *)
Definition valid_token (r : Request) (user : AuthUser) : Prop :=
  ∃ token, accessToken r = Some token ∧ token ≠ "" ∧ getUser token = Some user.

(** The audit trail: the documents stored under [history:...]. *)
Definition history (table : gmap string json) : gmap string json :=
  filter (fun kd => String.prefix "history:" (fst kd) = true) table.

(** The defect collection the analytics route scans. *)
Definition stored_defects (w : World) : list json :=
  map snd (filter (fun kd => String.prefix "defect:" (fst kd) = true)
                  (map_to_list (kv w))).

(** The comment sequence of a stored document. *)
Definition comments_of (doc : json) : list json :=
  match Js.field doc "comments" with
  | Some (JArr comments) => comments
  | _ => []
  end.

(** The keys of a JSON object are distinct. *)
Definition distinct_keys (v : json) : Prop :=
  match v with
  | JObj props => NoDup (map fst props)
  | _ => True
  end.

(** The operations that write defects. *)
Inductive Operation := CreateDefect | UpdateDefect | AddComment.

Definition perform (op : Operation) : Request → World → Response * World :=
  match op with
  | CreateDefect => create_defect
  | UpdateDefect => update_defect
  | AddComment => add_comment
  end.

(** What reading property [k] of an object literal gives, the literal's
    fields taken in order after a value [d] for [k] from before. *)
Fixpoint literal_own (k : string) (fields : list (string * option json))
  (d : option json) : option json :=
  match fields with
  | [] => d
  | (k', ov) :: rest =>
      literal_own k rest
        (if String.eqb k' k then match ov with Some v => Some v | None => d end
         else d)
  end.

(** The handler's test [defect.dueDate && new Date(defect.dueDate) < now
    && defect.status !== 'Закрыта'] at one reading [now] of the clock. *)
Definition overdue_at (now : Z) (defect : json) : bool :=
  Js.truthy (Js.field defect "dueDate")
  && match new_Date (Js.field defect "dueDate") with
     | Some (Some due) => due <? now
     | _ => false
     end
  && differs_from "Закрыта" (Js.field defect "status").

(** A stored defect the scan gets through: it is not [null], and its
    status, priority and due date convert to a string where the scan
    needs one (primitives always do). *)
Definition scannable (defect : json) : Prop :=
  defect ≠ JNull
  ∧ is_Some (Js.to_key (Js.field defect "status"))
  ∧ is_Some (Js.to_key (Js.field defect "priority"))
  ∧ is_Some (new_Date (Js.field defect "dueDate")).

(** The values a counter object holds are numbers or strings. *)
Definition plain_value (v : json) : Prop :=
  match v with JNum _ | JStr _ => True | _ => False end.

Definition plain_counts (counts : list (string * json)) : Prop :=
  Forall (fun kv => plain_value (snd kv)) counts.

(** The sum of the values of a counter object, when all are numbers. *)
Fixpoint sum_counts (counts : list (string * json)) : option Z :=
  match counts with
  | [] => Some 0
  | (_, JNum n) :: rest =>
      match sum_counts rest with Some total => Some (n + total) | None => None end
  | _ :: _ => None
  end.

(** A group name that no object inherits from [Object.prototype]. *)
Definition ordinary_key (k : string) : Prop :=
  existsb (String.eqb k) inherited_methods = false
  ∧ (String.eqb k "__proto__" && proto_accessor) = false.

(** The groups a defect is counted in have ordinary names. *)
Definition ordinary_groups (defect : json) : Prop :=
  ∀ k, Js.to_key (Js.field defect "status") = Some k
       ∨ Js.to_key (Js.field defect "priority") = Some k →
       ordinary_key k.

(** *** The timeline, day by day *)

(** The time value of a defect's [createdAt], when it is a valid date. *)
Definition created_time (defect : json) : option Z :=
  match Js.prop defect "createdAt" with
  | Some createdAt =>
      match new_Date createdAt with
      | Some (Some t) => Some t
      | _ => None
      end
  | None => None
  end.

(** Counting by day number: the count a day has so far, setting it, and
    counting one more defect on a day. *)
Fixpoint lookup_day (z : Z) (counts : list (Z * Z)) : option Z :=
  match counts with
  | [] => None
  | (z', n) :: rest => if Z.eqb z z' then Some n else lookup_day z rest
  end.

Fixpoint set_day (z n : Z) (counts : list (Z * Z)) : list (Z * Z) :=
  match counts with
  | [] => [(z, n)]
  | (z', n') :: rest =>
      if Z.eqb z z' then (z, n) :: rest else (z', n') :: set_day z n rest
  end.

Definition count_day (z : Z) (counts : list (Z * Z)) : list (Z * Z) :=
  set_day z (match lookup_day z counts with Some n => n + 1 | None => 1 end) counts.

Definition count_days (days : list Z) : list (Z * Z) :=
  fold_left (fun counts z => count_day z counts) days [].

(** How often a day occurs among the days of the defects. *)
Definition occurrences (z : Z) (days : list Z) : Z :=
  Z.of_nat (length (filter (fun z' => z' = z) days)).

(** A day and its count as the timeline holds them, and as the chart
    gets them. *)
Definition bucket_entry (b : Z * Z) : string * json :=
  (Date.date_string (fst b), JNum (snd b)).

Definition bucket_point (b : Z * Z) : json :=
  JObj [("date", JStr (toLocaleDateString (parseDate (Date.date_string (fst b)))));
        ("count", JNum (snd b))].

(** Dates whose year has four digits. *)
Definition four_digit_day (z : Z) : Prop := Date.first_day <= z <= Date.last_day.

(** On dates with four-digit years [localeCompare] orders by code
    units. *)
Definition collates_dates : Prop :=
  ∀ z1 z2, four_digit_day z1 → four_digit_day z2 →
           localeCompare (Date.date_string z1) (Date.date_string z2)
           = String.compare (Date.date_string z1) (Date.date_string z2).

(** The order of two buckets: the order of their days. *)
Definition day_compare (a b : Z * Z) : comparison := Z.compare (fst a) (fst b).

End Notions.

(** ** A sample deployment

    A concrete platform and a small table, on which the properties are
    exercised. *)

Module Sample.

Definition alice : AuthUser :=
  {| uid := "u-alice"; raw := JObj [("id", JStr "u-alice")] |}.
Definition root : AuthUser :=
  {| uid := "u-root"; raw := JObj [("id", JStr "u-root")] |}.
Definition newcomer : AuthUser :=
  {| uid := "u-new"; raw := JObj [("id", JStr "u-new")] |}.

(** [Date.parse] on the date strings the samples use. *)
Definition dates : list (string * Z) :=
  [("2024-01-01T23:30:00.000Z", 1704151800000);
   ("2024-01-02T00:30:00.000Z", 1704155400000);
   ("2023-12-31T00:00:00.000Z", 1703980800000);
   ("2024-06-01T00:00:00.000Z", 1717200000000)].

Definition platform : Platform := {|
  parseDate := fun s => snd <$> find (fun e => String.eqb s (fst e)) dates;
  code_units := fun s => map (fun c => String c "") (list_ascii_of_string s);
  fn_source := fun name =>
    "function " +:+ (if String.eqb name "constructor" then "Object" else name)
      +:+ "() { [native code] }";
  proto_accessor := false;
  getUser := fun token =>
    if String.eqb token "tok-alice" then Some alice
    else if String.eqb token "tok-root" then Some root
    else None;
  createUser := fun _ _ _ _ => CreateOk newcomer;
  clock := fun _ => 1704151800000;
  uuid := fun n => "id-" +:+ pretty n;
  localeCompare := String.compare;
  toLocaleDateString := fun t => match t with Some _ => "date" | None => "Invalid Date" end;
  localTZA := fun _ => 10800000
|}.

(** The same platform as a browser has it, with the [__proto__]
    accessor. *)
Definition browser : Platform := {|
  parseDate := parseDate (Platform := platform);
  code_units := code_units (Platform := platform);
  fn_source := fn_source (Platform := platform);
  proto_accessor := true;
  getUser := getUser (Platform := platform);
  createUser := createUser (Platform := platform);
  clock := clock (Platform := platform);
  uuid := uuid (Platform := platform);
  localeCompare := localeCompare (Platform := platform);
  toLocaleDateString := toLocaleDateString (Platform := platform);
  localTZA := localTZA (Platform := platform)
|}.

Definition request (token : string) (id : string) (data : json) : Request :=
  {| authorization := Some ("Bearer " +:+ token); param_id := id;
     payload := Some data |}.

(** One defect with one comment, an administrator and an observer. *)
Definition defect1 : json :=
  JObj [("id", JStr "d1"); ("title", JStr "Crack"); ("priority", JStr "High");
        ("dueDate", JStr "2023-12-31T00:00:00.000Z");
        ("status", JStr "В работе"); ("createdBy", JStr "u-alice");
        ("createdAt", JStr "2023-12-31T00:00:00.000Z");
        ("updatedAt", JStr "2023-12-31T00:00:00.000Z");
        ("comments", JArr [JObj [("id", JStr "c1"); ("author", JStr "u-alice");
                                 ("comment", JStr "seen")]])].

(** Two defects created an hour apart around midnight UTC, which is the
    small hours of one day at the sample platform's offset of three
    hours. *)
Definition late_defect : json :=
  JObj [("id", JStr "d2"); ("createdAt", JStr "2024-01-01T23:30:00.000Z")].
Definition early_defect : json :=
  JObj [("id", JStr "d3"); ("createdAt", JStr "2024-01-02T00:30:00.000Z")].

Definition world : World :=
  {| kv := <["defect:d1" := defect1]>
             (<["user:u-root" := JObj [("id", JStr "u-root"); ("role", JStr "admin")]]>
                (<["user:u-alice" := JObj [("id", JStr "u-alice"); ("role", JStr "observer")]]> ∅));
     auth_log := []; reads := 0; draws := 0 |}.

End Sample.

(** ** The remaining routes of the server *)

Section OtherRoutes.

Context `{Platform}.

(** *** GET /health *)

Definition health : Response := json_ok (JObj [("status", JStr "ok")]).

(** *** GET /projects and POST /projects *)

Definition list_projects (r : Request) : World → Response * World :=
  guarded "Internal server error while fetching projects" (
    authenticated r (fun user =>
      let* projects := kv_getByPrefix "project:" in
      ret (json_ok (JObj [("projects", JArr projects)])))).

Definition create_project (r : Request) : World → Response * World :=
  guarded "Internal server error while creating project" (
    authenticated r (fun user =>
      let* data := req_json r in
      let* name := get data "name" in
      let* description := get data "description" in
      let* startDate := get data "startDate" in
      let* endDate := get data "endDate" in
      let* projectId := randomUUID in
      let* createdAt := timestamp in
      let project :=
        Js.literal [("id", Some (JStr projectId)); ("name", name);
                    ("description", description); ("startDate", startDate);
                    ("endDate", endDate); ("createdBy", Some (JStr (uid user)));
                    ("createdAt", Some createdAt);
                    ("status", Some (JStr "active"))] in
      kv_set ("project:" +:+ projectId) project;;
      ret (json_ok (JObj [("project", project)])))).

(** *** GET /defects and GET /defects/:id *)

Definition list_defects (r : Request) : World → Response * World :=
  guarded "Internal server error while fetching defects" (
    authenticated r (fun user =>
      let* defects := kv_getByPrefix "defect:" in
      ret (json_ok (JObj [("defects", JArr defects)])))).

Definition get_defect (r : Request) : World → Response * World :=
  guarded "Internal server error while fetching defect" (
    authenticated r (fun user =>
      let defectId := param_id r in
      let* defect := kv_get ("defect:" +:+ defectId) in
      if negb (Js.truthy defect) then ret (json_error "Defect not found" 404)
      else
        let* entries := kv_getByPrefix ("history:" +:+ defectId +:+ ":") in
        ret (json_ok (JObj [("defect", default JNull defect);
                            ("history", JArr entries)])))).

(** *** GET /users *)

Definition list_users (r : Request) : World → Response * World :=
  guarded "Internal server error while fetching users" (
    authenticated r (fun user =>
      let* users := kv_getByPrefix "user:" in
      ret (json_ok (JObj [("users", JArr users)])))).

(** *** The routes behind the token check *)

Inductive Route :=
| GetProjects | PostProject | GetDefects | PostDefect | PutDefect | GetDefect
| PostComment | GetAnalytics | GetUsers | PutUserRole.

Definition serve (route : Route) : Request → World → Response * World :=
  match route with
  | GetProjects => list_projects
  | PostProject => create_project
  | GetDefects => list_defects
  | PostDefect => create_defect
  | PutDefect => update_defect
  | GetDefect => get_defect
  | PostComment => add_comment
  | GetAnalytics => analytics
  | GetUsers => list_users
  | PutUserRole => update_role
  end.

(** The routes that answer a GET. *)
Definition reads_only (route : Route) : bool :=
  match route with
  | GetProjects | GetDefects | GetDefect | GetAnalytics | GetUsers => true
  | _ => false
  end.

(** A computation writes the table only under keys that satisfy [P]. *)
Definition only_writes {A} (P : string → Prop) (m : M A) : Prop :=
  ∀ w key, ¬ P key → kv (snd (m w)) !! key = kv w !! key.

(** The keys of defects, their history and projects. *)
Definition work_key (key : string) : Prop :=
  String.prefix "defect:" key = true
  ∨ String.prefix "history:" key = true
  ∨ String.prefix "project:" key = true.

(** The documents stored under [history:<defectId>:...]. *)
Definition history_of (defectId : string) (w : World) : list json :=
  map snd (filter (fun kd => String.prefix ("history:" +:+ defectId +:+ ":") (fst kd) = true)
                  (map_to_list (kv w))).

(** The projects the list route returns. *)
Definition stored_projects (w : World) : list json :=
  map snd (filter (fun kd => String.prefix "project:" (fst kd) = true)
                  (map_to_list (kv w))).

End OtherRoutes.

(** ** Sequences of requests *)

Section Sessions.

Context `{Platform}.

(** A request to the server: the signup route, which takes no token,
    or one of the routes behind the token check. *)
Inductive Call :=
| Signup (r : Request)
| Protected (route : Route) (r : Request).

Definition answer (c : Call) : World → Response * World :=
  match c with
  | Signup r => signup r
  | Protected route r => serve route r
  end.

(** The world after a sequence of requests, answered one after the
    other. *)
Definition run (calls : list Call) (w : World) : World :=
  fold_left (fun w c => snd (answer c w)) calls w.

(** No user record has the role [admin]. *)
Definition no_admin (w : World) : Prop :=
  ∀ key profile,
    String.prefix "user:" key = true → kv w !! key = Some profile →
    Js.prop profile "role" ≠ Some (Some (JStr "admin")).

End Sessions.

(** A string without a space. *)
Definition spaceless (s : string) : Prop :=
  forallb (fun c => negb (Ascii.eqb c " ")) (list_ascii_of_string s) = true.

(** Further sample data. *)
Module Cases.

(** A table whose only user is an observer. *)
Definition orphaned : World :=
  {| kv := {["user:u-alice" := JObj [("id", JStr "u-alice"); ("role", JStr "observer")]]};
     auth_log := []; reads := 0; draws := 0 |}.

(** A signup, then the observer asking to be made administrator. *)
Definition attempt : list Call :=
  [Signup
     (Sample.request "" "" (JObj [("email", JStr "n@b.c"); ("password", JStr "pw");
                                  ("name", JStr "New"); ("role", JStr "admin")]));
   Protected PutUserRole
     (Sample.request "tok-alice" "u-alice" (JObj [("role", JStr "admin")]))].

(** A priority that does not convert to a string. *)
Definition unreadable : json := JObj [("toString", JNull)].

End Cases.

(** ** The client's pages *)

(** [a === b] for two values read from parsed JSON documents, one of
    which may be [undefined]: two objects or arrays parsed apart are
    never one and the same. *)
Definition strict_equal (a b : option json) : bool :=
  match a, b with
  | None, None => true
  | Some JNull, Some JNull => true
  | Some (JBool x), Some (JBool y) => Bool.eqb x y
  | Some (JNum x), Some (JNum y) => Z.eqb x y
  | Some (JStr x), Some (JStr y) => String.eqb x y
  | _, _ => false
  end.

(** [hay.includes(needle)] on strings. *)
Fixpoint includes (hay needle : string) : bool :=
  String.prefix needle hay
  || match hay with
     | EmptyString => false
     | String _ rest => includes rest needle
     end.

(** [l.filter(p)] for a callback that may throw. *)
Fixpoint filter_by {A} (p : A → option bool) (l : list A) : option (list A) :=
  match l with
  | [] => Some []
  | x :: rest =>
      match p x with
      | None => None
      | Some keep =>
          match filter_by p rest with
          | None => None
          | Some kept => Some (if keep then x :: kept else kept)
          end
      end
  end.

(** *** The sidebar *)

Module AppSidebar.

Record MenuItem := { title : string; url : string; roles : list string }.

Definition allMenuItems : list MenuItem :=
  [ {| title := "Дашборд"; url := "/";
       roles := ["observer"; "engineer"; "manager"; "admin"] |};
    {| title := "Дефекты"; url := "/defects";
       roles := ["observer"; "engineer"; "manager"; "admin"] |};
    {| title := "Проекты"; url := "/projects";
       roles := ["observer"; "engineer"; "manager"; "admin"] |};
    {| title := "Аналитика"; url := "/analytics";
       roles := ["observer"; "engineer"; "manager"; "admin"] |};
    {| title := "Администратор"; url := "/admin"; roles := ["admin"] |} ].

(** [userInfo?.role || 'observer']; [None] is an [undefined]
    [userInfo]. *)
Definition userRole (userInfo : option json) : json :=
  match userInfo with
  | None | Some JNull => JStr "observer"
  | Some info =>
      if Js.truthy (Js.field info "role") then default JNull (Js.field info "role")
      else JStr "observer"
  end.

(** [item.roles.includes(userRole)]: the roles are strings, so only an
    equal string is included. *)
Definition allowed (item : MenuItem) (role : json) : bool :=
  match role with
  | JStr s => existsb (String.eqb s) (roles item)
  | _ => false
  end.

Definition menuItems (userInfo : option json) : list MenuItem :=
  List.filter (fun item => allowed item (userRole userInfo)) allMenuItems.

End AppSidebar.

(** *** The defect list *)

Module DefectsPage.

Section Filter.

(** [String.prototype.toLowerCase]. *)
Variable toLowerCase : string → string.

Record Filters := {
  searchTerm : string;
  statusFilter : string;
  priorityFilter : string;
  projectFilter : string
}.

(** [v.toLowerCase().includes(searchTerm.toLowerCase())]: only a string
    has [toLowerCase], on anything else the call throws. *)
Definition lower_includes (v : option json) (term : string) : option bool :=
  match v with
  | Some (JStr s) => Some (includes (toLowerCase s) (toLowerCase term))
  | _ => None
  end.

(** [filter === "all" || v === filter]. *)
Definition all_or (filter : string) (v : option json) : bool :=
  String.eqb filter "all" || strict_equal v (Some (JStr filter)).

(** The callback of [filteredDefects]: the description is looked at
    only when the title does not match. *)
Definition matches (f : Filters) (defect : json) : option bool :=
  match Js.prop defect "title" with
  | None => None
  | Some title =>
      match lower_includes title (searchTerm f) with
      | None => None
      | Some inTitle =>
          match (if inTitle then Some true
                 else lower_includes (Js.field defect "description") (searchTerm f)) with
          | None => None
          | Some matchesSearch =>
              let matchesStatus := all_or (statusFilter f) (Js.field defect "status") in
              let matchesPriority := all_or (priorityFilter f) (Js.field defect "priority") in
              let matchesProject := all_or (projectFilter f) (Js.field defect "projectId") in
              Some (matchesSearch && matchesStatus && matchesPriority && matchesProject)
          end
      end
  end.

Definition filteredDefects (f : Filters) (defects : list json) : option (list json) :=
  filter_by (matches f) defects.

(** The filters as the page starts with them. *)
Definition initial : Filters :=
  {| searchTerm := ""; statusFilter := "all"; priorityFilter := "all";
     projectFilter := "all" |}.

(** A title the search can read. *)
Definition titled (defect : json) : Prop :=
  ∃ s, Js.prop defect "title" = Some (Some (JStr s)).

End Filter.

End DefectsPage.

(** *** The project cards *)

Module ProjectsPage.

Section Stats.

Context `{Platform}.

(** [l.filter(p)] for a callback that reads the clock and may throw. *)
Fixpoint filter_m {A} (p : A → M bool) (l : list A) : M (list A) :=
  match l with
  | [] => ret []
  | x :: rest =>
      let* keep := p x in
      let* kept := filter_m p rest in
      ret (if keep then x :: kept else kept)
  end.

Record Stats := {
  totalDefects : nat;
  completedDefects : nat;
  activeDefects : nat;
  overdueDefects : nat
}.

(** [d.status === text]. *)
Definition has_status (text : string) (d : json) : bool :=
  strict_equal (Js.field d "status") (Some (JStr text)).

Definition getProjectStats (projectId : option json) (defects : list json) : M Stats :=
  let* projectDefects :=
    filter_m (fun d => let* id := get d "projectId" in ret (strict_equal id projectId))
      defects in
  let completed := List.filter (has_status "Закрыта") projectDefects in
  let active := List.filter (has_status "В работе") projectDefects in
  let* late := filter_m is_overdue projectDefects in
  ret {| totalDefects := length projectDefects;
         completedDefects := length completed;
         activeDefects := length active;
         overdueDefects := length late |}.

End Stats.

End ProjectsPage.

(** Sample data for the pages. *)
Module PageCases.

Definition lower_ascii (c : ascii) : ascii :=
  let n := nat_of_ascii c in
  if ((65 <=? n) && (n <=? 90))%nat then ascii_of_nat (n + 32) else c.

(** Lower case for the letters A to Z. *)
Fixpoint lower (s : string) : string :=
  match s with
  | EmptyString => EmptyString
  | String c rest => String (lower_ascii c) (lower rest)
  end.

Definition crack : json :=
  JObj [("id", JStr "d1"); ("title", JStr "Crack in Wall"); ("description", JStr "north");
        ("status", JStr "Новая"); ("priority", JStr "High"); ("projectId", JStr "p1")].

Definition leak : json :=
  JObj [("id", JStr "d2"); ("title", JStr "Leak"); ("description", JStr "cracked pipe");
        ("status", JStr "Закрыта"); ("priority", JStr "Low"); ("projectId", JStr "p2")].

Definition search : DefectsPage.Filters :=
  {| DefectsPage.searchTerm := "CRACK"; DefectsPage.statusFilter := "Новая";
     DefectsPage.priorityFilter := "all"; DefectsPage.projectFilter := "all" |}.

(** The card of the defects without a project, when [d1] and the crack
    are loaded. *)
Definition card : ProjectsPage.Stats :=
  {| ProjectsPage.totalDefects := 1; ProjectsPage.completedDefects := 0;
     ProjectsPage.activeDefects := 1; ProjectsPage.overdueDefects := 1 |}.

(** Two history entries an hour apart. *)
Definition first_entry : json :=
  JObj [("id", JStr "h1"); ("action", JStr "created");
        ("timestamp", JStr "2024-01-01T23:30:00.000Z")].
Definition second_entry : json :=
  JObj [("id", JStr "h2"); ("action", JStr "updated");
        ("timestamp", JStr "2024-01-02T00:30:00.000Z")].

(** The sample platform with a clock that moves on by an hour after
    its third reading. *)
Definition ticking : Platform := {|
  parseDate := parseDate (Platform := Sample.platform);
  code_units := code_units (Platform := Sample.platform);
  fn_source := fn_source (Platform := Sample.platform);
  proto_accessor := proto_accessor (Platform := Sample.platform);
  getUser := getUser (Platform := Sample.platform);
  createUser := createUser (Platform := Sample.platform);
  clock := fun n => if (n <? 3)%nat then 1704151800000 else 1704155400000;
  uuid := uuid (Platform := Sample.platform);
  localeCompare := localeCompare (Platform := Sample.platform);
  toLocaleDateString := toLocaleDateString (Platform := Sample.platform);
  localTZA := localTZA (Platform := Sample.platform)
|}.

(** The sample platform with a token for the user its identity
    service creates. *)
Definition newcomers : Platform := {|
  parseDate := parseDate (Platform := Sample.platform);
  code_units := code_units (Platform := Sample.platform);
  fn_source := fn_source (Platform := Sample.platform);
  proto_accessor := proto_accessor (Platform := Sample.platform);
  getUser := fun token =>
    if String.eqb token "tok-new" then Some Sample.newcomer
    else getUser (Platform := Sample.platform) token;
  createUser := createUser (Platform := Sample.platform);
  clock := clock (Platform := Sample.platform);
  uuid := uuid (Platform := Sample.platform);
  localeCompare := localeCompare (Platform := Sample.platform);
  toLocaleDateString := toLocaleDateString (Platform := Sample.platform);
  localTZA := localTZA (Platform := Sample.platform)
|}.

End PageCases.


(** *** The history on a defect's page *)

Module DefectDetailPage.

Section History.

Context `{Platform}.

(** [new Date(entry.timestamp).getTime()]: the inner [None] is [NaN],
    the outer one a thrown error. *)
Definition time_of (entry : json) : option (option Z) :=
  match Js.prop entry "timestamp" with
  | Some timestamp => new_Date timestamp
  | None => None
  end.

(** The comparator [(a, b) => time(b) - time(a)]; a [NaN] counts as
    zero. *)
Definition newer_first (a b : json) : comparison :=
  match time_of b, time_of a with
  | Some (Some tb), Some (Some ta) => Z.compare tb ta
  | _, _ => Eq
  end.

(** [history.sort(newer_first)]: with two entries or more the
    comparator is called on each of them. *)
Definition shown_history (history : list json) : option (list json) :=
  match history with
  | [] | [_] => Some history
  | _ =>
      if forallb (fun entry => match time_of entry with Some _ => true | None => false end)
           history
      then Some (sort_by newer_first history)
      else None
  end.

(** The time of an entry whose timestamp is a valid date. *)
Definition stamp (entry : json) : Z :=
  match time_of entry with
  | Some (Some t) => t
  | _ => 0
  end.

Definition dated (entry : json) : Prop := ∃ t, time_of entry = Some (Some t).

End History.

End DefectDetailPage.

(** ** What the client makes of an answer *)

Module Api.

Inductive Result :=
| Returned (doc : json)
| Thrown (message : string)   (** [throw new Error(message)] *)
| Failed.                     (** another error, thrown on the way *)

(** [apiRequest] from the response on; [parsed] is what
    [response.json()] gives, [None] when the body is not JSON.  A status
    from 200 to 299 is [response.ok]. *)
Definition apiRequest (status : Z) (parsed : option json) : Result :=
  if (200 <=? status) && (status <=? 299) then
    match parsed with
    | Some doc => Returned doc
    | None => Failed
    end
  else
    let error := default (JObj [("error", JStr "Network error")]) parsed in
    match Js.prop error "error" with
    | None => Failed
    | Some message =>
        if Js.truthy message then
          match Js.to_string (default JNull message) with
          | Some text => Thrown text
          | None => Failed
          end
        else Thrown ("HTTP " +:+ pretty status)
    end.

End Api.

(** An answer that refuses: an object with a message under [error] and
    one of the five error codes. *)
Definition refusal (resp : Response) : Prop :=
  ∃ message, resp = json_error message (status resp) ∧ message ≠ ""
             ∧ status resp ∈ [400; 401; 403; 404; 500].

(** An answer that grants: 200 with an object. *)
Definition grant (resp : Response) : Prop :=
  status resp = 200 ∧ ∃ props, body resp = JObj props.

(** Every answer a handler gives without throwing satisfies [P]. *)
Definition yields (P : Response → Prop) (m : M Response) : Prop :=
  ∀ w, match fst (m w) with
       | Ok resp => P resp
       | Throw => True
       end.

(** ** The spec's overdue rule

    The definitions of this part follow the words of the spec, not the
    handlers: they are what the handlers' counts are compared with. *)

Module Spec.

(** A defect of the data model, in what the overdue rule and the
    project cards look at: the due date as a time value, when one is
    set; the status; the id of the project, when the defect names
    one. *)
Record Defect := {
  dueDate : option Z;
  status : string;
  projectId : option string
}.

(** [overdue(D) ⇔ D.dueDate is set ∧ D.dueDate < now ∧ D.status ≠ Closed]. *)
Definition overdue (now : Z) (D : Defect) : bool :=
  match dueDate D with
  | Some due => (due <? now) && negb (String.eqb (status D) "Закрыта")
  | None => false
  end.

End Spec.

Section Reading.

Context `{Platform}.

(** The due date a stored value stands for: none is set when the
    property is left out, [null] or the empty string; a string stands
    for the date the platform parses it to.  Other values, and strings
    that are no date, are not of the data model. *)
Definition read_due (v : option json) : option (option Z) :=
  match v with
  | None | Some JNull => Some None
  | Some (JStr s) =>
      if String.eqb s "" then Some None
      else match parseDate s with
           | Some t => Some (Some t)
           | None => None
           end
  | Some _ => None
  end.

(** The defect of the data model a stored document holds: an object
    whose status is a string and whose due date reads as above. *)
Definition read_defect (doc : json) : option Spec.Defect :=
  match doc with
  | JObj props =>
      match Js.own "status" props, read_due (Js.own "dueDate" props) with
      | Some (JStr status), Some due =>
          Some {| Spec.dueDate := due; Spec.status := status;
                  Spec.projectId := match Js.own "projectId" props with
                                    | Some (JStr project) => Some project
                                    | _ => None
                                    end |}
      | _, _ => None
      end
  | _ => None
  end.

(** The defects of the data model a list of stored documents holds. *)
Definition read_defects (docs : list json) : list Spec.Defect := omap read_defect docs.

(** Every document of the list holds a defect of the data model. *)
Definition all_read (docs : list json) : Prop :=
  Forall (fun doc => is_Some (read_defect doc)) docs.

End Reading.

(** Sample data for the scans. *)
Module Scans.




(** Four defects of project [p1]: one past its due date and in work,
    one past its due date and closed, one due in June 2024, one with no
    due date; and one of project [p2], past its due date and new. *)
Definition late_open : json :=
  JObj [("priority", JStr "High"); ("projectId", JStr "p1");
        ("dueDate", JStr "2023-12-31T00:00:00.000Z"); ("status", JStr "В работе")].
Definition late_closed : json :=
  JObj [("priority", JStr "High"); ("projectId", JStr "p1");
        ("dueDate", JStr "2023-12-31T00:00:00.000Z"); ("status", JStr "Закрыта")].
Definition due_later : json :=
  JObj [("priority", JStr "Low"); ("projectId", JStr "p1");
        ("dueDate", JStr "2024-06-01T00:00:00.000Z"); ("status", JStr "В работе")].
Definition undated : json :=
  JObj [("priority", JStr "Low"); ("projectId", JStr "p1");
        ("dueDate", JStr ""); ("status", JStr "Новая")].
Definition elsewhere : json :=
  JObj [("priority", JStr "Low"); ("projectId", JStr "p2");
        ("dueDate", JStr "2023-12-31T00:00:00.000Z"); ("status", JStr "Новая")].

Definition mixed : World :=
  {| kv := <["defect:m1" := late_open]>
             (<["defect:m2" := late_closed]>
                (<["defect:m3" := due_later]>
                   (<["defect:m4" := undated]>
                      (<["defect:m5" := elsewhere]> ∅))));
     auth_log := []; reads := 0; draws := 0 |}.

End Scans.

(** * Properties *)

(** ** Property lists *)

Lemma own_set_eq k v l : Js.own k (Js.set k v l) = Some v.
Proof.
  induction l as [|[k' v'] l IH]; simpl.
  - by rewrite String.eqb_refl.
  - destruct (String.eqb k k') eqn:E; simpl; [by rewrite String.eqb_refl | by rewrite E].
Qed.

Lemma own_set_ne k k' v l : k ≠ k' → Js.own k' (Js.set k v l) = Js.own k' l.
Proof.
  intros Hne. induction l as [|[k0 v0] l IH]; simpl.
  - destruct (String.eqb_spec k' k); congruence.
  - destruct (String.eqb_spec k k0) as [->|Hk]; simpl.
    + destruct (String.eqb_spec k' k0); congruence.
    + destruct (String.eqb_spec k' k0); [done | apply IH].
Qed.

Lemma own_set k k' v l :
  Js.own k' (Js.set k v l) = if String.eqb k k' then Some v else Js.own k' l.
Proof.
  destruct (String.eqb_spec k k') as [->|Hne];
    [apply own_set_eq | by apply own_set_ne].
Qed.

Lemma own_app k l1 l2 :
  Js.own k (l1 ++ l2) = match Js.own k l1 with Some v => Some v | None => Js.own k l2 end.
Proof.
  induction l1 as [|[k' v'] l1 IH]; simpl; [done|].
  by destruct (String.eqb k k').
Qed.

Lemma own_None k l : Js.own k l = None ↔ k ∉ map fst l.
Proof.
  induction l as [|[k' v'] l IH]; simpl.
  - split; [intros _; apply not_elem_of_nil | reflexivity].
  - rewrite not_elem_of_cons. destruct (String.eqb_spec k k') as [->|Hne].
    + split; [done | intros [? _]; congruence].
    + rewrite IH. tauto.
Qed.


Lemma own_rev k l : NoDup (map fst l) → Js.own k (rev l) = Js.own k l.
Proof.
  induction l as [|[k' v'] l IH]; simpl; [done|].
  rewrite NoDup_cons. intros [Hnotin Hnd].
  rewrite own_app, IH by done. simpl.
  destruct (String.eqb_spec k k') as [->|Hne].
  - apply own_None in Hnotin. by rewrite Hnotin.
  - by destruct (Js.own k l).
Qed.

Lemma own_fold_set entries target k :
  Js.own k (fold_left (fun acc kv => Js.set (fst kv) (snd kv) acc) entries target)
  = match Js.own k (rev entries) with
    | Some v => Some v
    | None => Js.own k target
    end.
Proof.
  revert target. induction entries as [|[k' v'] entries IH]; intros target; simpl.
  - done.
  - rewrite IH, own_app, own_set. simpl.
    destruct (Js.own k (rev entries)); [done|].
    destruct (String.eqb_spec k' k) as [->|Hne].
    + by rewrite String.eqb_refl.
    + destruct (String.eqb_spec k k'); congruence.
Qed.


(** ** Running a route *)

Section Routes.

Context `{Platform}.

Lemma authenticated_valid r user k :
  valid_token r user → authenticated r k = k user.
Proof.
  intros (token & Htok & Hne & Huser). unfold authenticated, verifyAuth.
  rewrite Htok, Huser. by destruct (String.eqb_spec token "").
Qed.

Lemma prop_field v k : v ≠ JNull → Js.prop v k = Some (Js.field v k).
Proof. by destruct v. Qed.

Lemma prefix_append s t : String.prefix s (s +:+ t) = true.
Proof.
  induction s as [|a s IH]; simpl.
  - by destruct t.
  - by destruct (ascii_dec a a).
Qed.

Lemma history_insert_other key doc table :
  String.prefix "history:" key = false →
  history (<[key := doc]> table) = history table.
Proof.
  intros Hk. unfold history.
  apply map_filter_insert_not. intros y. simpl. congruence.
Qed.

Lemma history_insert_entry key doc table :
  String.prefix "history:" key = true →
  history (<[key := doc]> table) = <[key := doc]> (history table).
Proof. intros Hk. unfold history. by rewrite map_filter_insert_True. Qed.

Lemma history_lookup key table :
  String.prefix "history:" key = true → history table !! key = table !! key.
Proof.
  intros Hk. unfold history. destruct (table !! key) eqn:E.
  - by apply map_lookup_filter_Some.
  - apply map_lookup_filter_None. left. done.
Qed.

Lemma own_literal k fields acc :
  Js.own k (fold_left
              (fun acc '(k, ov) =>
                 match ov with Some v => Js.set k v acc | None => acc end)
              fields acc)
  = literal_own k fields (Js.own k acc).
Proof.
  revert acc. induction fields as [|[k' [v|]] fields IH]; intros acc; simpl.
  - done.
  - rewrite IH, own_set. done.
  - rewrite IH. by destruct (String.eqb k' k).
Qed.

Lemma field_literal k fields :
  Js.field (Js.literal fields) k = literal_own k fields None.
Proof. unfold Js.literal. simpl. by rewrite own_literal. Qed.

(** Creating a defect with a valid token and a body that is not
    [null]: the two documents written and the answer. *)
Lemma create_defect_run r w user data :
  valid_token r user → payload r = Some data → data ≠ JNull →
  ∃ defect entry,
    defect = Js.literal
               [("id", Some (JStr (uuid (draws w))));
                ("title", Js.field data "title");
                ("description", Js.field data "description");
                ("priority", Js.field data "priority");
                ("assignee", Js.field data "assignee");
                ("projectId", Js.field data "projectId");
                ("dueDate", Js.field data "dueDate");
                ("status", Some (JStr "Новая"));
                ("createdBy", Some (JStr (uid user)));
                ("createdAt", Some (JStr (Date.toISOString (clock (reads w)))));
                ("updatedAt", Some (JStr (Date.toISOString (clock (S (reads w))))));
                ("comments", Some (JArr []))] ∧
    entry = Js.literal
              [("id", Some (JStr (uuid (S (draws w)))));
               ("defectId", Some (JStr (uuid (draws w))));
               ("action", Some (JStr "created"));
               ("userId", Some (JStr (uid user)));
               ("timestamp",
                Some (JStr (Date.toISOString (clock (S (S (reads w)))))));
               ("details", Some (JStr "Дефект создан"))] ∧
    create_defect r w =
      (json_ok (JObj [("defect", defect)]),
       {| kv := <["history:" +:+ uuid (draws w) +:+ ":" +:+ uuid (S (draws w)) := entry]>
                  (<["defect:" +:+ uuid (draws w) := defect]> (kv w));
          auth_log := auth_log w;
          reads := S (S (S (reads w)));
          draws := S (S (draws w)) |}).
Proof.
  intros Hv Hp Hd. eexists _, _. split; [reflexivity|]. split; [reflexivity|].
  unfold create_defect, guarded. rewrite (authenticated_valid _ _ _ Hv).
  unfold req_json, get. rewrite Hp.
  repeat (cbn [lift bind ret randomUUID timestamp now kv_set];
          rewrite ?prop_field by done).
  reflexivity.
Qed.

(** Updating an existing defect with a valid token and a body that is
    not [null]. *)
Lemma update_defect_run r w user updates existing :
  valid_token r user → payload r = Some updates → updates ≠ JNull →
  kv w !! ("defect:" +:+ param_id r) = Some existing →
  Js.truthy (Some existing) = true →
  ∃ merged entry,
    merged = JObj (Js.set "updatedAt" (JStr (Date.toISOString (clock (reads w))))
                     (spread updates (spread existing []))) ∧
    entry = Js.literal
              [("id", Some (JStr (uuid (draws w))));
               ("defectId", Some (JStr (param_id r)));
               ("action", Some (JStr "updated"));
               ("userId", Some (JStr (uid user)));
               ("timestamp", Some (JStr (Date.toISOString (clock (S (reads w))))));
               ("details",
                Some (JStr ("Дефект обновлен: "
                            +:+ String.concat ", " (map fst (own_entries updates)))))] ∧
    update_defect r w =
      (json_ok (JObj [("defect", merged)]),
       {| kv := <["history:" +:+ param_id r +:+ ":" +:+ uuid (draws w) := entry]>
                  (<["defect:" +:+ param_id r := merged]> (kv w));
          auth_log := auth_log w;
          reads := S (S (reads w));
          draws := S (draws w) |}).
Proof.
  intros Hv Hp Hd Hex Htr. eexists _, _. split; [reflexivity|]. split; [reflexivity|].
  unfold update_defect, guarded. rewrite (authenticated_valid _ _ _ Hv).
  unfold req_json. rewrite Hp.
  cbn [lift bind ret kv_get]. rewrite Hex, Htr.
  cbn [negb default lift bind ret randomUUID timestamp now kv_set].
  unfold object_keys. destruct updates; try done.
Qed.

(** The same with the body [null]: the merged document is stored, then
    [Object.keys(null)] throws and no entry is written. *)
Lemma update_defect_null r w user existing :
  valid_token r user → payload r = Some JNull →
  kv w !! ("defect:" +:+ param_id r) = Some existing →
  Js.truthy (Some existing) = true →
  update_defect r w =
    (json_error "Internal server error while updating defect" 500,
     {| kv := <["defect:" +:+ param_id r :=
                  JObj (Js.set "updatedAt" (JStr (Date.toISOString (clock (reads w))))
                          (spread existing []))]> (kv w);
        auth_log := auth_log w;
        reads := S (S (reads w));
        draws := S (draws w) |}).
Proof.
  intros Hv Hp Hex Htr.
  unfold update_defect, guarded. rewrite (authenticated_valid _ _ _ Hv).
  unfold req_json. rewrite Hp.
  cbn [lift bind ret kv_get]. rewrite Hex, Htr. reflexivity.
Qed.

(** Adding a comment to an existing defect with a valid token and a
    body that is not [null]. *)
Lemma add_comment_run r w user data defect :
  valid_token r user → payload r = Some data → data ≠ JNull →
  kv w !! ("defect:" +:+ param_id r) = Some defect →
  Js.truthy (Some defect) = true →
  ∃ newComment,
    newComment = Js.literal
                   [("id", Some (JStr (uuid (draws w))));
                    ("author", Some (JStr (uid user)));
                    ("comment", Js.field data "comment");
                    ("timestamp", Some (JStr (Date.toISOString (clock (reads w)))))] ∧
    add_comment r w =
      match push_comment defect newComment with
      | Some stored =>
          (json_ok (JObj [("comment", newComment)]),
           {| kv := <["defect:" +:+ param_id r := stored]> (kv w);
              auth_log := auth_log w; reads := S (reads w); draws := S (draws w) |})
      | None =>
          (json_error "Internal server error while adding comment" 500,
           {| kv := kv w;
              auth_log := auth_log w; reads := S (reads w); draws := S (draws w) |})
      end.
Proof.
  intros Hv Hp Hd Hex Htr. eexists. split; [reflexivity|].
  unfold add_comment, guarded. rewrite (authenticated_valid _ _ _ Hv).
  unfold req_json, get. rewrite Hp.
  cbn [lift bind ret]. rewrite prop_field by done.
  cbn [lift bind ret kv_get]. rewrite Hex, Htr.
  cbn [negb default lift bind ret randomUUID timestamp now kv_set].
  by destruct (push_comment _ _).
Qed.

End Routes.

(** ** The audit trail *)

Section AuditTrail.

Context `{Platform}.

(** Supporting C2: with a body that is not [null], creating a defect
    writes exactly one history entry, with action [created], and the new
    defect has status [Новая] and no comments; an update of an existing
    defect writes exactly one more entry, with action [updated],
    whatever fields the payload holds.  Entry ids are fresh tokens. *)
Theorem defect_history_entries :
  (∀ r w user data,
      valid_token r user → payload r = Some data → data ≠ JNull →
      let defectKey := "defect:" +:+ uuid (draws w) in
      let entryKey := "history:" +:+ uuid (draws w) +:+ ":" +:+ uuid (S (draws w)) in
      kv w !! entryKey = None →
      ∃ defect entry,
        status (fst (create_defect r w)) = 200 ∧
        kv (snd (create_defect r w)) !! defectKey = Some defect ∧
        Js.field defect "status" = Some (JStr "Новая") ∧
        Js.field defect "comments" = Some (JArr []) ∧
        history (kv w) !! entryKey = None ∧
        history (kv (snd (create_defect r w))) = <[entryKey := entry]> (history (kv w)) ∧
        Js.field entry "action" = Some (JStr "created"))
  ∧
  (∀ r w user updates existing,
      valid_token r user → payload r = Some updates → updates ≠ JNull →
      kv w !! ("defect:" +:+ param_id r) = Some existing →
      Js.truthy (Some existing) = true →
      let entryKey := "history:" +:+ param_id r +:+ ":" +:+ uuid (draws w) in
      kv w !! entryKey = None →
      ∃ entry,
        status (fst (update_defect r w)) = 200 ∧
        history (kv w) !! entryKey = None ∧
        history (kv (snd (update_defect r w))) = <[entryKey := entry]> (history (kv w)) ∧
        Js.field entry "action" = Some (JStr "updated")).
Proof.
  split.
  - intros r w user data Hv Hp Hd defectKey entryKey Hfresh.
    destruct (create_defect_run r w user data Hv Hp Hd)
      as (defect & entry & Hdefect & Hentry & ->).
    exists defect, entry. cbn [fst snd kv status json_ok].
    split; [done|]. split.
    { rewrite lookup_insert_ne; [apply lookup_insert_eq | done]. }
    split; [by rewrite Hdefect, field_literal|].
    split; [by rewrite Hdefect, field_literal|].
    split; [by rewrite history_lookup by apply prefix_append|].
    split; [|by rewrite Hentry, field_literal].
    rewrite history_insert_entry by apply prefix_append.
    by rewrite history_insert_other by reflexivity.
  - intros r w user updates existing Hv Hp Hd Hex Htr entryKey Hfresh.
    destruct (update_defect_run r w user updates existing Hv Hp Hd Hex Htr)
      as (merged & entry & Hmerged & Hentry & ->).
    exists entry. cbn [fst snd kv status json_ok].
    split; [done|]. split; [by rewrite history_lookup by apply prefix_append|].
    split; [|by rewrite Hentry, field_literal].
    rewrite history_insert_entry by apply prefix_append.
    by rewrite history_insert_other by reflexivity.
Qed.

End AuditTrail.

(** The sample table: creating a defect and updating [d1] each add one
    entry to the trail. *)
Lemma defect_history_entries_witness :
  (∃ entry,
      history (kv (snd (create_defect (H := Sample.platform)
                          (Sample.request "tok-alice" "" (JObj [("title", JStr "Leak")]))
                          Sample.world)))
      = <["history:id-0:id-1" := entry]> (history (kv Sample.world)))
  ∧
  (∃ entry,
      history (kv (snd (update_defect (H := Sample.platform)
                          (Sample.request "tok-alice" "d1"
                             (JObj [("priority", JStr "Low"); ("title", JStr "Gap")]))
                          Sample.world)))
      = <["history:d1:id-0" := entry]> (history (kv Sample.world))).
Proof.
  split.
  - destruct (proj1 (defect_history_entries (H := Sample.platform))
                (Sample.request "tok-alice" "" (JObj [("title", JStr "Leak")]))
                Sample.world Sample.alice (JObj [("title", JStr "Leak")]))
      as (defect & entry & _ & _ & _ & _ & _ & Hhist & _).
    + exists "tok-alice". repeat split; done.
    + reflexivity.
    + discriminate.
    + vm_compute. reflexivity.
    + exists entry. exact Hhist.
  - destruct (proj2 (defect_history_entries (H := Sample.platform))
                (Sample.request "tok-alice" "d1"
                   (JObj [("priority", JStr "Low"); ("title", JStr "Gap")]))
                Sample.world Sample.alice
                (JObj [("priority", JStr "Low"); ("title", JStr "Gap")]) Sample.defect1)
      as (entry & _ & _ & Hhist & _).
    + exists "tok-alice". repeat split; done.
    + reflexivity.
    + discriminate.
    + vm_compute. reflexivity.
    + reflexivity.
    + vm_compute. reflexivity.
    + exists entry. exact Hhist.
Defined.

(** C2 fails on the code. The update route stores the merged document
    before it lists the payload's keys for the history entry, and
    [Object.keys(null)] throws: on the sample table an update of [d1]
    with the body [null] is answered 500, yet the stored defect has
    been stamped with the time of the call, and the trail has no entry
    for it. *)
Theorem null_update_writes_no_history_entry :
  let r := Sample.request "tok-alice" "d1" JNull in
  let w1 := snd (update_defect (H := Sample.platform) r Sample.world) in
  fst (update_defect (H := Sample.platform) r Sample.world)
  = json_error "Internal server error while updating defect" 500 ∧
  (∃ before, kv Sample.world !! "defect:d1" = Some before ∧
             Js.field before "updatedAt" = Some (JStr "2023-12-31T00:00:00.000Z")) ∧
  (∃ after, kv w1 !! "defect:d1" = Some after ∧
            Js.field after "updatedAt" = Some (JStr "2024-01-01T23:30:00.000Z")) ∧
  history (kv w1) = history (kv Sample.world).
Proof.
  cbv zeta.
  rewrite (update_defect_null (H := Sample.platform)
             (Sample.request "tok-alice" "d1" JNull) Sample.world Sample.alice
             Sample.defect1);
    [| exists "tok-alice"; repeat split; done | reflexivity
     | vm_compute; reflexivity | reflexivity].
  cbn [fst snd kv]. split; [reflexivity|].
  split; [eexists; split; vm_compute; reflexivity|].
  split; [eexists; split; [apply lookup_insert_eq | vm_compute; reflexivity]|].
  apply history_insert_other. reflexivity.
Qed.


(** ** Updating a defect *)

Section Update.

Context `{Platform}.

Lemma own_spread_object props target k :
  NoDup (map fst props) →
  Js.own k (spread (JObj props) target)
  = match Js.own k props with Some v => Some v | None => Js.own k target end.
Proof.
  intros Hnd. unfold spread. simpl. by rewrite own_fold_set, own_rev.
Qed.

(** C3, as the code has it. An update of an existing defect stores the
    existing record with the supplied fields laid over it and
    [updatedAt] set to the time of the call, and writes a history entry
    with action [updated] whose details name every field the payload
    supplied, changed or not. *)
Theorem update_merges_and_names_supplied_fields r w user props old :
  valid_token r user →
  payload r = Some (JObj props) → NoDup (map fst props) →
  kv w !! ("defect:" +:+ param_id r) = Some (JObj old) → NoDup (map fst old) →
  ∃ merged entry,
    fst (update_defect r w) = json_ok (JObj [("defect", JObj merged)]) ∧
    kv (snd (update_defect r w)) !! ("defect:" +:+ param_id r) = Some (JObj merged) ∧
    (∀ k, Js.own k merged =
          if String.eqb k "updatedAt"
          then Some (JStr (Date.toISOString (clock (reads w))))
          else match Js.own k props with
               | Some v => Some v
               | None => Js.own k old
               end) ∧
    kv (snd (update_defect r w))
      !! ("history:" +:+ param_id r +:+ ":" +:+ uuid (draws w)) = Some entry ∧
    Js.field entry "action" = Some (JStr "updated") ∧
    Js.field entry "details"
    = Some (JStr ("Дефект обновлен: " +:+ String.concat ", " (map fst props))).
Proof.
  intros Hv Hp Hprops Hex Hold.
  destruct (update_defect_run r w user (JObj props) (JObj old) Hv Hp) as
    (merged & entry & Hmerged & Hentry & ->); [done | done | done |].
  eexists _, entry. cbn [fst snd kv].
  split; [by rewrite Hmerged|].
  split; [by rewrite lookup_insert_ne, lookup_insert_eq, Hmerged|].
  split.
  { intros k. rewrite own_set, String.eqb_sym.
    destruct (String.eqb k "updatedAt"); [done|].
    rewrite !own_spread_object by done. simpl.
    by destruct (Js.own k props), (Js.own k old). }
  split; [apply lookup_insert_eq|].
  by rewrite Hentry, !field_literal.
Qed.

End Update.

(** On the sample table: lowering the priority of [d1]. *)
Lemma update_merges_and_names_supplied_fields_witness :
  ∃ merged entry,
    kv (snd (update_defect (H := Sample.platform)
               (Sample.request "tok-alice" "d1" (JObj [("priority", JStr "Low")]))
               Sample.world)) !! "defect:d1" = Some (JObj merged) ∧
    Js.own "priority" merged = Some (JStr "Low") ∧
    Js.own "title" merged = Some (JStr "Crack") ∧
    Js.field entry "details" = Some (JStr "Дефект обновлен: priority").
Proof.
  destruct (update_merges_and_names_supplied_fields (H := Sample.platform)
              (Sample.request "tok-alice" "d1" (JObj [("priority", JStr "Low")]))
              Sample.world Sample.alice [("priority", JStr "Low")]
              [("id", JStr "d1"); ("title", JStr "Crack"); ("priority", JStr "High");
               ("dueDate", JStr "2023-12-31T00:00:00.000Z");
               ("status", JStr "В работе"); ("createdBy", JStr "u-alice");
               ("createdAt", JStr "2023-12-31T00:00:00.000Z");
               ("updatedAt", JStr "2023-12-31T00:00:00.000Z");
               ("comments", JArr [JObj [("id", JStr "c1"); ("author", JStr "u-alice");
                                        ("comment", JStr "seen")]])])
    as (merged & entry & _ & Hstored & Hmerge & _ & _ & Hdetails).
  - exists "tok-alice". repeat split; done.
  - reflexivity.
  - apply NoDup_singleton.
  - vm_compute. reflexivity.
  - apply (bool_decide_unpack _). vm_compute. exact I.
  - exists merged, entry. split; [exact Hstored|].
    split; [exact (Hmerge "priority")|]. split; [exact (Hmerge "title")|].
    exact Hdetails.
Defined.

(** C3, as stated, fails: on the sample table an update that supplies the
    priority [d1] already has leaves the priority as it was, and the
    entry's details name [priority] all the same. *)
Lemma update_details_name_unchanged_field :
  let w' := snd (update_defect (H := Sample.platform)
                   (Sample.request "tok-alice" "d1" (JObj [("priority", JStr "High")]))
                   Sample.world) in
  ∃ before after entry,
    kv Sample.world !! "defect:d1" = Some before ∧
    kv w' !! "defect:d1" = Some after ∧
    Js.field after "priority" = Js.field before "priority" ∧
    kv w' !! "history:d1:id-0" = Some entry ∧
    Js.field entry "details" = Some (JStr "Дефект обновлен: priority").
Proof.
  vm_compute. eexists _, _, _. repeat split.
Qed.

(** ** Comments *)

Section Comments.

Context `{Platform}.

Lemma push_comment_object props newComment :
  Js.own "comments" props = None ∨ (∃ items, Js.own "comments" props = Some (JArr items)) →
  push_comment (JObj props) newComment
  = Some (JObj (Js.set "comments"
                  (JArr (comments_of (JObj props) ++ [newComment])) props)).
Proof.
  unfold push_comment, comments_of. simpl.
  intros [Hc | [items Hc]]; by rewrite Hc.
Qed.

(** C9. Adding a comment to an existing defect, whose comments are a
    sequence or not yet there, writes no history entry and stores the
    defect with the new comment [{id, author: caller, comment,
    timestamp}] appended after the comments it had; its other fields
    stay as they were. *)
Theorem add_comment_appends r w user data props :
  valid_token r user → payload r = Some data → data ≠ JNull →
  kv w !! ("defect:" +:+ param_id r) = Some (JObj props) →
  Js.own "comments" props = None ∨ (∃ items, Js.own "comments" props = Some (JArr items)) →
  let newComment :=
    Js.literal [("id", Some (JStr (uuid (draws w))));
                ("author", Some (JStr (uid user)));
                ("comment", Js.field data "comment");
                ("timestamp", Some (JStr (Date.toISOString (clock (reads w)))))] in
  fst (add_comment r w) = json_ok (JObj [("comment", newComment)]) ∧
  history (kv (snd (add_comment r w))) = history (kv w) ∧
  ∃ stored,
    kv (snd (add_comment r w)) !! ("defect:" +:+ param_id r) = Some stored ∧
    comments_of stored = (comments_of (JObj props) ++ [newComment])%list ∧
    ∀ k, k ≠ "comments" → Js.field stored k = Js.own k props.
Proof.
  intros Hv Hp Hd Hex Hseq newComment.
  destruct (add_comment_run r w user data (JObj props) Hv Hp Hd Hex)
    as (c & -> & ->); [done|].
  fold newComment. rewrite push_comment_object by done. cbn [fst snd kv].
  split; [done|]. split; [by rewrite history_insert_other|].
  eexists. split; [apply lookup_insert_eq|]. split.
  - unfold comments_of at 1. simpl. by rewrite own_set_eq.
  - intros k Hk. simpl. by rewrite own_set_ne.
Qed.

End Comments.

(** On the sample table: a second comment on [d1] comes after the
    first. *)
Lemma add_comment_appends_witness :
  ∃ stored first second,
    kv (snd (add_comment (H := Sample.platform)
               (Sample.request "tok-alice" "d1" (JObj [("comment", JStr "fixed")]))
               Sample.world)) !! "defect:d1" = Some stored ∧
    comments_of stored = [first; second] ∧
    comments_of Sample.defect1 = [first] ∧
    Js.field second "comment" = Some (JStr "fixed").
Proof.
  destruct (add_comment_appends (H := Sample.platform)
              (Sample.request "tok-alice" "d1" (JObj [("comment", JStr "fixed")]))
              Sample.world Sample.alice (JObj [("comment", JStr "fixed")])
              [("id", JStr "d1"); ("title", JStr "Crack"); ("priority", JStr "High");
               ("dueDate", JStr "2023-12-31T00:00:00.000Z");
               ("status", JStr "В работе"); ("createdBy", JStr "u-alice");
               ("createdAt", JStr "2023-12-31T00:00:00.000Z");
               ("updatedAt", JStr "2023-12-31T00:00:00.000Z");
               ("comments", JArr [JObj [("id", JStr "c1"); ("author", JStr "u-alice");
                                        ("comment", JStr "seen")]])])
    as (_ & _ & stored & Hstored & Hcomments & _).
  - exists "tok-alice". repeat split; done.
  - reflexivity.
  - discriminate.
  - vm_compute. reflexivity.
  - right. eexists. reflexivity.
  - eexists stored, _, _. split; [exact Hstored|].
    split; [exact Hcomments|]. split; reflexivity.
Defined.

(** ** The comment sequence across operations *)

Section AppendOnly.

Context `{Platform}.

Lemma token_cases r :
  (∀ k, authenticated r k = ret (json_error "Unauthorized" 401))
  ∨ ∃ user, valid_token r user.
Proof.
  unfold authenticated, verifyAuth, valid_token.
  destruct (accessToken r) as [token|] eqn:Htok; [|by left].
  destruct (String.eqb_spec token "") as [->|Hne]; [by left|].
  destruct (getUser token) as [user|] eqn:Huser; [|by left].
  right. exists user. by exists token.
Qed.

Lemma json_null_dec (v : json) : {v = JNull} + {v ≠ JNull}.
Proof. destruct v; (by left) || (by right). Qed.

(** What creating a defect does to the table. *)
Lemma create_defect_kv r w :
  kv (snd (create_defect r w)) = kv w
  ∨ ∃ defect entry,
      Js.field defect "comments" = Some (JArr []) ∧
      kv (snd (create_defect r w))
      = <["history:" +:+ uuid (draws w) +:+ ":" +:+ uuid (S (draws w)) := entry]>
          (<["defect:" +:+ uuid (draws w) := defect]> (kv w)).
Proof.
  destruct (token_cases r) as [Hno | [user Hv]].
  { left. unfold create_defect, guarded. by rewrite Hno. }
  destruct (payload r) as [data|] eqn:Hp; [destruct (json_null_dec data) as [->|Hd]|].
  - left. unfold create_defect, guarded. rewrite (authenticated_valid _ _ _ Hv).
    unfold req_json. by rewrite Hp.
  - right. destruct (create_defect_run r w user data Hv Hp Hd)
      as (defect & entry & Hdefect & _ & ->).
    exists defect, entry. split; [by rewrite Hdefect, field_literal | done].
  - left. unfold create_defect, guarded. rewrite (authenticated_valid _ _ _ Hv).
    unfold req_json. by rewrite Hp.
Qed.

(** What updating a defect does to the table: nothing, or the merged
    document replaces the existing one and at most a history entry is
    added. *)
Lemma update_defect_kv r w :
  kv (snd (update_defect r w)) = kv w
  ∨ ∃ updates existing stamp,
      payload r = Some updates ∧
      kv w !! ("defect:" +:+ param_id r) = Some existing ∧
      ∀ key, String.prefix "defect:" key = true →
             kv (snd (update_defect r w)) !! key
             = <["defect:" +:+ param_id r :=
                   JObj (Js.set "updatedAt" stamp
                           (spread updates (spread existing [])))]> (kv w) !! key.
Proof.
  destruct (token_cases r) as [Hno | [user Hv]].
  { left. unfold update_defect, guarded. by rewrite Hno. }
  destruct (payload r) as [updates|] eqn:Hp.
  2:{ left. unfold update_defect, guarded. rewrite (authenticated_valid _ _ _ Hv).
      unfold req_json. by rewrite Hp. }
  destruct (kv w !! ("defect:" +:+ param_id r)) as [existing|] eqn:Hex.
  2:{ left. unfold update_defect, guarded. rewrite (authenticated_valid _ _ _ Hv).
      unfold req_json. rewrite Hp. cbn [lift bind ret kv_get]. by rewrite Hex. }
  destruct (Js.truthy (Some existing)) eqn:Htr.
  2:{ left. unfold update_defect, guarded. rewrite (authenticated_valid _ _ _ Hv).
      unfold req_json. rewrite Hp. cbn [lift bind ret kv_get]. by rewrite Hex, Htr. }
  right. exists updates, existing, (JStr (Date.toISOString (clock (reads w)))).
  split; [done|]. split; [done|]. intros key Hkey.
  destruct (json_null_dec updates) as [->|Hd].
  - by rewrite (update_defect_null r w user existing Hv Hp Hex Htr).
  - destruct (update_defect_run r w user updates existing Hv Hp Hd Hex Htr)
      as (merged & entry & -> & _ & ->).
    cbn [snd kv]. rewrite lookup_insert_ne; [done|].
    intros <-. rewrite prefix_append in Hkey || simpl in Hkey. discriminate.
Qed.

(** What adding a comment does to the table. *)
Lemma add_comment_kv r w :
  kv (snd (add_comment r w)) = kv w
  ∨ ∃ defect newComment stored,
      kv w !! ("defect:" +:+ param_id r) = Some defect ∧
      push_comment defect newComment = Some stored ∧
      kv (snd (add_comment r w)) = <["defect:" +:+ param_id r := stored]> (kv w).
Proof.
  destruct (token_cases r) as [Hno | [user Hv]].
  { left. unfold add_comment, guarded. by rewrite Hno. }
  destruct (payload r) as [data|] eqn:Hp; [destruct (json_null_dec data) as [->|Hd]|].
  - left. unfold add_comment, guarded. rewrite (authenticated_valid _ _ _ Hv).
    unfold req_json. by rewrite Hp.
  - destruct (kv w !! ("defect:" +:+ param_id r)) as [defect|] eqn:Hex.
    2:{ left. unfold add_comment, guarded. rewrite (authenticated_valid _ _ _ Hv).
        unfold req_json, get. rewrite Hp. cbn [lift bind ret].
        rewrite prop_field by done. cbn [lift bind ret kv_get]. by rewrite Hex. }
    destruct (Js.truthy (Some defect)) eqn:Htr.
    2:{ left. unfold add_comment, guarded. rewrite (authenticated_valid _ _ _ Hv).
        unfold req_json, get. rewrite Hp. cbn [lift bind ret].
        rewrite prop_field by done. cbn [lift bind ret kv_get]. by rewrite Hex, Htr. }
    destruct (add_comment_run r w user data defect Hv Hp Hd Hex Htr)
      as (newComment & _ & ->).
    destruct (push_comment defect newComment) as [stored|] eqn:Hpush; [|by left].
    right. by exists defect, newComment, stored.
  - left. unfold add_comment, guarded. rewrite (authenticated_valid _ _ _ Hv).
    unfold req_json. by rewrite Hp.
Qed.

Lemma elem_of_keys_rev k (l : list (string * json)) :
  k ∈ map fst (rev l) ↔ k ∈ map fst l.
Proof. by rewrite map_rev, !list_elem_of_In, <- in_rev. Qed.

Lemma comments_of_merged updates old stamp :
  NoDup (map fst old) →
  "comments" ∉ map fst (own_entries updates) →
  comments_of (JObj (Js.set "updatedAt" stamp (spread updates (spread (JObj old) []))))
  = comments_of (JObj old).
Proof.
  intros Hdistinct Hnot. unfold comments_of. simpl.
  rewrite own_set_ne by done. unfold spread at 1. rewrite own_fold_set.
  assert (Js.own "comments" (rev (own_entries updates)) = None) as ->.
  { apply own_None. by rewrite elem_of_keys_rev. }
  rewrite own_spread_object by done. simpl. by destruct (Js.own "comments" old).
Qed.

Lemma comments_of_pushed defect newComment stored :
  push_comment defect newComment = Some stored →
  comments_of defect `prefix_of` comments_of stored.
Proof.
  destruct defect as [| | | |items|props]; try done.
  - intros [= <-]. done.
  - unfold push_comment, comments_of. simpl.
    destruct (Js.own "comments" props) as [v|] eqn:Hc; simpl.
    + destruct v as [|b|n|s| items |props']; simpl.
      * intros [= <-]. apply prefix_nil.
      * destruct b; [done|]. intros [= <-]. apply prefix_nil.
      * destruct (Z.eqb n 0); [|done]. intros [= <-]. apply prefix_nil.
      * destruct (String.eqb s ""); [|done]. intros [= <-]. apply prefix_nil.
      * intros [= <-]. simpl. rewrite own_set_eq. by apply prefix_app_r.
      * done.
    + intros [= <-]. apply prefix_nil.
Qed.

(** C4, as the code has it. The comments of every stored defect only
    grow when a defect is created under a fresh id, when a comment is
    added, and when an update's payload has no [comments] field: the
    sequence before is a prefix of the sequence after. *)
Theorem comments_only_grow op r w key doc :
  kv w !! key = Some doc →
  String.prefix "defect:" key = true →
  distinct_keys doc →
  (op = CreateDefect → kv w !! ("defect:" +:+ uuid (draws w)) = None) →
  (op = UpdateDefect →
   ∀ updates, payload r = Some updates → "comments" ∉ map fst (own_entries updates)) →
  ∃ doc',
    kv (snd (perform op r w)) !! key = Some doc' ∧
    comments_of doc `prefix_of` comments_of doc'.
Proof.
  intros Hdoc Hkey Hdistinct Hfresh Hpayload. destruct op; simpl.
  - destruct (create_defect_kv r w) as [-> | (defect & entry & _ & ->)];
      [by exists doc|].
    exists doc. split; [|done].
    rewrite !lookup_insert_ne; [done | |].
    + intros <-. specialize (Hfresh eq_refl). congruence.
    + intros <-. discriminate.
  - destruct (update_defect_kv r w)
      as [-> | (updates & existing & stamp & Hp & Hex & ->)]; [by exists doc | |done].
    destruct (decide ("defect:" +:+ param_id r = key)) as [<-|Hne].
    + rewrite lookup_insert_eq. eexists. split; [done|].
      assert (existing = doc) as -> by congruence.
      destruct doc as [| | | | |old]; try apply prefix_nil.
      by rewrite comments_of_merged by eauto.
    + rewrite lookup_insert_ne by done. by exists doc.
  - destruct (add_comment_kv r w)
      as [-> | (defect & newComment & stored & Hex & Hpush & ->)]; [by exists doc|].
    destruct (decide ("defect:" +:+ param_id r = key)) as [<-|Hne].
    + rewrite lookup_insert_eq. exists stored. split; [done|].
      assert (defect = doc) as -> by congruence.
      by eapply comments_of_pushed.
    + rewrite lookup_insert_ne by done. by exists doc.
Qed.

End AppendOnly.

(** On the sample table: changing the priority of [d1] keeps its
    comment. *)
Lemma comments_only_grow_witness :
  ∃ doc',
    kv (snd (update_defect (H := Sample.platform)
               (Sample.request "tok-alice" "d1" (JObj [("priority", JStr "Low")]))
               Sample.world)) !! "defect:d1" = Some doc' ∧
    comments_of Sample.defect1 `prefix_of` comments_of doc'.
Proof.
  apply (comments_only_grow (H := Sample.platform) UpdateDefect
           (Sample.request "tok-alice" "d1" (JObj [("priority", JStr "Low")]))
           Sample.world "defect:d1" Sample.defect1).
  - vm_compute. reflexivity.
  - reflexivity.
  - apply (bool_decide_unpack _). vm_compute. exact I.
  - discriminate.
  - intros _ updates [= <-]. apply (bool_decide_unpack _). vm_compute. exact I.
Defined.

(** C4, as stated, fails: an update whose payload carries a [comments]
    field replaces the sequence.  On the sample table the comment of [d1]
    is gone after an update with [comments: []]; the client's edit form
    sends the whole defect it fetched, comments included. *)
Lemma update_replaces_comments :
  ∃ before after,
    kv Sample.world !! "defect:d1" = Some before ∧
    kv (snd (perform (H := Sample.platform) UpdateDefect
               (Sample.request "tok-alice" "d1" (JObj [("comments", JArr [])]))
               Sample.world)) !! "defect:d1" = Some after ∧
    ¬ comments_of before `prefix_of` comments_of after.
Proof.
  vm_compute. eexists _, _. split; [reflexivity|]. split; [reflexivity|].
  intros [rest Hrest]. discriminate Hrest.
Qed.

(** ** What the defect routes accept *)

Section NoValidation.

Context `{Platform}.

Lemma literal_own_other k fields d :
  k ∉ map fst fields → literal_own k fields d = d.
Proof.
  revert d. induction fields as [|[k' ov] fields IH]; intros d; simpl; [done|].
  rewrite not_elem_of_cons. intros [Hne Hrest].
  rewrite IH by done. destruct (String.eqb_spec k' k); [congruence | done].
Qed.

(** C10, as the code has it. With a valid token, creating a defect
    from any JSON object succeeds and stores its [title],
    [description], [priority], [assignee], [projectId] and [dueDate] as
    supplied, whatever they are, with status [Новая] and nothing else
    from the payload: [id] is the token drawn, [createdBy] the caller,
    [createdAt] and [updatedAt] the times read, [comments] empty, and
    there is no other property.  Updating an existing defect with any
    JSON object succeeds and stores every supplied field other than
    [updatedAt] as supplied, [id], [createdAt], [createdBy], [status]
    and [comments] included, with [updatedAt] the time of the call.
    An update of an object payload is refused
    only with 401, when no identity is resolved, or with 404, when the
    defect is absent. *)
Theorem defect_fields_stored_verbatim :
  (∀ r w user props,
      valid_token r user → payload r = Some (JObj props) →
      status (fst (create_defect r w)) = 200 ∧
      ∃ defect,
        kv (snd (create_defect r w)) !! ("defect:" +:+ uuid (draws w)) = Some defect ∧
        Forall (fun k => Js.field defect k = Js.own k props)
               ["title"; "description"; "priority"; "assignee"; "projectId"; "dueDate"] ∧
        Js.field defect "status" = Some (JStr "Новая") ∧
        Js.field defect "id" = Some (JStr (uuid (draws w))) ∧
        Js.field defect "createdBy" = Some (JStr (uid user)) ∧
        Js.field defect "createdAt"
        = Some (JStr (Date.toISOString (clock (reads w)))) ∧
        Js.field defect "updatedAt"
        = Some (JStr (Date.toISOString (clock (S (reads w))))) ∧
        Js.field defect "comments" = Some (JArr []) ∧
        ∀ k, k ∉ ["id"; "title"; "description"; "priority"; "assignee"; "projectId";
                  "dueDate"; "status"; "createdBy"; "createdAt"; "updatedAt"; "comments"] →
             Js.field defect k = None)
  ∧
  (∀ r w user props existing,
      valid_token r user → payload r = Some (JObj props) → NoDup (map fst props) →
      kv w !! ("defect:" +:+ param_id r) = Some existing →
      Js.truthy (Some existing) = true →
      status (fst (update_defect r w)) = 200 ∧
      ∃ merged,
        kv (snd (update_defect r w)) !! ("defect:" +:+ param_id r) = Some (JObj merged) ∧
        Js.own "updatedAt" merged = Some (JStr (Date.toISOString (clock (reads w)))) ∧
        ∀ k v, k ≠ "updatedAt" → Js.own k props = Some v → Js.own k merged = Some v)
  ∧
  (∀ r w props,
      payload r = Some (JObj props) →
      ((¬ ∃ user, valid_token r user) → status (fst (update_defect r w)) = 401) ∧
      (∀ user, valid_token r user →
               Js.truthy (kv w !! ("defect:" +:+ param_id r)) = false →
               status (fst (update_defect r w)) = 404)).
Proof.
  split; [|split].
  - intros r w user props Hv Hp.
    destruct (create_defect_run r w user (JObj props) Hv Hp)
      as (defect & entry & Hdefect & _ & ->); [done|].
    split; [done|]. exists defect. cbn [snd kv].
    split; [by rewrite lookup_insert_ne, lookup_insert_eq|].
    rewrite Hdefect. split.
    { repeat (constructor;
              [rewrite field_literal; simpl; by destruct (Js.own _ props)|]).
      constructor. }
    do 6 (split; [by rewrite field_literal|]).
    intros k Hk. rewrite field_literal. by apply literal_own_other.
  - intros r w user props existing Hv Hp Hnd Hex Htr.
    destruct (update_defect_run r w user (JObj props) existing Hv Hp)
      as (merged & entry & -> & _ & ->); [done | done | done |].
    split; [done|]. eexists. cbn [snd kv].
    split; [by rewrite lookup_insert_ne, lookup_insert_eq|].
    split; [apply own_set_eq|].
    intros k v Hk Hv'. rewrite own_set_ne by done.
    by rewrite own_spread_object, Hv'.
  - intros r w props Hp. split.
    + intros Hno. destruct (token_cases r) as [Hnone | Hsome]; [|done].
      unfold update_defect, guarded. by rewrite Hnone.
    + intros user Hv Hfalsy.
      unfold update_defect, guarded. rewrite (authenticated_valid _ _ _ Hv).
      unfold req_json. rewrite Hp. cbn [lift bind ret kv_get]. by rewrite Hfalsy.
Qed.

End NoValidation.

(** On the sample table: a priority outside the enumeration is stored by
    create, and an update overwrites [createdBy]. *)
Lemma defect_fields_stored_verbatim_witness :
  (∃ defect,
      kv (snd (create_defect (H := Sample.platform)
                 (Sample.request "tok-alice" "" (JObj [("priority", JStr "Urgent!")]))
                 Sample.world)) !! "defect:id-0" = Some defect ∧
      Js.field defect "priority" = Some (JStr "Urgent!"))
  ∧
  (∃ merged,
      kv (snd (update_defect (H := Sample.platform)
                 (Sample.request "tok-alice" "d1" (JObj [("createdBy", JNum 7)]))
                 Sample.world)) !! "defect:d1" = Some (JObj merged) ∧
      Js.own "createdBy" merged = Some (JNum 7))
  ∧
  status (fst (update_defect (H := Sample.platform)
                 (Sample.request "tok-alice" "d2" (JObj [("createdBy", JNum 7)]))
                 Sample.world)) = 404.
Proof.
  destruct (defect_fields_stored_verbatim (H := Sample.platform))
    as (Hcreate & Hupdate & Hrefuse).
  split; [|split].
  - destruct (Hcreate (Sample.request "tok-alice" "" (JObj [("priority", JStr "Urgent!")]))
                Sample.world Sample.alice [("priority", JStr "Urgent!")])
      as (_ & defect & Hstored & Hfields & _).
    + exists "tok-alice". repeat split; done.
    + reflexivity.
    + exists defect. split; [exact Hstored|].
      inversion Hfields as [|? ? _ Hrest]. inversion Hrest as [|? ? _ Hrest'].
      inversion Hrest' as [|? ? Hpriority _]. exact Hpriority.
  - destruct (Hupdate (Sample.request "tok-alice" "d1" (JObj [("createdBy", JNum 7)]))
                Sample.world Sample.alice [("createdBy", JNum 7)] Sample.defect1)
      as (_ & merged & Hstored & _ & Hfields).
    + exists "tok-alice". repeat split; done.
    + reflexivity.
    + apply NoDup_singleton.
    + vm_compute. reflexivity.
    + reflexivity.
    + exists merged. split; [exact Hstored|].
      apply Hfields; [discriminate | reflexivity].
  - apply (proj2 (Hrefuse (Sample.request "tok-alice" "d2" (JObj [("createdBy", JNum 7)]))
                    Sample.world [("createdBy", JNum 7)] eq_refl) Sample.alice).
    + exists "tok-alice". repeat split; done.
    + vm_compute. reflexivity.
Defined.

(** C10, as stated, fails: not every supplied value is stored.  On the
    sample table a [status] sent to create is dropped for [Новая], and an
    [updatedAt] sent to update is dropped for the time of the call. *)
Lemma supplied_status_and_updatedAt_not_stored :
  (∃ defect,
      kv (snd (create_defect (H := Sample.platform)
                 (Sample.request "tok-alice" "" (JObj [("status", JStr "Закрыта")]))
                 Sample.world)) !! "defect:id-0" = Some defect ∧
      Js.field defect "status" ≠ Some (JStr "Закрыта"))
  ∧
  (∃ merged,
      kv (snd (update_defect (H := Sample.platform)
                 (Sample.request "tok-alice" "d1"
                    (JObj [("updatedAt", JStr "2024-06-01T00:00:00.000Z")]))
                 Sample.world)) !! "defect:d1" = Some merged ∧
      Js.field merged "updatedAt" ≠ Some (JStr "2024-06-01T00:00:00.000Z")).
Proof.
  split; vm_compute; eexists; (split; [reflexivity | discriminate]).
Qed.


(** ** Changing a user's role *)

Section Roles.

Context `{Platform}.

Lemma differs_from_true text v : v ≠ Some (JStr text) → differs_from text v = true.
Proof.
  destruct v as [[| | |s| |]|]; try done.
  intros Hne. simpl. destruct (String.eqb_spec s text); [congruence | done].
Qed.

Lemma includes_role_false role :
  (∀ s, s ∈ validRoles → role ≠ Some (JStr s)) → includes_role role = false.
Proof.
  intros Hnone. destruct role as [[| | |s| |]|]; try done. simpl.
  destruct (existsb (String.eqb s) validRoles) eqn:E; [|done].
  apply existsb_exists in E as (s' & Hin & Heq).
  apply String.eqb_eq in Heq as <-. apply list_elem_of_In in Hin.
  by destruct (Hnone s Hin).
Qed.

Lemma not_admin_forbidden profile :
  Js.prop profile "role" ≠ Some (Some (JStr "admin")) →
  negb (Js.truthy (Some profile))
  || differs_from "admin" (default None (Js.prop (default JNull (Some profile)) "role"))
  = true.
Proof.
  intros Hrole. destruct profile as [| | | | |props]; simpl;
    try reflexivity; try apply orb_true_r.
  apply differs_from_true. simpl in Hrole. congruence.
Qed.

(** C5. With a valid token, a caller whose stored user record is absent
    or has a role other than [admin] is answered 403, whatever the body
    is; an administrator asking for a role outside [observer],
    [engineer], [manager], [admin] is answered 400.  Neither changes the
    table or anything else. *)
Theorem role_update_guards :
  (∀ r w user,
      valid_token r user →
      (∀ profile, kv w !! ("user:" +:+ uid user) = Some profile →
                  Js.prop profile "role" ≠ Some (Some (JStr "admin"))) →
      update_role r w = (json_error "Forbidden: Admin access required" 403, w))
  ∧
  (∀ r w user profile data,
      valid_token r user →
      kv w !! ("user:" +:+ uid user) = Some profile →
      Js.prop profile "role" = Some (Some (JStr "admin")) →
      payload r = Some data → data ≠ JNull →
      (∀ s, s ∈ validRoles → Js.field data "role" ≠ Some (JStr s)) →
      update_role r w = (json_error "Invalid role" 400, w)).
Proof.
  split.
  - intros r w user Hv Hrole.
    unfold update_role, guarded. rewrite (authenticated_valid _ _ _ Hv).
    cbn [bind kv_get].
    destruct (kv w !! ("user:" +:+ uid user)) as [profile|] eqn:Hprofile;
      [|reflexivity].
    by rewrite (not_admin_forbidden profile (Hrole profile eq_refl)).
  - intros r w user profile data Hv Hprofile Hadmin Hp Hd Hrole.
    unfold update_role, guarded. rewrite (authenticated_valid _ _ _ Hv).
    cbn [bind kv_get]. rewrite Hprofile.
    assert (Js.truthy (Some profile) = true) as -> by (by destruct profile).
    change (default JNull (Some profile)) with profile. rewrite Hadmin.
    change (negb true || differs_from "admin" (default None (Some (Some (JStr "admin")))))
      with false. cbn iota.
    unfold req_json, get. rewrite Hp. cbn [lift bind ret].
    rewrite prop_field by done. cbn [lift bind ret].
    by rewrite includes_role_false.
Qed.

End Roles.

(** On the sample table: an observer is refused, and the administrator
    cannot grant a role that does not exist. *)
Lemma role_update_guards_witness :
  status (fst (update_role (H := Sample.platform)
                 (Sample.request "tok-alice" "u-root" (JObj [("role", JStr "admin")]))
                 Sample.world)) = 403
  ∧
  update_role (H := Sample.platform)
    (Sample.request "tok-root" "u-alice" (JObj [("role", JStr "owner")])) Sample.world
  = (json_error "Invalid role" 400, Sample.world).
Proof.
  destruct (role_update_guards (H := Sample.platform)) as [Hforbidden Hinvalid].
  split.
  - rewrite (Hforbidden
               (Sample.request "tok-alice" "u-root" (JObj [("role", JStr "admin")]))
               Sample.world Sample.alice); [reflexivity | |].
    + exists "tok-alice". repeat split; done.
    + intros profile Hprofile. vm_compute in Hprofile.
      injection Hprofile as <-. discriminate.
  - apply (Hinvalid
             (Sample.request "tok-root" "u-alice" (JObj [("role", JStr "owner")]))
             Sample.world Sample.root
             (JObj [("id", JStr "u-root"); ("role", JStr "admin")])
             (JObj [("role", JStr "owner")])).
    + exists "tok-root". repeat split; done.
    + vm_compute. reflexivity.
    + reflexivity.
    + reflexivity.
    + discriminate.
    + intros s Hs Heq. injection Heq as <-.
      revert Hs. apply (bool_decide_unpack _). vm_compute. exact I.
Defined.


(** ** Signing up *)

Section Signup.

Context `{Platform}.

(** Signing up with a body that is not [null]: the identity is asked for
    with role [observer], and on success the user record is written with
    the same role. *)
Lemma signup_run r w data :
  payload r = Some data → data ≠ JNull →
  let email := Js.field data "email" in
  let password := Js.field data "password" in
  let name := Js.field data "name" in
  let user_metadata := Js.literal [("name", name); ("role", Some (JStr "observer"))] in
  let w1 := with_call (CreateUser email password user_metadata) w in
  signup r w =
    match createUser (auth_log w) email password user_metadata with
    | CreateThrows => (json_error "Internal server error during signup" 500, w1)
    | CreateError message => (json_error message 400, w1)
    | CreateOk user =>
        (json_ok (JObj [("user", raw user)]),
         with_kv (insert ("user:" +:+ uid user)
                    (Js.literal [("id", Some (JStr (uid user))); ("email", email);
                                 ("name", name); ("role", Some (JStr "observer"));
                                 ("createdAt",
                                  Some (JStr (Date.toISOString (clock (reads w)))))]))
           (tick w1))
    end.
Proof.
  intros Hp Hd. unfold signup, guarded, req_json, get. rewrite Hp.
  cbn [lift bind ret]. rewrite !prop_field by done.
  cbn [lift bind ret admin_createUser].
  by destruct (createUser _ _ _ _).
Qed.

(** C6. Two signup requests whose bodies differ at most in [role] have
    the same outcome and leave the same world; the identity is created
    with role [observer] and the user record stored on success has role
    [observer]. *)
Theorem signup_ignores_role r1 r2 w props1 props2 :
  payload r1 = Some (JObj props1) → payload r2 = Some (JObj props2) →
  (∀ k, k ≠ "role" → Js.own k props1 = Js.own k props2) →
  signup r1 w = signup r2 w ∧
  ∃ email password user_metadata,
    auth_log (snd (signup r1 w))
    = (auth_log w ++ [CreateUser email password user_metadata])%list ∧
    Js.field user_metadata "role" = Some (JStr "observer") ∧
    ∀ user, createUser (auth_log w) email password user_metadata = CreateOk user →
            ∃ record,
              kv (snd (signup r1 w)) !! ("user:" +:+ uid user) = Some record ∧
              Js.field record "role" = Some (JStr "observer").
Proof.
  intros Hp1 Hp2 Hsame.
  rewrite (signup_run r1 w (JObj props1) Hp1), (signup_run r2 w (JObj props2) Hp2) by done.
  simpl Js.field. rewrite <- !Hsame by done.
  split; [done|].
  eexists _, _, _. split; [|split].
  - by destruct (createUser _ _ _ _).
  - by rewrite field_literal.
  - intros user ->. eexists. cbn [snd kv with_kv].
    split; [apply lookup_insert_eq | by rewrite field_literal].
Qed.

End Signup.

(** On the sample table: asking for [admin] at signup changes nothing. *)
Lemma signup_ignores_role_witness :
  signup (H := Sample.platform)
    (Sample.request "" "" (JObj [("email", JStr "a@b.c"); ("password", JStr "pw");
                                 ("name", JStr "Ann"); ("role", JStr "admin")]))
    Sample.world
  = signup (H := Sample.platform)
      (Sample.request "" "" (JObj [("email", JStr "a@b.c"); ("password", JStr "pw");
                                   ("name", JStr "Ann"); ("role", JStr "observer")]))
      Sample.world.
Proof.
  apply (signup_ignores_role (H := Sample.platform) _ _ Sample.world
           [("email", JStr "a@b.c"); ("password", JStr "pw");
            ("name", JStr "Ann"); ("role", JStr "admin")]
           [("email", JStr "a@b.c"); ("password", JStr "pw");
            ("name", JStr "Ann"); ("role", JStr "observer")]).
  - reflexivity.
  - reflexivity.
  - intros k Hk. simpl.
    destruct (String.eqb_spec k "email") as [->|_]; [reflexivity|].
    destruct (String.eqb_spec k "password") as [->|_]; [reflexivity|].
    destruct (String.eqb_spec k "name") as [->|_]; [reflexivity|].
    destruct (String.eqb_spec k "role") as [->|_]; [congruence | reflexivity].
Defined.


(** ** Analytics *)

Section Analytics.

Context `{Platform}.

Lemma plain_counts_set k v counts :
  plain_value v → plain_counts counts → plain_counts (Js.set k v counts).
Proof.
  intros Hv. unfold plain_counts. induction counts as [|[k' v'] counts IH]; simpl.
  - intros _. by constructor.
  - intros Hall. inversion Hall as [|? ? Hhd Htl]; subst.
    destruct (String.eqb k k'); constructor; auto.
Qed.

Lemma plain_counts_own k v counts :
  plain_counts counts → Js.own k counts = Some v → plain_value v.
Proof.
  unfold plain_counts. induction counts as [|[k' v'] counts IH]; simpl; [done|].
  intros Hall. inversion Hall as [|? ? Hhd Htl]; subst.
  destruct (String.eqb k k'); [by intros [= <-] | by apply IH].
Qed.

(** Counting never fails on a counter object. *)
Lemma bump_plain k counts :
  plain_counts counts →
  ∃ counts', bump k counts = Some counts' ∧ plain_counts counts'.
Proof.
  intros Hplain. unfold bump.
  destruct (Js.own k counts) as [v|] eqn:Hown.
  - pose proof (plain_counts_own _ _ _ Hplain Hown) as Hv.
    destruct v as [| |n|s| |]; try done; simpl.
    + eexists. split; [done|]. by apply plain_counts_set.
    + eexists. split; [done|]. apply plain_counts_set; [|done].
      by destruct (String.eqb s "").
  - destruct (existsb _ _); [|destruct (_ && _)]; eexists; (split; [done|]);
      try done; by apply plain_counts_set.
Qed.

(** The overdue test of one defect, at the clock's current reading. *)
Lemma is_overdue_run defect w :
  defect ≠ JNull → is_Some (new_Date (Js.field defect "dueDate")) →
  ∃ w', is_overdue defect w = (Ok (overdue_at (clock (reads w)) defect), w')
        ∧ kv w' = kv w ∧ (reads w ≤ reads w')%nat.
Proof.
  intros Hd [due Hdue]. unfold is_overdue, overdue_at, get.
  rewrite prop_field by done. cbn [lift bind ret].
  destruct (Js.truthy (Js.field defect "dueDate")); [|by exists w].
  rewrite Hdue. cbn [lift bind ret now andb].
  destruct due as [t|]; [destruct (t <? clock (reads w))|].
  - rewrite prop_field by done. cbn [lift bind ret]. exists (tick w).
    split; [done|]. split; [done|]. simpl. lia.
  - exists (tick w). split; [done|]. split; [done|]. simpl. lia.
  - exists (tick w). split; [done|]. split; [done|]. simpl. lia.
Qed.

(** One turn of the loop on a scannable defect. *)
Lemma tally_defect_run acc defect w :
  scannable defect →
  plain_counts (statusCount acc) → plain_counts (priorityCount acc) →
  ∃ statusKey priorityKey statuses priorities w',
    Js.to_key (Js.field defect "status") = Some statusKey ∧
    Js.to_key (Js.field defect "priority") = Some priorityKey ∧
    bump statusKey (statusCount acc) = Some statuses ∧
    bump priorityKey (priorityCount acc) = Some priorities ∧
    plain_counts statuses ∧ plain_counts priorities ∧
    kv w' = kv w ∧ (reads w ≤ reads w')%nat ∧
    tally_defect acc defect w
    = (Ok {| statusCount := statuses; priorityCount := priorities;
             totalDefects := totalDefects acc + 1;
             overdue := if overdue_at (clock (reads w)) defect
                        then overdue acc + 1 else overdue acc |}, w').
Proof.
  intros (Hd & [statusKey Hs] & [priorityKey Hp] & Hdue) Hsc Hpc.
  destruct (bump_plain statusKey _ Hsc) as (statuses & Hbs & Hsc').
  destruct (bump_plain priorityKey _ Hpc) as (priorities & Hbp & Hpc').
  destruct (is_overdue_run defect w Hd Hdue) as (w' & Hrun & Hkv & Hreads).
  exists statusKey, priorityKey, statuses, priorities, w'.
  repeat (split; [done|]).
  unfold tally_defect, get.
  repeat (cbn [lift bind ret]; rewrite ?prop_field, ?Hs, ?Hbs, ?Hp, ?Hbp by done).
  unfold bind at 1. by rewrite Hrun.
Qed.

(** The whole loop, while the clock stands at [now]. *)
Lemma tally_run now defects :
  ∀ acc w,
    Forall scannable defects →
    plain_counts (statusCount acc) → plain_counts (priorityCount acc) →
    (∀ i, (reads w ≤ i)%nat → clock i = now) →
    ∃ acc' w',
      tally defects acc w = (Ok acc', w') ∧
      kv w' = kv w ∧
      totalDefects acc' = totalDefects acc + Z.of_nat (length defects) ∧
      overdue acc'
      = overdue acc
        + Z.of_nat (length (filter (fun d => overdue_at now d = true) defects)).
Proof.
  induction defects as [|defect defects IH]; intros acc w Hscan Hsc Hpc Hclock.
  - exists acc, w. repeat split; try reflexivity; simpl; lia.
  - inversion Hscan as [|? ? Hdefect Hrest]; subst.
    destruct (tally_defect_run acc defect w Hdefect Hsc Hpc)
      as (sk & pk & statuses & priorities & w1 & _ & _ & _ & _ & Hsc1 & Hpc1
          & Hkv1 & Hreads1 & Hstep).
    set (acc1 := Build_Tally _ _ _ _) in Hstep.
    destruct (IH acc1 w1 Hrest Hsc1 Hpc1) as (acc' & w' & Hrun & Hkv & Htotal & Hover).
    { intros i Hi. apply Hclock. lia. }
    exists acc', w'. cbn [tally]. unfold bind at 1. rewrite Hstep, Hrun.
    split; [done|]. split; [congruence|].
    rewrite Htotal, Hover. subst acc1. cbn [totalDefects overdue length].
    rewrite (Hclock (reads w)) by lia. rewrite filter_cons.
    destruct (decide (overdue_at now defect = true)) as [Hlate|Hlate].
    + rewrite Hlate. cbn [length]. split; lia.
    + apply not_true_is_false in Hlate. rewrite Hlate. split; lia.
Qed.

(** What [overdue_at] says, condition by condition. *)
Lemma overdue_at_spec now defect :
  overdue_at now defect = true
  ↔ Js.truthy (Js.field defect "dueDate") = true
    ∧ (∃ due, new_Date (Js.field defect "dueDate") = Some (Some due) ∧ due < now)
    ∧ Js.field defect "status" ≠ Some (JStr "Закрыта").
Proof.
  unfold overdue_at. rewrite !andb_true_iff.
  assert (differs_from "Закрыта" (Js.field defect "status") = true
          ↔ Js.field defect "status" ≠ Some (JStr "Закрыта")) as ->.
  { split; [|apply differs_from_true].
    intros Hdiff Heq. rewrite Heq in Hdiff. discriminate. }
  destruct (new_Date (Js.field defect "dueDate")) as [[due|]|].
  - rewrite Z.ltb_lt. split.
    + intros [[? ?] ?]. eauto.
    + intros (? & (due' & [= <-] & ?) & ?). done.
  - split; [intros [[_ [=]] _] | intros (_ & (? & [=] & _) & _)].
  - split; [intros [[_ [=]] _] | intros (_ & (? & [=] & _) & _)].
Qed.

(** On a document that holds a defect of the data model the handler's
    test is the spec's rule. *)
Lemma overdue_at_read now doc D :
  read_defect doc = Some D → overdue_at now doc = Spec.overdue now D.
Proof.
  destruct doc as [| | | | |props]; try done. unfold read_defect, overdue_at.
  cbn [Js.field].
  destruct (Js.own "status" props) as [[| | |status| |]|]; try done.
  destruct (Js.own "dueDate" props) as [[| | |s| |]|]; try done; cbn [read_due].
  - intros [= <-]. reflexivity.
  - destruct (String.eqb s "") eqn:Hs; [intros [= <-]; simpl; by rewrite Hs|].
    destruct (parseDate s) as [t|] eqn:Hparse; [|done].
    intros [= <-]. unfold Spec.overdue. simpl. by rewrite Hs, Hparse.
  - intros [= <-]. reflexivity.
Qed.

Lemma overdue_read_defects now docs :
  all_read docs →
  length (filter (fun doc => overdue_at now doc = true) docs)
  = length (filter (fun D => Spec.overdue now D = true) (read_defects docs)).
Proof.
  unfold all_read, read_defects. induction 1 as [|doc docs [D HD] _ IH]; [done|].
  cbn [omap list_omap]. rewrite HD, !filter_cons, (overdue_at_read now doc D HD).
  destruct (decide (Spec.overdue now D = true)); cbn [length]; by rewrite IH.
Qed.

(** With the clock standing at [now] the route reports as overdue the
    stored defects that pass its test at [now]. *)
Lemma analytics_overdue r w user now :
  valid_token r user →
  (∀ i, (reads w ≤ i)%nat → clock i = now) →
  Forall scannable (stored_defects w) →
  ∃ answer,
    fst (analytics r w) = json_ok (JObj answer) ∧
    Js.own "overdue" answer
    = Some (JNum (Z.of_nat (length (filter (fun d => overdue_at now d = true)
                                           (stored_defects w))))).
Proof.
  intros Hv Hclock Hscan.
  destruct (tally_run now (stored_defects w)
              {| statusCount := []; priorityCount := []; totalDefects := 0; overdue := 0 |}
              w Hscan) as (acc' & w' & Hrun & _ & _ & Hover); [constructor .. | done |].
  unfold analytics, guarded. rewrite (authenticated_valid _ _ _ Hv).
  unfold bind at 1. cbn [kv_getByPrefix]. fold (stored_defects w).
  unfold bind at 1. rewrite Hrun. cbn [ret fst].
  eexists. split; [reflexivity|]. simpl. by rewrite Hover.
Qed.


End Analytics.

Lemma mixed_stored :
  stored_defects Scans.mixed
  = [Scans.due_later; Scans.elsewhere; Scans.late_open; Scans.late_closed; Scans.undated].
Proof. vm_compute. reflexivity. Qed.

Lemma mixed_scannable : Forall (scannable (H := Sample.platform)) (stored_defects Scans.mixed).
Proof.
  rewrite mixed_stored.
  repeat (apply Forall_cons_2;
          [split; [discriminate|]; split; [|split]; eexists; vm_compute; reflexivity|]).
  apply Forall_nil_2.
Qed.

Lemma mixed_read : all_read (H := Sample.platform) (stored_defects Scans.mixed).
Proof.
  rewrite mixed_stored.
  repeat (apply Forall_cons_2; [eexists; vm_compute; reflexivity|]).
  apply Forall_nil_2.
Qed.




(** ** The group counts *)

Section GroupCounts.

Context `{Platform}.

Lemma sum_counts_plain counts total :
  sum_counts counts = Some total → plain_counts counts.
Proof.
  revert total. induction counts as [|[k v] counts IH]; intros total; simpl.
  - intros _. constructor.
  - destruct v; try done. destruct (sum_counts counts) eqn:E; [|done].
    intros _. constructor; [done | by eapply IH].
Qed.

Lemma sum_counts_own k counts total :
  sum_counts counts = Some total →
  Js.own k counts = None ∨ ∃ n, Js.own k counts = Some (JNum n).
Proof.
  revert total. induction counts as [|[k' v] counts IH]; intros total; simpl.
  - by left.
  - destruct v; try done. destruct (sum_counts counts) eqn:E; [|done].
    intros _. destruct (String.eqb k k'); [right; eauto | by eapply IH].
Qed.

Lemma sum_counts_set_new k counts total :
  sum_counts counts = Some total → Js.own k counts = None →
  sum_counts (Js.set k (JNum 1) counts) = Some (total + 1).
Proof.
  revert total. induction counts as [|[k' v] counts IH]; intros total; simpl.
  - intros [= <-] _. done.
  - destruct v; try done. destruct (sum_counts counts) as [rest|] eqn:E; [|done].
    intros [= <-]. destruct (String.eqb k k'); [done|]. intros Hown. simpl.
    rewrite (IH rest) by done. f_equal. lia.
Qed.

Lemma sum_counts_set_next k n counts total :
  sum_counts counts = Some total → Js.own k counts = Some (JNum n) →
  sum_counts (Js.set k (JNum (n + 1)) counts) = Some (total + 1).
Proof.
  revert total. induction counts as [|[k' v] counts IH]; intros total; simpl.
  - done.
  - destruct v; try done. destruct (sum_counts counts) as [rest|] eqn:E; [|done].
    intros [= <-]. destruct (String.eqb k k').
    + intros [= <-]. simpl. rewrite E. f_equal. lia.
    + intros Hown. simpl. rewrite (IH rest) by done. f_equal. lia.
Qed.

(** Counting under an ordinary name adds one to the sum. *)
Lemma bump_ordinary k counts total :
  ordinary_key k → sum_counts counts = Some total →
  ∃ counts', bump k counts = Some counts' ∧ sum_counts counts' = Some (total + 1).
Proof.
  intros [Hmethod Hproto] Hsum. unfold bump.
  destruct (sum_counts_own k counts total Hsum) as [Hown | [n Hown]]; rewrite Hown.
  - rewrite Hmethod, Hproto. eexists. split; [done|]. by apply sum_counts_set_new.
  - simpl. eexists. split; [done|]. by apply sum_counts_set_next.
Qed.

(** Supporting C7: when every defect is counted under ordinary group
    names, the status counts and the priority counts each sum to the
    number of defects scanned. *)
Lemma tally_sums defects :
  ∀ acc w,
    Forall scannable defects → Forall ordinary_groups defects →
    sum_counts (statusCount acc) = Some (totalDefects acc) →
    sum_counts (priorityCount acc) = Some (totalDefects acc) →
    ∃ acc' w',
      tally defects acc w = (Ok acc', w') ∧
      totalDefects acc' = totalDefects acc + Z.of_nat (length defects) ∧
      sum_counts (statusCount acc') = Some (totalDefects acc') ∧
      sum_counts (priorityCount acc') = Some (totalDefects acc').
Proof.
  induction defects as [|defect defects IH]; intros acc w Hscan Hord Hs Hp.
  - exists acc, w. repeat split; try done. simpl. lia.
  - inversion Hscan as [|? ? Hdefect Hrest]; subst.
    inversion Hord as [|? ? Hgroups Hord']; subst.
    destruct (tally_defect_run acc defect w Hdefect)
      as (sk & pk & statuses & priorities & w1 & Hsk & Hpk & Hbs & Hbp & _ & _
          & _ & _ & Hstep); [by eapply sum_counts_plain ..|].
    destruct (bump_ordinary sk _ _ (Hgroups sk (or_introl Hsk)) Hs)
      as (statuses' & Hbs' & Hsum_s).
    destruct (bump_ordinary pk _ _ (Hgroups pk (or_intror Hpk)) Hp)
      as (priorities' & Hbp' & Hsum_p).
    assert (statuses' = statuses) as -> by congruence.
    assert (priorities' = priorities) as -> by congruence.
    set (acc1 := Build_Tally _ _ _ _) in Hstep.
    destruct (IH acc1 w1 Hrest Hord' Hsum_s Hsum_p)
      as (acc' & w' & Hrun & Htotal & Hs' & Hp').
    exists acc', w'. cbn [tally]. unfold bind at 1. rewrite Hstep, Hrun.
    split; [done|]. split; [|done].
    rewrite Htotal. subst acc1. cbn [totalDefects length]. lia.
Qed.

(** When every stored defect is counted under ordinary group names, the
    status counts and the priority counts the route reports each sum to
    [totalDefects]. *)
Lemma analytics_counts_sum r w user :
  valid_token r user →
  Forall scannable (stored_defects w) → Forall ordinary_groups (stored_defects w) →
  ∃ total statuses priorities late,
    fst (analytics r w)
    = json_ok (JObj [("totalDefects", JNum total); ("overdue", JNum late);
                     ("statusCount", JObj statuses);
                     ("priorityCount", JObj priorities)]) ∧
    total = Z.of_nat (length (stored_defects w)) ∧
    sum_counts statuses = Some total ∧
    sum_counts priorities = Some total.
Proof.
  intros Hv Hscan Hord.
  destruct (tally_sums (stored_defects w)
              {| statusCount := []; priorityCount := []; totalDefects := 0; overdue := 0 |}
              w Hscan Hord) as (acc' & w' & Hrun & Htotal & Hs & Hp); [done | done |].
  unfold analytics, guarded. rewrite (authenticated_valid _ _ _ Hv).
  unfold bind at 1. cbn [kv_getByPrefix]. fold (stored_defects w).
  unfold bind at 1. rewrite Hrun. cbn [ret fst].
  eexists _, _, _, _. split; [reflexivity|]. split; [|done].
  rewrite Htotal. simpl. lia.
Qed.

End GroupCounts.

(** C7 fails on the code. A status is stored as sent, and a status that
    names a method every object inherits is not counted from zero: on the
    sample table, once [d1] has been given the status [constructor]
    through the update route, the analytics route reports one defect and
    a status count whose only value is the text of the inherited function
    followed by [1], not the number 1. *)
Theorem status_named_constructor_breaks_counts :
  let w1 := snd (update_defect (H := Sample.platform)
                   (Sample.request "tok-alice" "d1" (JObj [("status", JStr "constructor")]))
                   Sample.world) in
  ∃ statuses,
    fst (analytics (H := Sample.platform) (Sample.request "tok-alice" "" JNull) w1)
    = json_ok (JObj [("totalDefects", JNum 1); ("overdue", JNum 1);
                     ("statusCount", JObj statuses);
                     ("priorityCount", JObj [("High", JNum 1)])]) ∧
    statuses = [("constructor", JStr "function Object() { [native code] }1")] ∧
    sum_counts statuses ≠ Some 1.
Proof.
  vm_compute. eexists. split; [reflexivity|]. split; [reflexivity | discriminate].
Qed.



(** ** The calendar *)

Module DateFacts.

Import Date.

Lemma year_day_bounds doe :
  0 <= doe < 146097 → 0 <= year_of_era doe <= 399 ∧ 0 <= day_of_year doe <= 365.
Proof.
  intros Hdoe. unfold day_of_year, year_of_era.
  Z.to_euclidean_division_equations. lia.
Qed.

Lemma year_of_era_mono doe :
  0 <= doe < 146096 → year_of_era doe <= year_of_era (doe + 1).
Proof.
  intros Hdoe. unfold year_of_era. Z.to_euclidean_division_equations. lia.
Qed.

Lemma month_day_bounds doy :
  0 <= doy <= 365 → 0 <= month_index doy <= 11 ∧ 1 <= day_of_month doy <= 31.
Proof.
  intros Hdoy. unfold day_of_month, month_index.
  Z.to_euclidean_division_equations. lia.
Qed.

Lemma month_day_succ doy :
  0 <= doy < 365 →
  (month_index (doy + 1) = month_index doy
   ∧ day_of_month (doy + 1) = day_of_month doy + 1)
  ∨ (month_index (doy + 1) = month_index doy + 1 ∧ day_of_month (doy + 1) = 1).
Proof.
  intros Hdoy. unfold day_of_month, month_index.
  Z.to_euclidean_division_equations. lia.
Qed.

(** From a day to the next, within an era or into the next one. *)
Lemma era_succ z :
  (day_of_era z < 146096 ∧ day_of_era (z + 1) = day_of_era z + 1
   ∧ era_of (z + 1) = era_of z)
  ∨ (day_of_era z = 146096 ∧ day_of_era (z + 1) = 0 ∧ era_of (z + 1) = era_of z + 1).
Proof.
  unfold day_of_era, era_of. Z.to_euclidean_division_equations. lia.
Qed.

Lemma day_of_era_bounds z : 0 <= day_of_era z < 146097.
Proof. unfold day_of_era. apply Z.mod_pos_bound. lia. Qed.

Lemma civil_month_day z :
  let '(y, m, d) := civil z in 1 <= m <= 12 ∧ 1 <= d <= 31.
Proof.
  unfold civil. cbv zeta.
  pose proof (year_day_bounds _ (day_of_era_bounds z)) as [_ Hdoy].
  pose proof (month_day_bounds _ Hdoy) as [Hmp Hd].
  destruct (Z.ltb_spec (month_index (day_of_year (day_of_era z))) 10); lia.
Qed.

(** The date grows from each day to the next. *)
Lemma civil_num_succ z : civil_num z < civil_num (z + 1).
Proof.
  unfold civil_num, civil. cbv zeta.
  pose proof (day_of_era_bounds z) as Hdoe.
  pose proof (year_day_bounds _ Hdoe) as [Hyoe Hdoy].
  pose proof (month_day_bounds _ Hdoy) as [Hmp Hd].
  destruct (era_succ z) as [(Hlt & -> & ->) | (Hlast & -> & ->)].
  - pose proof (year_day_bounds (day_of_era z + 1) ltac:(lia)) as [Hyoe' Hdoy'].
    pose proof (month_day_bounds _ Hdoy') as [Hmp' Hd'].
    pose proof (year_of_era_mono (day_of_era z) ltac:(lia)) as Hmono.
    destruct (decide (year_of_era (day_of_era z + 1) = year_of_era (day_of_era z)))
      as [Hsame|Hnext].
    + assert (day_of_year (day_of_era z + 1) = day_of_year (day_of_era z) + 1) as Hstep.
      { unfold day_of_year. cbv zeta. rewrite Hsame. lia. }
      rewrite Hstep in *. rewrite Hsame.
      destruct (month_day_succ (day_of_year (day_of_era z)) ltac:(lia))
        as [[Hmonth Hday] | [Hmonth Hday]];
        repeat match goal with
               | |- context [?a <? ?b] => destruct (Z.ltb_spec a b)
               | |- context [?a <=? ?b] => destruct (Z.leb_spec a b)
               end; lia.
    + repeat match goal with
             | |- context [?a <? ?b] => destruct (Z.ltb_spec a b)
             | |- context [?a <=? ?b] => destruct (Z.leb_spec a b)
             end; lia.
  - rewrite Hlast. vm_compute (year_of_era 146096). vm_compute (year_of_era 0).
    vm_compute (day_of_year 146096). vm_compute (day_of_year 0).
    vm_compute (month_index 365). vm_compute (month_index 0).
    vm_compute (day_of_month 365). vm_compute (day_of_month 0).
    change (11 <? 10) with false. change (0 <? 10) with true. cbv iota.
    change (11 - 9 <=? 2) with true. change (0 + 3 <=? 2) with false. lia.
Qed.

Lemma civil_num_mono z1 z2 : z1 < z2 → civil_num z1 < civil_num z2.
Proof.
  intros Hlt. replace z2 with (z1 + 1 + Z.of_nat (Z.to_nat (z2 - z1 - 1))) by lia.
  induction (Z.to_nat (z2 - z1 - 1)) as [|n IH].
  - rewrite Z.add_0_r. apply civil_num_succ.
  - etrans; [exact IH|].
    replace (z1 + 1 + Z.of_nat (S n)) with (z1 + 1 + Z.of_nat n + 1) by lia.
    apply civil_num_succ.
Qed.

Lemma civil_compare z1 z2 : (civil_num z1 ?= civil_num z2) = (z1 ?= z2).
Proof.
  destruct (Z.compare_spec z1 z2) as [->|Hlt|Hgt].
  - apply Z.compare_refl.
  - apply Z.compare_lt_iff. by apply civil_num_mono.
  - apply Z.compare_gt_iff. by apply civil_num_mono.
Qed.

(** Between 0000-01-01 and 9999-12-31 the year has four digits. *)
Lemma civil_four_digits z :
  first_day <= z <= last_day →
  let '(y, m, d) := civil z in 0 <= y <= 9999 ∧ 1 <= m <= 12 ∧ 1 <= d <= 31.
Proof.
  intros [Hlo Hhi]. pose proof (civil_month_day z) as Hmd.
  assert (civil_num first_day <= civil_num z) as Hfirst.
  { destruct (decide (z = first_day)) as [->|?]; [done|].
    apply Z.lt_le_incl, civil_num_mono. lia. }
  assert (civil_num z <= civil_num last_day) as Hlast.
  { destruct (decide (z = last_day)) as [->|?]; [done|].
    apply Z.lt_le_incl, civil_num_mono. lia. }
  vm_compute (civil_num first_day) in Hfirst. vm_compute (civil_num last_day) in Hlast.
  unfold civil_num in Hfirst, Hlast. destruct (civil z) as [[y m] d]. lia.
Qed.

Lemma digit_compare a b :
  0 <= a <= 9 → 0 <= b <= 9 → Ascii.compare (digit a) (digit b) = (a ?= b).
Proof.
  intros Ha Hb.
  assert (a = 0 ∨ a = 1 ∨ a = 2 ∨ a = 3 ∨ a = 4 ∨ a = 5 ∨ a = 6 ∨ a = 7 ∨ a = 8 ∨ a = 9)
    as Hdigit_a by lia.
  assert (b = 0 ∨ b = 1 ∨ b = 2 ∨ b = 3 ∨ b = 4 ∨ b = 5 ∨ b = 6 ∨ b = 7 ∨ b = 8 ∨ b = 9)
    as Hdigit_b by lia.
  clear Ha Hb.
  repeat (destruct Hdigit_a as [->|Hdigit_a]); try subst a;
    repeat (destruct Hdigit_b as [->|Hdigit_b]); try subst b; reflexivity.
Qed.

Lemma append_cons c (s t : string) : String c s +:+ t = String c (s +:+ t).
Proof. reflexivity. Qed.

Lemma append_empty (t : string) : "" +:+ t = t.
Proof. reflexivity. Qed.

Lemma append_empty_r (s : string) : s +:+ "" = s.
Proof. induction s as [|c s IH]; [done|]. by rewrite append_cons, IH. Qed.

Lemma append_assoc (s1 s2 s3 : string) : (s1 +:+ s2) +:+ s3 = s1 +:+ (s2 +:+ s3).
Proof.
  induction s1 as [|c s1 IH]; [done|]. by rewrite !append_cons, IH.
Qed.

(** Numbers written with the same number of digits compare as their
    digit strings do, whatever follows them. *)
Lemma digits_compare w :
  ∀ a b s t,
    0 <= a < 10 ^ Z.of_nat w → 0 <= b < 10 ^ Z.of_nat w →
    String.compare (digits w a +:+ s) (digits w b +:+ t)
    = match a ?= b with Eq => String.compare s t | c => c end.
Proof.
  induction w as [|w IH]; intros a b s t Ha Hb.
  - simpl in *. replace a with 0 by lia. replace b with 0 by lia. done.
  - rewrite Nat2Z.inj_succ, Z.pow_succ_r in Ha, Hb by lia.
    cbn [digits]. rewrite !append_assoc, !append_cons, !append_empty.
    pose proof (Z.div_mod a 10 ltac:(lia)) as Hda.
    pose proof (Z.div_mod b 10 ltac:(lia)) as Hdb.
    pose proof (Z.mod_pos_bound a 10 ltac:(lia)) as Hma.
    pose proof (Z.mod_pos_bound b 10 ltac:(lia)) as Hmb.
    rewrite IH by (split; [apply Z.div_pos; lia | apply Z.div_lt_upper_bound; lia]).
    cbn [String.compare]. rewrite digit_compare by lia.
    destruct (Z.compare_spec (a / 10) (b / 10)) as [Heq|Hlt|Hgt].
    + destruct (Z.compare_spec (a mod 10) (b mod 10)) as [Heq'|Hlt'|Hgt'].
      * replace b with a by lia. by rewrite Z.compare_refl.
      * by rewrite (proj2 (Z.compare_lt_iff a b)) by lia.
      * by rewrite (proj2 (Z.compare_gt_iff a b)) by lia.
    + by rewrite (proj2 (Z.compare_lt_iff a b)) by lia.
    + by rewrite (proj2 (Z.compare_gt_iff a b)) by lia.
Qed.

(** Dates with four-digit years, as written, compare as their days. *)
Lemma date_string_compare z1 z2 :
  first_day <= z1 <= last_day → first_day <= z2 <= last_day →
  String.compare (date_string z1) (date_string z2) = (z1 ?= z2).
Proof.
  intros H1 H2. rewrite <- civil_compare. unfold date_string, civil_num.
  pose proof (civil_four_digits z1 H1) as Hc1.
  pose proof (civil_four_digits z2 H2) as Hc2.
  destruct (civil z1) as [[y1 m1] d1], (civil z2) as [[y2 m2] d2].
  unfold year_string.
  rewrite !(proj2 (andb_true_iff _ _)) by (split; apply Z.leb_le; lia).
  rewrite (digits_compare 4) by (simpl; lia).
  rewrite !append_cons, !append_empty. cbn [String.compare].
  rewrite (digits_compare 2) by (simpl; lia). cbn [String.compare].
  rewrite <- (append_empty_r (digits 2 d1)), <- (append_empty_r (digits 2 d2)).
  rewrite (digits_compare 2) by (simpl; lia). cbn [String.compare].
  destruct (Z.compare_spec y1 y2) as [->|?|?];
    [destruct (Z.compare_spec m1 m2) as [->|?|?];
       [destruct (Z.compare_spec d1 d2) as [->|?|?]|..]|..];
    symmetry;
    first [apply Z.compare_refl | apply Z.compare_lt_iff; lia | apply Z.compare_gt_iff; lia].
Qed.

Lemma date_string_inj z1 z2 :
  first_day <= z1 <= last_day → first_day <= z2 <= last_day →
  date_string z1 = date_string z2 → z1 = z2.
Proof.
  intros H1 H2 Heq. apply Z.compare_eq. rewrite <- date_string_compare by done.
  rewrite Heq. clear. induction (date_string z2) as [|c s IH]; simpl; [done|].
  unfold Ascii.compare. by rewrite N.compare_refl.
Qed.

End DateFacts.


(** ** The timeline *)

Section Timeline.

Context `{Platform}.

Import Date.

(** A digit is none of the characters beyond ['9']. *)
Lemma digit_eqb k c :
  (57 <? N_of_ascii c)%N = true → Ascii.eqb (digit (k mod 10)) c = false.
Proof.
  intros Hc. apply Ascii.eqb_neq. intros <-.
  pose proof (Z.mod_pos_bound k 10 ltac:(lia)) as Hk.
  assert (k mod 10 = 0 ∨ k mod 10 = 1 ∨ k mod 10 = 2 ∨ k mod 10 = 3 ∨ k mod 10 = 4
          ∨ k mod 10 = 5 ∨ k mod 10 = 6 ∨ k mod 10 = 7 ∨ k mod 10 = 8 ∨ k mod 10 = 9)
    as Hdigit by lia.
  repeat (destruct Hdigit as [Hdigit|Hdigit]); rewrite Hdigit in Hc; discriminate Hc.
Qed.

(** The ten characters of a date with a four-digit year. *)
Lemma date_string_shape z :
  four_digit_day z →
  ∃ y m d,
    date_string z
    = String (digit (y / 10 / 10 / 10 mod 10)) (String (digit (y / 10 / 10 mod 10))
        (String (digit (y / 10 mod 10)) (String (digit (y mod 10))
           (String "-" (String (digit (m / 10 mod 10)) (String (digit (m mod 10))
              (String "-" (String (digit (d / 10 mod 10))
                 (String (digit (d mod 10)) ""))))))))).
Proof.
  intros Hz. pose proof (DateFacts.civil_four_digits z Hz) as Hc.
  unfold date_string. destruct (civil z) as [[y m] d]. exists y, m, d.
  unfold year_string.
  rewrite (proj2 (andb_true_iff _ _)) by (split; apply Z.leb_le; lia).
  cbn [digits].
  by rewrite !DateFacts.append_assoc, !DateFacts.append_cons, !DateFacts.append_empty.
Qed.

(** [split('T')[0]] of the ISO string is the date. *)
Lemma iso_date_split t :
  four_digit_day (day t) →
  hd "undefined" (split_on "T" (toISOString t)) = iso_date t.
Proof.
  intros Hz. unfold toISOString, iso_date.
  destruct (date_string_shape _ Hz) as (y & m & d & ->).
  rewrite !DateFacts.append_cons, !DateFacts.append_empty.
  cbn [split_on]. rewrite !digit_eqb by reflexivity.
  change (Ascii.eqb "-" "T") with false. change (Ascii.eqb "T" "T") with true.
  cbv iota.
  repeat match goal with
         | |- context [split_on "T" ?s] => destruct (split_on "T" s); cbn [hd]
         end; reflexivity.
Qed.

Lemma day_key_created defect t :
  created_time defect = Some t → four_digit_day (day t) →
  day_key defect = Some (date_string (day t)).
Proof.
  unfold created_time, day_key. intros Hcreated Hz.
  destruct (Js.prop defect "createdAt") as [createdAt|]; [|done].
  destruct (new_Date createdAt) as [[t'|]|]; try done.
  injection Hcreated as ->. by rewrite iso_date_split.
Qed.

(** A date is an ordinary group name. *)
Lemma date_string_ordinary z : four_digit_day z → ordinary_key (date_string z).
Proof.
  intros Hz. destruct (date_string_shape _ Hz) as (y & m & d & ->).
  split; cbn [existsb inherited_methods String.eqb];
    by rewrite !digit_eqb by reflexivity.
Qed.

Lemma date_string_eqb z1 z2 :
  four_digit_day z1 → four_digit_day z2 →
  String.eqb (date_string z1) (date_string z2) = Z.eqb z1 z2.
Proof.
  intros H1 H2. destruct (Z.eqb_spec z1 z2) as [->|Hne].
  - apply String.eqb_refl.
  - apply String.eqb_neq. intros Heq. by apply Hne, DateFacts.date_string_inj.
Qed.

Lemma own_bucket_entries z counts :
  four_digit_day z → Forall four_digit_day (map fst counts) →
  Js.own (date_string z) (map bucket_entry counts) = JNum <$> lookup_day z counts.
Proof.
  intros Hz. induction counts as [|[z' n] counts IH]; simpl; [done|].
  intros Hall. inversion Hall as [|? ? Hz' Hrest]; subst.
  rewrite date_string_eqb by done. destruct (Z.eqb z z'); [done | by apply IH].
Qed.

Lemma set_bucket_entries z n counts :
  four_digit_day z → Forall four_digit_day (map fst counts) →
  Js.set (date_string z) (JNum n) (map bucket_entry counts)
  = map bucket_entry (set_day z n counts).
Proof.
  intros Hz. induction counts as [|[z' n'] counts IH]; simpl; [done|].
  intros Hall. inversion Hall as [|? ? Hz' Hrest]; subst.
  rewrite date_string_eqb by done. destruct (Z.eqb z z'); simpl; [done|].
  by rewrite IH.
Qed.

(** Counting a date in the timeline object is counting its day. *)
Lemma bump_date z counts :
  four_digit_day z → Forall four_digit_day (map fst counts) →
  bump (date_string z) (map bucket_entry counts)
  = Some (map bucket_entry (count_day z counts)).
Proof.
  intros Hz Hall. unfold bump, count_day. rewrite own_bucket_entries by done.
  destruct (lookup_day z counts) as [n|].
  - simpl. by rewrite set_bucket_entries.
  - change (JNum <$> None) with (@None json). cbv iota.
    destruct (date_string_ordinary z Hz) as [-> ->]. by rewrite set_bucket_entries.
Qed.

End Timeline.


(** ** Counting and sorting days *)

Section Days.

Lemma insert_by_perm {A} (cmp : A → A → comparison) x l :
  insert_by cmp x l ≡ₚ x :: l.
Proof.
  induction l as [|y l IH]; simpl; [done|].
  destruct (cmp x y); try done; by rewrite IH, Permutation_swap.
Qed.

Lemma sort_by_perm {A} (cmp : A → A → comparison) l :
  sort_by cmp l ≡ₚ l.
Proof.
  unfold sort_by. change l with ([] ++ l)%list at 2. generalize (@nil A) as acc.
  induction l as [|x l IH]; intros acc; simpl.
  - by rewrite app_nil_r.
  - rewrite IH, insert_by_perm. simpl. apply Permutation_middle.
Qed.

(** Sorting commutes with a map that respects the comparison. *)
Lemma insert_by_map {A B} (f : A → B) (cmp : A → A → comparison)
    (cmp' : B → B → comparison) x l :
  (∀ y, y ∈ l → cmp' (f x) (f y) = cmp x y) →
  insert_by cmp' (f x) (map f l) = map f (insert_by cmp x l).
Proof.
  induction l as [|y l IH]; intros Hcmp; simpl; [done|].
  rewrite Hcmp by left. destruct (cmp x y); try done;
    (rewrite IH; [done|]; intros y' Hy'; apply Hcmp; by right).
Qed.

Lemma sort_by_map {A B} (f : A → B) (cmp : A → A → comparison)
    (cmp' : B → B → comparison) l :
  (∀ x y, x ∈ l → y ∈ l → cmp' (f x) (f y) = cmp x y) →
  sort_by cmp' (map f l) = map f (sort_by cmp l).
Proof.
  unfold sort_by. intros Hcmp.
  assert (∀ acc, (∀ x y, x ∈ (acc ++ l)%list → y ∈ (acc ++ l)%list →
                         cmp' (f x) (f y) = cmp x y) →
                 fold_left (fun sorted x => insert_by cmp' x sorted) (map f l) (map f acc)
                 = map f (fold_left (fun sorted x => insert_by cmp x sorted) l acc))
    as Hgen.
  { clear Hcmp. induction l as [|x l IH]; intros acc Hcmp; simpl; [done|].
    rewrite (insert_by_map f cmp cmp').
    - apply IH. intros a b Ha Hb. apply Hcmp.
      + rewrite elem_of_app, insert_by_perm, elem_of_cons in Ha.
        rewrite elem_of_app, elem_of_cons. tauto.
      + rewrite elem_of_app, insert_by_perm, elem_of_cons in Hb.
        rewrite elem_of_app, elem_of_cons. tauto.
    - intros y Hy. apply Hcmp; rewrite elem_of_app, elem_of_cons; tauto. }
  apply (Hgen []). apply Hcmp.
Qed.

(** Inserting by day keeps the days in ascending order. *)
Lemma insert_day_sorted x l :
  StronglySorted Z.le (map fst l) →
  StronglySorted Z.le (map fst (insert_by day_compare x l)).
Proof.
  induction l as [|y l IH]; simpl.
  - intros _. repeat constructor.
  - intros Hsorted. apply StronglySorted_inv in Hsorted as [Hrest Hhd].
    unfold day_compare at 1. destruct (Z.compare_spec (fst x) (fst y)) as [Heq|Hlt|Hgt].
    + simpl. constructor; [by apply IH|].
      rewrite insert_by_perm. simpl. constructor; [lia | done].
    + simpl. constructor; [by constructor|].
      constructor; [lia|]. eapply Forall_impl; [exact Hhd|]. simpl. lia.
    + simpl. constructor; [by apply IH|].
      rewrite insert_by_perm. simpl. constructor; [lia | done].
Qed.

Lemma sort_days_sorted l : StronglySorted Z.le (map fst (sort_by day_compare l)).
Proof.
  unfold sort_by.
  assert (∀ acc, StronglySorted Z.le (map fst acc) →
                 StronglySorted Z.le
                   (map fst (fold_left (fun sorted x => insert_by day_compare x sorted) l acc)))
    as Hgen.
  { induction l as [|x l IH]; intros acc Hacc; simpl; [done|].
    by apply IH, insert_day_sorted. }
  apply Hgen. constructor.
Qed.

Lemma sorted_strict (l : list Z) :
  StronglySorted Z.le l → NoDup l → StronglySorted Z.lt l.
Proof.
  induction l as [|x l IH]; [constructor|].
  intros Hsorted Hnodup. apply StronglySorted_inv in Hsorted as [Hrest Hhd].
  apply NoDup_cons in Hnodup as [Hnotin Hnodup].
  constructor; [by apply IH|].
  rewrite Forall_forall in Hhd |- *. intros y Hy.
  specialize (Hhd y Hy). assert (x ≠ y) by (by intros ->). lia.
Qed.

(** *** Counting *)

Lemma lookup_set_day z n z' counts :
  lookup_day z' (set_day z n counts)
  = if Z.eqb z z' then Some n else lookup_day z' counts.
Proof.
  induction counts as [|[z0 n0] counts IH]; simpl.
  - rewrite (Z.eqb_sym z' z). by destruct (Z.eqb z z').
  - destruct (Z.eqb_spec z z0) as [->|Hne]; simpl.
    + rewrite (Z.eqb_sym z' z0). by destruct (Z.eqb z0 z').
    + rewrite IH. destruct (Z.eqb_spec z' z0) as [->|?]; [|done].
      by destruct (Z.eqb_spec z z0).
Qed.

Lemma lookup_day_None z counts : lookup_day z counts = None ↔ z ∉ map fst counts.
Proof.
  induction counts as [|[z0 n0] counts IH]; simpl.
  - split; [intros _; apply not_elem_of_nil | reflexivity].
  - rewrite not_elem_of_cons. destruct (Z.eqb_spec z z0) as [->|Hne].
    + split; [done | intros [? _]; congruence].
    + rewrite IH. tauto.
Qed.

Lemma keys_set_day z n counts :
  map fst (set_day z n counts)
  = match lookup_day z counts with
    | Some _ => map fst counts
    | None => (map fst counts ++ [z])%list
    end.
Proof.
  induction counts as [|[z0 n0] counts IH]; simpl; [done|].
  destruct (Z.eqb_spec z z0) as [->|Hne]; simpl; [done|].
  rewrite IH. by destruct (lookup_day z counts).
Qed.

Lemma keys_count_day z counts :
  NoDup (map fst counts) → NoDup (map fst (count_day z counts)).
Proof.
  intros Hnodup. unfold count_day. rewrite keys_set_day.
  destruct (lookup_day z counts) eqn:E; [done|].
  apply lookup_day_None in E. apply NoDup_app. split; [done|].
  split; [|apply NoDup_singleton].
  intros x Hx Hx'. apply list_elem_of_singleton in Hx'. by subst.
Qed.

Lemma elem_of_keys_count_day z z' counts :
  z' ∈ map fst (count_day z counts) ↔ z' = z ∨ z' ∈ map fst counts.
Proof.
  unfold count_day. rewrite keys_set_day.
  destruct (lookup_day z counts) eqn:E.
  - split; [tauto|]. intros [->|?]; [|done].
    destruct (decide (z ∈ map fst counts)) as [|Hn]; [done|].
    apply lookup_day_None in Hn. congruence.
  - rewrite elem_of_app, list_elem_of_singleton. tauto.
Qed.

Lemma occurrences_cons z z' days :
  occurrences z (z' :: days) = (if Z.eqb z' z then 1 else 0) + occurrences z days.
Proof.
  unfold occurrences. rewrite filter_cons.
  destruct (Z.eqb_spec z' z) as [->|Hne].
  - rewrite decide_True by done. simpl length. lia.
  - rewrite decide_False by done. lia.
Qed.

Lemma occurrences_nonneg z days : 0 <= occurrences z days.
Proof. unfold occurrences. lia. Qed.

Lemma occurrences_pos z days : z ∈ days ↔ 0 < occurrences z days.
Proof.
  induction days as [|z' days IH].
  - split; [by intros ?%elem_of_nil | unfold occurrences; simpl; lia].
  - rewrite occurrences_cons, elem_of_cons, IH.
    pose proof (occurrences_nonneg z days).
    destruct (Z.eqb_spec z' z) as [->|Hne]; [split; [lia | by left]|].
    split; [intros [?|?]; [congruence | lia] | intros ?; right; lia].
Qed.

(** The count a day ends up with is the number of times it occurs. *)
Lemma lookup_count_days z days :
  ∀ counts,
    lookup_day z (fold_left (fun counts z => count_day z counts) days counts)
    = if occurrences z days =? 0 then lookup_day z counts
      else Some (default 0 (lookup_day z counts) + occurrences z days).
Proof.
  induction days as [|z' days IH]; intros counts; simpl; [done|].
  rewrite IH, occurrences_cons. unfold count_day. rewrite lookup_set_day.
  pose proof (occurrences_nonneg z days) as Hocc.
  destruct (Z.eqb_spec z' z) as [->|Hne].
  - destruct (Z.eqb_spec (occurrences z days) 0) as [->|Hpos].
    + simpl. destruct (lookup_day z counts); simpl; f_equal; lia.
    + destruct (Z.eqb_spec (1 + occurrences z days) 0); [lia|].
      destruct (lookup_day z counts); simpl; f_equal; lia.
  - rewrite Z.add_0_l. by destruct (occurrences z days =? 0).
Qed.

Lemma lookup_day_elem z n counts :
  NoDup (map fst counts) → (z, n) ∈ counts → lookup_day z counts = Some n.
Proof.
  induction counts as [|[z0 n0] counts IH]; simpl.
  - by intros _ ?%elem_of_nil.
  - rewrite NoDup_cons, elem_of_cons. intros [Hnotin Hnodup] [Heq|Hin].
    + injection Heq as -> ->. by rewrite Z.eqb_refl.
    + destruct (Z.eqb_spec z z0) as [->|Hne]; [|by apply IH].
      destruct Hnotin. apply list_elem_of_fmap. by exists (z0, n).
Qed.

Lemma count_days_NoDup days : NoDup (map fst (count_days days)).
Proof.
  unfold count_days.
  assert (∀ counts, NoDup (map fst counts) →
                    NoDup (map fst (fold_left (fun counts z => count_day z counts)
                                              days counts))) as Hgen.
  { induction days as [|z days IH]; intros counts Hc; simpl; [done|].
    by apply IH, keys_count_day. }
  apply Hgen. constructor.
Qed.

Lemma count_days_keys z days : z ∈ map fst (count_days days) ↔ z ∈ days.
Proof.
  unfold count_days.
  assert (∀ counts, z ∈ map fst (fold_left (fun counts z => count_day z counts)
                                           days counts)
                    ↔ z ∈ days ∨ z ∈ map fst counts) as Hgen.
  { induction days as [|z' days IH]; intros counts; simpl.
    - rewrite elem_of_nil. tauto.
    - rewrite IH, elem_of_keys_count_day, elem_of_cons. tauto. }
  rewrite Hgen. simpl. rewrite elem_of_nil. tauto.
Qed.

Lemma count_days_elem z n days :
  (z, n) ∈ count_days days → n = occurrences z days ∧ z ∈ days.
Proof.
  intros Hin. pose proof (lookup_day_elem z n _ (count_days_NoDup days) Hin) as Hl.
  unfold count_days in Hl. rewrite lookup_count_days in Hl. simpl in Hl.
  destruct (Z.eqb_spec (occurrences z days) 0) as [?|Hpos]; [done|].
  injection Hl as <-. split; [lia|].
  apply occurrences_pos. pose proof (occurrences_nonneg z days). lia.
Qed.

End Days.


(** ** The timeline buckets *)

Section TimelineBuckets.

Context `{Platform}.

Lemma fill_timeline_days defects days :
  Forall2 (fun defect z => ∃ t, created_time defect = Some t ∧ Date.day t = z)
          defects days →
  Forall four_digit_day days →
  ∀ counts,
    Forall four_digit_day (map fst counts) →
    fill_timeline defects (map bucket_entry counts)
    = Some (map bucket_entry
              (fold_left (fun counts z => count_day z counts) days counts)).
Proof.
  induction 1 as [|defect z defects days (t & Ht & <-) _ IH]; intros Hdays counts Hc.
  - done.
  - inversion Hdays as [|? ? Hz Hrest]; subst. simpl.
    rewrite (day_key_created defect t Ht Hz), bump_date by done.
    apply IH; [done|].
    rewrite Forall_forall in Hc |- *. intros z Hin.
    apply elem_of_keys_count_day in Hin as [->|Hin]; [done | by apply Hc].
Qed.

Lemma slice_last_map {A B} (f : A → B) n l :
  slice_last n (map f l) = map f (slice_last n l).
Proof. unfold slice_last. by rewrite length_map, skipn_map. Qed.

Lemma slice_last_split {A} n (l : list A) :
  ∃ older, l = (older ++ slice_last n l)%list
           ∧ (older ≠ [] → length (slice_last n l) = n).
Proof.
  unfold slice_last. exists (take (length l - n) l). split.
  - by rewrite take_drop.
  - intros Hne. rewrite length_drop.
    destruct (decide (length l ≤ n))%nat as [Hle|Hgt]; [|lia].
    destruct Hne. replace (length l - n)%nat with 0%nat by lia. done.
Qed.

(** C8, as the code has it. For defects created in the years 0000 to
    9999, on a platform that collates such dates by code units, the
    timeline has one bucket for each UTC calendar day on which a defect
    was created, counting the defects of that day; it keeps the 30 latest
    of these days and lists them oldest first. *)
Theorem timeline_by_utc_day defects days :
  collates_dates →
  Forall2 (fun defect z => ∃ t, created_time defect = Some t ∧ Date.day t = z)
          defects days →
  Forall four_digit_day days →
  ∃ buckets : list (Z * Z),
    getTimelineData defects = Some (map bucket_point buckets) ∧
    timeline_buckets defects = Some (map bucket_entry buckets) ∧
    StronglySorted Z.lt (map fst buckets) ∧
    (length buckets ≤ 30)%nat ∧
    (∀ z n, (z, n) ∈ buckets → z ∈ days ∧ n = occurrences z days) ∧
    (∀ z, z ∈ days →
          z ∈ map fst buckets
          ∨ (length buckets = 30%nat ∧ ∀ z', z' ∈ map fst buckets → z < z')).
Proof.
  intros Hcollate Hdefects Hdays.
  set (counted := count_days days).
  set (sorted := sort_by day_compare counted).
  assert (Forall four_digit_day (map fst counted)) as Hcounted.
  { rewrite Forall_forall in Hdays |- *. intros z Hz.
    by apply Hdays, count_days_keys. }
  assert (timeline_buckets defects = Some (map bucket_entry (slice_last 30 sorted)))
    as Hbuckets.
  { unfold timeline_buckets.
    pose proof (fill_timeline_days defects days Hdefects Hdays []
                  ltac:(constructor)) as Hfill.
    cbn [map] in Hfill. rewrite Hfill.
    fold (count_days days). fold counted.
    rewrite (sort_by_map bucket_entry day_compare), slice_last_map; [done|].
    intros a b Ha Hb. simpl. unfold day_compare.
    rewrite Forall_forall in Hcounted.
    assert (four_digit_day (fst a)) by (apply Hcounted, list_elem_of_fmap; eauto).
    assert (four_digit_day (fst b)) by (apply Hcounted, list_elem_of_fmap; eauto).
    by rewrite Hcollate, DateFacts.date_string_compare. }
  assert (sorted ≡ₚ counted) as Hperm by apply sort_by_perm.
  assert (StronglySorted Z.lt (map fst sorted)) as Hsorted.
  { apply sorted_strict; [apply sort_days_sorted|].
    rewrite Hperm. apply count_days_NoDup. }
  destruct (slice_last_split 30 sorted) as (older & Hsplit & Hfull).
  exists (slice_last 30 sorted).
  split; [|split; [done|split; [|split; [|split]]]].
  - unfold getTimelineData. rewrite Hbuckets. f_equal.
    rewrite map_map. done.
  - rewrite Hsplit, map_app in Hsorted. by apply StronglySorted_app_1_r in Hsorted.
  - unfold slice_last. rewrite length_drop. lia.
  - intros z n Hin. apply and_comm, count_days_elem.
    fold counted. rewrite <- Hperm, Hsplit, elem_of_app. by right.
  - intros z Hz. apply count_days_keys in Hz. fold counted in Hz.
    rewrite <- Hperm, Hsplit, map_app, elem_of_app in Hz.
    destruct Hz as [Hold|Hkept]; [right | by left].
    split.
    + apply Hfull. intros ->. by apply elem_of_nil in Hold.
    + intros z' Hz'. rewrite Hsplit, map_app in Hsorted.
      by eapply StronglySorted_app_1_elem_of.
Qed.

End TimelineBuckets.

(** In the sample browser: three defects on two UTC days. *)
Lemma timeline_by_utc_day_witness :
  ∃ buckets : list (Z * Z),
    timeline_buckets (H := Sample.browser)
      [Sample.late_defect; Sample.early_defect; Sample.late_defect]
    = Some (map bucket_entry buckets) ∧
    StronglySorted Z.lt (map fst buckets) ∧
    ∀ z n, (z, n) ∈ buckets → z ∈ [19723; 19724; 19723]
                               ∧ n = occurrences z [19723; 19724; 19723].
Proof.
  destruct (timeline_by_utc_day (H := Sample.browser)
              [Sample.late_defect; Sample.early_defect; Sample.late_defect]
              [19723; 19724; 19723])
    as (buckets & _ & Hbuckets & Hsorted & _ & Hcounts & _).
  - intros z1 z2 _ _. reflexivity.
  - repeat constructor.
    + exists 1704151800000. split; reflexivity.
    + exists 1704155400000. split; reflexivity.
    + exists 1704151800000. split; reflexivity.
  - repeat constructor; vm_compute; discriminate.
  - exists buckets. split; [exact Hbuckets|]. split; [exact Hsorted | exact Hcounts].
Defined.

(** C8, as stated, fails: the buckets are UTC days, not days of the
    client's time zone.  In the sample browser, three hours ahead of
    UTC, two defects created at 02:30 and 03:30 local time on 2 January
    2024 fall on one local calendar day, and the timeline puts them in
    two buckets. *)
Lemma timeline_splits_a_local_day :
  ∃ t1 t2,
    created_time (H := Sample.browser) Sample.late_defect = Some t1 ∧
    created_time (H := Sample.browser) Sample.early_defect = Some t2 ∧
    local_day (H := Sample.browser) t1 = local_day (H := Sample.browser) t2 ∧
    timeline_buckets (H := Sample.browser) [Sample.late_defect; Sample.early_defect]
    = Some [("2024-01-01", JNum 1); ("2024-01-02", JNum 1)].
Proof.
  exists 1704151800000, 1704155400000. repeat split; vm_compute; reflexivity.
Qed.

(** Supporting C8: the bound on the years is needed.  From the year
    10000 on [toISOString] writes the year with a sign and six digits,
    and the buckets are sorted as strings: a defect created on 1 January
    10000 comes before one created on 1 January 1970. *)
Lemma timeline_year_10000_sorts_first :
  created_time (H := Sample.browser) (JObj [("createdAt", JNum 0)]) = Some 0 ∧
  created_time (H := Sample.browser) (JObj [("createdAt", JNum 253402300800000)])
  = Some 253402300800000 ∧
  Date.day 253402300800000 = Date.last_day + 1 ∧
  timeline_buckets (H := Sample.browser)
    [JObj [("createdAt", JNum 0)]; JObj [("createdAt", JNum 253402300800000)]]
  = Some [("+010000-01-01", JNum 1); ("1970-01-01", JNum 1)].
Proof. repeat split; vm_compute; reflexivity. Qed.



(** ** What a route may write *)

Section Frames.

Context `{Platform}.

Lemma guarded_world message (m : M Response) w :
  snd (guarded message m w) = snd (m w).
Proof. unfold guarded. by destruct (m w) as [[?|] ?]. Qed.

Lemma only_writes_ret {A} P (a : A) : only_writes P (ret a).
Proof. by intros w key _. Qed.

Lemma only_writes_throw {A} P : only_writes P (@throw A).
Proof. by intros w key _. Qed.

Lemma only_writes_lift {A} P (o : option A) : only_writes P (lift o).
Proof. destruct o; [apply only_writes_ret | apply only_writes_throw]. Qed.

Lemma only_writes_bind {A B} P (m : M A) (k : A → M B) :
  only_writes P m → (∀ a, only_writes P (k a)) → only_writes P (bind m k).
Proof.
  intros Hm Hk w key Hkey. specialize (Hm w key Hkey). unfold bind.
  destruct (m w) as [[a|] w']; simpl in *; [|done].
  by rewrite (Hk a w' key Hkey).
Qed.

Lemma only_writes_now P : only_writes P now.
Proof. by intros w key _. Qed.

Lemma only_writes_timestamp P : only_writes P timestamp.
Proof. by intros w key _. Qed.

Lemma only_writes_randomUUID P : only_writes P randomUUID.
Proof. by intros w key _. Qed.

Lemma only_writes_kv_get P key : only_writes P (kv_get key).
Proof. by intros w key' _. Qed.

Lemma only_writes_kv_getByPrefix P prefix : only_writes P (kv_getByPrefix prefix).
Proof. by intros w key' _. Qed.

Lemma only_writes_kv_set (P : string → Prop) key doc :
  P key → only_writes P (kv_set key doc).
Proof.
  intros HP w key' Hkey'. simpl. apply lookup_insert_ne. by intros ->.
Qed.

Lemma only_writes_admin_createUser P email password user_metadata :
  only_writes P (admin_createUser email password user_metadata).
Proof. by intros w key _. Qed.

Lemma only_writes_admin_updateUserById P id attributes :
  only_writes P (admin_updateUserById id attributes).
Proof. by intros w key _. Qed.

Lemma only_writes_object_keys P v : only_writes P (object_keys v).
Proof. destruct v; apply only_writes_ret || apply only_writes_throw. Qed.

Lemma only_writes_authenticated P r (k : AuthUser → M Response) :
  (∀ user, only_writes P (k user)) → only_writes P (authenticated r k).
Proof.
  intros Hk. unfold authenticated.
  destruct (accessToken r) as [token|]; [|apply only_writes_ret].
  destruct (String.eqb token ""); [apply only_writes_ret|].
  destruct (verifyAuth token); [apply Hk | apply only_writes_ret].
Qed.

End Frames.

(** One step of a frame argument along the text of a route. *)
Ltac frame_step :=
  first
    [ apply only_writes_ret
    | apply only_writes_throw
    | apply only_writes_lift
    | apply only_writes_now
    | apply only_writes_timestamp
    | apply only_writes_randomUUID
    | apply only_writes_kv_get
    | apply only_writes_kv_getByPrefix
    | apply only_writes_admin_createUser
    | apply only_writes_admin_updateUserById
    | apply only_writes_object_keys
    | apply only_writes_authenticated; intros ?
    | apply only_writes_bind; [|intros ?]
    | match goal with
      | |- only_writes _ (if ?b then _ else _) => destruct b
      | |- only_writes _ (match ?x with _ => _ end) => destruct x
      end ].

Section RouteFrames.

Context `{Platform}.

Lemma work_key_defect id : work_key ("defect:" +:+ id).
Proof. left. apply prefix_append. Qed.

Lemma work_key_history id : work_key ("history:" +:+ id).
Proof. right. left. apply prefix_append. Qed.

Lemma work_key_project id : work_key ("project:" +:+ id).
Proof. right. right. apply prefix_append. Qed.

Lemma tally_only_writes P defects : ∀ acc, only_writes P (tally defects acc).
Proof.
  induction defects as [|defect defects IH]; intros acc; simpl.
  - apply only_writes_ret.
  - apply only_writes_bind; [|done].
    unfold tally_defect, is_overdue, get. repeat frame_step.
Qed.

Lemma prefix_user_not_work key : String.prefix "user:" key = true → ¬ work_key key.
Proof.
  destruct key as [|c key]; [intros Hk; discriminate Hk|].
  unfold work_key. cbn [String.prefix].
  destruct (ascii_dec "u" c) as [<-|?]; [|intros Hk; discriminate Hk].
  intros _ [Hk | [Hk | Hk]]; discriminate Hk.
Qed.

(** X1. Without a token the identity service resolves, every route
    behind the token check answers 401 [Unauthorized] and leaves the
    world as it was. *)
Theorem routes_refuse_without_identity route r w :
  (∀ user, ¬ valid_token r user) →
  serve route r w = (json_error "Unauthorized" 401, w).
Proof.
  intros Hnone. destruct (token_cases r) as [Hno | [user Hv]];
    [|by destruct (Hnone user)].
  destruct route; cbn [serve];
    unfold list_projects, create_project, list_defects, create_defect, update_defect,
      get_defect, add_comment, analytics, list_users, update_role, guarded;
    by rewrite Hno.
Qed.

(** X2. The routes that answer a GET never write to the table, whatever
    the request and whatever the table holds. *)
Theorem get_routes_keep_table route r w :
  reads_only route = true → kv (snd (serve route r w)) = kv w.
Proof.
  intros Hget. apply map_eq. intros key.
  destruct route; try done; cbn [serve];
    unfold list_projects, list_defects, get_defect, analytics, list_users;
    rewrite guarded_world;
    match goal with
    | |- kv (snd (?m w)) !! key = _ => cut (only_writes (fun _ => False) m)
    end;
    try (intros Hm; apply Hm; tauto);
    repeat frame_step; apply tally_only_writes.
Qed.

(** The routes other than the role update write only defects, history
    entries and projects. *)
Lemma serve_only_writes_work route r w key :
  route ≠ PutUserRole → ¬ work_key key →
  kv (snd (serve route r w)) !! key = kv w !! key.
Proof.
  intros Hroute Hkey.
  destruct route; try done; cbn [serve];
    unfold list_projects, create_project, list_defects, create_defect, update_defect,
      get_defect, add_comment, analytics, list_users;
    rewrite guarded_world;
    match goal with |- kv (snd (?m w)) !! key = _ => cut (only_writes work_key m) end;
    try (intros Hm; by apply Hm);
    unfold req_json, get; repeat frame_step;
    first [ apply tally_only_writes
          | apply only_writes_kv_set;
            first [apply work_key_defect | apply work_key_history | apply work_key_project] ].
Qed.

End RouteFrames.

(** On the sample table: an unknown token is refused by the update
    route. *)
Lemma routes_refuse_without_identity_witness :
  serve (H := Sample.platform) PutDefect
    (Sample.request "tok-nobody" "d1" (JObj [("status", JStr "Закрыта")])) Sample.world
  = (json_error "Unauthorized" 401, Sample.world).
Proof.
  apply (routes_refuse_without_identity (H := Sample.platform)).
  intros user (token & Htoken & _ & Huser).
  injection Htoken as <-. discriminate Huser.
Defined.

(** On the sample table: reading [d1] leaves the table alone. *)
Lemma get_routes_keep_table_witness :
  kv (snd (serve (H := Sample.platform) GetDefect
             (Sample.request "tok-alice" "d1" JNull) Sample.world))
  = kv Sample.world.
Proof.
  apply (get_routes_keep_table (H := Sample.platform)). reflexivity.
Defined.


(** ** Reading after writing *)

Section Lookups.
Context `{Platform}.

(** The documents [getByPrefix] lists are those of the table filtered
    by key, in some order. *)
Lemma filter_map_to_list (P : string * json → Prop) `{∀ x, Decision (P x)}
    (table : gmap string json) :
  filter P (map_to_list table) ≡ₚ map_to_list (filter P table).
Proof.
  apply NoDup_Permutation.
  - apply NoDup_filter, NoDup_map_to_list.
  - apply NoDup_map_to_list.
  - intros [key doc]. rewrite list_elem_of_filter, !elem_of_map_to_list.
    rewrite map_lookup_filter_Some. tauto.
Qed.

Lemma by_prefix_insert_new pre key doc (table : gmap string json) :
  String.prefix pre key = true → table !! key = None →
  map snd (filter (fun kd => String.prefix pre (fst kd) = true)
             (map_to_list (<[key := doc]> table)))
  ≡ₚ doc :: map snd (filter (fun kd => String.prefix pre (fst kd) = true)
                       (map_to_list table)).
Proof.
  intros Hpre Hnew.
  change (doc :: map snd ?l) with (map snd ((key, doc) :: l)). apply Permutation_map.
  rewrite !filter_map_to_list, map_filter_insert_True by done.
  apply map_to_list_insert. apply map_lookup_filter_None. by left.
Qed.

Lemma by_prefix_insert_other pre key doc (table : gmap string json) :
  String.prefix pre key = false →
  map snd (filter (fun kd => String.prefix pre (fst kd) = true)
             (map_to_list (<[key := doc]> table)))
  ≡ₚ map snd (filter (fun kd => String.prefix pre (fst kd) = true)
                (map_to_list table)).
Proof.
  intros Hpre. apply Permutation_map.
  rewrite !filter_map_to_list, map_filter_insert_not; [done|].
  intros y. simpl. congruence.
Qed.

Lemma by_prefix_none pre (table : gmap string json) :
  (∀ key, String.prefix pre key = true → table !! key = None) →
  map snd (filter (fun kd => String.prefix pre (fst kd) = true) (map_to_list table))
  = [].
Proof.
  intros Hnone. apply Permutation_nil_r. symmetry.
  change [] with (map snd (@nil (string * json))). apply Permutation_map.
  rewrite filter_map_to_list.
  replace (filter _ table) with (∅ : gmap string json); [by rewrite map_to_list_empty|].
  symmetry. apply map_empty. intros key. apply map_lookup_filter_None.
  destruct (table !! key) as [doc|] eqn:Hkey; [|by left].
  right. intros doc' _. simpl. intros Hpre. rewrite Hnone in Hkey; done.
Qed.

Lemma prefix_longer pre rest key :
  String.prefix (pre +:+ rest) key = true → String.prefix pre key = true.
Proof.
  revert key. induction pre as [|c pre IH]; intros key.
  - by destruct key.
  - rewrite DateFacts.append_cons. destruct key as [|c' key]; [done|].
    cbn [String.prefix]. destruct (ascii_dec c c'); [apply IH | done].
Qed.

Lemma prefix_history_key id entryId :
  String.prefix ("history:" +:+ id +:+ ":") ("history:" +:+ id +:+ ":" +:+ entryId) = true.
Proof.
  replace ("history:" +:+ id +:+ ":" +:+ entryId)
    with (("history:" +:+ id +:+ ":") +:+ entryId); [apply prefix_append|].
  by rewrite !DateFacts.append_assoc.
Qed.

(** X4. A defect id under which nothing, or only a falsy document, is
    stored: reading it, updating it with any parsable body and
    commenting on it with any body but [null] all answer 404
    [Defect not found], and nothing is written. *)
Theorem absent_defect_not_found r w user :
  valid_token r user →
  Js.truthy (kv w !! ("defect:" +:+ param_id r)) = false →
  get_defect r w = (json_error "Defect not found" 404, w) ∧
  (is_Some (payload r) →
   update_defect r w = (json_error "Defect not found" 404, w)) ∧
  (∀ data, payload r = Some data → data ≠ JNull →
   add_comment r w = (json_error "Defect not found" 404, w)).
Proof.
  intros Hv Hfalsy. split; [|split].
  - unfold get_defect, guarded. rewrite (authenticated_valid _ _ _ Hv).
    cbn [lift bind ret kv_get]. by rewrite Hfalsy.
  - intros [updates Hp]. unfold update_defect, guarded.
    rewrite (authenticated_valid _ _ _ Hv). unfold req_json. rewrite Hp.
    cbn [lift bind ret kv_get]. by rewrite Hfalsy.
  - intros data Hp Hd. unfold add_comment, guarded.
    rewrite (authenticated_valid _ _ _ Hv). unfold req_json, get. rewrite Hp.
    cbn [lift bind ret]. rewrite prop_field by done.
    cbn [lift bind ret kv_get]. by rewrite Hfalsy.
Qed.

(** X5. A defect just created can be read back: when no history entry
    is yet stored for the drawn id, reading that id answers the very
    document the creation answered, with a history of exactly one
    entry, [created] by the creating user. *)
Theorem created_defect_can_be_read r r' w user user' data :
  valid_token r user → payload r = Some data → data ≠ JNull →
  valid_token r' user' → param_id r' = uuid (draws w) →
  (∀ key, String.prefix ("history:" +:+ uuid (draws w) +:+ ":") key = true →
          kv w !! key = None) →
  ∃ defect entry,
    fst (create_defect r w) = json_ok (JObj [("defect", defect)]) ∧
    Js.field entry "action" = Some (JStr "created") ∧
    Js.field entry "userId" = Some (JStr (uid user)) ∧
    get_defect r' (snd (create_defect r w))
    = (json_ok (JObj [("defect", defect); ("history", JArr [entry])]),
       snd (create_defect r w)).
Proof.
  intros Hv Hp Hd Hv' Hid Hnew.
  destruct (create_defect_run r w user data Hv Hp Hd)
    as (defect & entry & Hdefect & Hentry & Hrun).
  exists defect, entry. rewrite Hrun. cbn [fst snd].
  split; [done|]. split; [by rewrite Hentry|]. split; [by rewrite Hentry|].
  unfold get_defect, guarded. rewrite (authenticated_valid _ _ _ Hv').
  cbn [lift bind ret kv_get kv]. rewrite Hid.
  rewrite lookup_insert_ne, lookup_insert_eq.
  2:{ intros Heq. pose proof (prefix_append "history:"
        (uuid (draws w) +:+ ":" +:+ uuid (S (draws w)))) as Hpre.
      rewrite Heq in Hpre. discriminate Hpre. }
  assert (Js.truthy (Some defect) = true) as -> by (by rewrite Hdefect).
  cbn [negb lift bind ret kv_getByPrefix kv default].
  assert (map snd (filter
            (fun kd => String.prefix ("history:" +:+ uuid (draws w) +:+ ":") (fst kd) = true)
            (map_to_list
               (<["history:" +:+ uuid (draws w) +:+ ":" +:+ uuid (S (draws w)) := entry]>
                  (<["defect:" +:+ uuid (draws w) := defect]> (kv w)))))
          = [entry]) as ->; [|done].
  apply Permutation_singleton_r.
  rewrite by_prefix_insert_new.
  - rewrite by_prefix_insert_other.
    + by rewrite by_prefix_none.
    + destruct (String.prefix _ _) eqn:Hpre; [|done].
      apply prefix_longer in Hpre. discriminate Hpre.
  - apply prefix_history_key.
  - rewrite lookup_insert_ne.
    + apply Hnew, prefix_history_key.
    + intros Heq. pose proof (prefix_append "history:"
        (uuid (draws w) +:+ ":" +:+ uuid (S (draws w)))) as Hpre.
      rewrite <- Heq in Hpre. discriminate Hpre.
Qed.

End Lookups.

(** ** Changing roles *)

Section RoleChanges.
Context `{Platform}.

Lemma includes_role_true s : s ∈ validRoles → includes_role (Some (JStr s)) = true.
Proof.
  intros Hs. unfold includes_role. apply existsb_exists. exists s.
  split; [by apply list_elem_of_In | apply String.eqb_refl].
Qed.

(** A role update by an administrator asking for one of the four
    roles. *)
Lemma update_role_run r w admin profile data s :
  valid_token r admin →
  kv w !! ("user:" +:+ uid admin) = Some profile →
  Js.prop profile "role" = Some (Some (JStr "admin")) →
  payload r = Some data → data ≠ JNull →
  Js.field data "role" = Some (JStr s) → s ∈ validRoles →
  update_role r w =
    match kv w !! ("user:" +:+ param_id r) with
    | Some existing =>
        if Js.truthy (Some existing) then
          let metadata := Js.set "role" (JStr s) (spread existing []) in
          let updated :=
            JObj (Js.set "updatedAt" (JStr (Date.toISOString (clock (reads w))))
                    metadata) in
          (json_ok (JObj [("user", updated)]),
           {| kv := <["user:" +:+ param_id r := updated]> (kv w);
              auth_log := auth_log w
                          ++ [UpdateUserById (param_id r)
                                (JObj [("user_metadata", JObj metadata)])];
              reads := S (reads w); draws := draws w |})
        else (json_error "User not found" 404, w)
    | None => (json_error "User not found" 404, w)
    end.
Proof.
  intros Hv Hprofile Hadmin Hp Hd Hrole Hs.
  unfold update_role, guarded. rewrite (authenticated_valid _ _ _ Hv).
  cbn [bind kv_get]. rewrite Hprofile.
  assert (Js.truthy (Some profile) = true) as -> by (by destruct profile).
  change (default JNull (Some profile)) with profile. rewrite Hadmin.
  change (negb true || differs_from "admin" (default None (Some (Some (JStr "admin")))))
    with false. cbn iota.
  unfold req_json, get. rewrite Hp. cbn [lift bind ret].
  rewrite prop_field by done. cbn [lift bind ret].
  rewrite Hrole, (includes_role_true s Hs). cbn [negb].
  unfold bind at 1. cbn [kv_get].
  destruct (kv w !! ("user:" +:+ param_id r)) as [existing|]; [|reflexivity].
  destruct (Js.truthy (Some existing)); reflexivity.
Qed.

(** A caller whose record is missing or not an administrator's is
    refused. *)
Lemma update_role_forbidden r w user :
  valid_token r user →
  (∀ profile, kv w !! ("user:" +:+ uid user) = Some profile →
              Js.prop profile "role" ≠ Some (Some (JStr "admin"))) →
  update_role r w = (json_error "Forbidden: Admin access required" 403, w).
Proof.
  intros Hv Hrole. unfold update_role, guarded.
  rewrite (authenticated_valid _ _ _ Hv). cbn [bind kv_get].
  destruct (kv w !! ("user:" +:+ uid user)) as [profile|] eqn:Hprofile;
    [|reflexivity].
  by rewrite (not_admin_forbidden profile (Hrole profile eq_refl)).
Qed.

(** X6. A role update by an administrator for a stored user record
    with distinct keys answers the updated record and stores it: the
    role is the one asked for, [updatedAt] is the time of the call,
    every other property is as it was; no other key of the table
    changes, and the identity service is told once, with the record's
    properties and the new role as metadata. *)
Theorem role_update_applies r w admin profile data s props :
  valid_token r admin →
  kv w !! ("user:" +:+ uid admin) = Some profile →
  Js.prop profile "role" = Some (Some (JStr "admin")) →
  payload r = Some data → data ≠ JNull →
  Js.field data "role" = Some (JStr s) → s ∈ validRoles →
  kv w !! ("user:" +:+ param_id r) = Some (JObj props) →
  NoDup (map fst props) →
  ∃ updated metadata,
    fst (update_role r w) = json_ok (JObj [("user", updated)]) ∧
    kv (snd (update_role r w)) = <["user:" +:+ param_id r := updated]> (kv w) ∧
    Js.field updated "role" = Some (JStr s) ∧
    Js.field updated "updatedAt"
    = Some (JStr (Date.toISOString (clock (reads w)))) ∧
    (∀ k, k ≠ "role" → k ≠ "updatedAt" → Js.field updated k = Js.own k props) ∧
    auth_log (snd (update_role r w))
    = (auth_log w
       ++ [UpdateUserById (param_id r) (JObj [("user_metadata", metadata)])])%list ∧
    Js.field metadata "role" = Some (JStr s) ∧
    (∀ k, k ≠ "role" → Js.field metadata k = Js.own k props).
Proof.
  intros Hv Hprofile Hadmin Hp Hd Hrole Hs Htarget Hnd.
  rewrite (update_role_run r w admin profile data s) by done.
  rewrite Htarget. cbn [Js.truthy fst snd kv auth_log].
  eexists _, _. repeat split.
  - cbn [Js.field]. rewrite !own_set. reflexivity.
  - cbn [Js.field]. by rewrite own_set_eq.
  - intros k Hk1 Hk2. cbn [Js.field].
    rewrite !own_set_ne by done. rewrite own_spread_object by done.
    by destruct (Js.own k props).
  - cbn [Js.field]. by rewrite own_set_eq.
  - intros k Hk. cbn [Js.field].
    rewrite own_set_ne by done. rewrite own_spread_object by done.
    by destruct (Js.own k props).
Qed.

(** X7. An administrator asking for a valid role for a user id under
    which nothing, or only a falsy document, is stored is answered 404
    [User not found]; nothing is written and the identity service is
    not called. *)
Theorem role_update_unknown_user r w admin profile data s :
  valid_token r admin →
  kv w !! ("user:" +:+ uid admin) = Some profile →
  Js.prop profile "role" = Some (Some (JStr "admin")) →
  payload r = Some data → data ≠ JNull →
  Js.field data "role" = Some (JStr s) → s ∈ validRoles →
  Js.truthy (kv w !! ("user:" +:+ param_id r)) = false →
  update_role r w = (json_error "User not found" 404, w).
Proof.
  intros Hv Hprofile Hadmin Hp Hd Hrole Hs Hfalsy.
  rewrite (update_role_run r w admin profile data s) by done.
  destruct (kv w !! ("user:" +:+ param_id r)) as [existing|]; [|done].
  by rewrite Hfalsy.
Qed.

End RoleChanges.

(** ** Sessions without an administrator *)

Section Lockout.
Context `{Platform}.

Lemma signup_keeps_no_admin r w : no_admin w → no_admin (snd (signup r w)).
Proof.
  intros Hnone. destruct (payload r) as [data|] eqn:Hp.
  - destruct (json_null_dec data) as [->|Hd].
    + unfold signup, guarded, req_json, get. by rewrite Hp.
    + rewrite (signup_run r w data Hp Hd). cbv zeta.
      destruct (createUser _ _ _ _) as [|message|user]; try exact Hnone.
      intros key profile Hkey. cbn [snd kv with_kv tick with_call].
      rewrite lookup_insert_Some. intros [[_ <-]|[_ Hold]]; [|by eapply Hnone].
      unfold Js.literal. cbn [Js.prop]. rewrite own_literal. simpl. discriminate.
  - unfold signup, guarded, req_json. by rewrite Hp.
Qed.

Lemma update_role_keeps_no_admin r w :
  no_admin w →
  update_role r w = (json_error "Unauthorized" 401, w)
  ∨ update_role r w = (json_error "Forbidden: Admin access required" 403, w).
Proof.
  intros Hnone. destruct (token_cases r) as [Hno | [user Hv]].
  - left. unfold update_role, guarded. by rewrite Hno.
  - right. apply (update_role_forbidden r w user Hv).
    intros profile Hprofile. eapply Hnone; [apply prefix_append | exact Hprofile].
Qed.

Lemma answer_keeps_no_admin c w : no_admin w → no_admin (snd (answer c w)).
Proof.
  intros Hnone. destruct c as [r | route r]; cbn [answer].
  - by apply signup_keeps_no_admin.
  - assert (route = PutUserRole ∨ route ≠ PutUserRole) as [->|Hroute]
      by (destruct route; (by left) || (by right)).
    + cbn [serve]. by destruct (update_role_keeps_no_admin r w Hnone) as [-> | ->].
    + intros key profile Hkey.
      rewrite serve_only_writes_work by auto using prefix_user_not_work.
      by apply Hnone.
Qed.

(** X8. Once no user record has the role [admin], none ever has it
    again: whatever requests are sent, signups included, the table
    holds no administrator afterwards, and every role update is
    answered 401 or 403 and changes nothing. *)
Theorem no_admin_is_final calls w r :
  no_admin w →
  no_admin (run calls w) ∧
  (update_role r (run calls w) = (json_error "Unauthorized" 401, run calls w)
   ∨ update_role r (run calls w)
     = (json_error "Forbidden: Admin access required" 403, run calls w)).
Proof.
  intros Hnone.
  assert (no_admin (run calls w)) as Hrun.
  { revert w Hnone. induction calls as [|c calls IH]; intros w Hnone; [done|].
    cbn [run fold_left]. apply IH. by apply answer_keeps_no_admin. }
  split; [done | by apply update_role_keeps_no_admin].
Qed.

(** X9. Nothing keeps the only administrator from giving up the role:
    when the caller's is the one record with role [admin] and they ask
    for another valid role for themself, the request is answered 200
    and no administrator is left. *)
Theorem last_admin_can_step_down r w admin profile data s :
  valid_token r admin →
  kv w !! ("user:" +:+ uid admin) = Some profile →
  Js.prop profile "role" = Some (Some (JStr "admin")) →
  (∀ key other, String.prefix "user:" key = true → kv w !! key = Some other →
                Js.prop other "role" = Some (Some (JStr "admin")) →
                key = "user:" +:+ uid admin) →
  payload r = Some data → data ≠ JNull →
  Js.field data "role" = Some (JStr s) → s ∈ validRoles → s ≠ "admin" →
  param_id r = uid admin →
  status (fst (update_role r w)) = 200 ∧ no_admin (snd (update_role r w)).
Proof.
  intros Hv Hprofile Hadmin Honly Hp Hd Hrole Hs Hne Hself.
  rewrite (update_role_run r w admin profile data s) by done.
  rewrite Hself, Hprofile.
  assert (Js.truthy (Some profile) = true) as -> by (by destruct profile).
  cbv zeta. split; [done|].
  intros key other Hkey. cbn [snd kv]. rewrite lookup_insert_Some.
  intros [[_ <-]|[Hother Hold]].
  - cbn [Js.prop]. rewrite !own_set. simpl. congruence.
  - intros Hrole'. by destruct Hother; symmetry; eapply Honly.
Qed.

End Lockout.

(** ** Signups that fail *)

Section SignupFailures.
Context `{Platform}.

(** X10. A signup that is not answered 200 writes nothing to the
    table; one whose body is [null] or cannot be parsed is answered 500
    before the identity service is asked, and changes nothing at all. *)
Theorem failed_signup_writes_nothing r w :
  (status (fst (signup r w)) ≠ 200 → kv (snd (signup r w)) = kv w) ∧
  (payload r = None ∨ payload r = Some JNull →
   signup r w = (json_error "Internal server error during signup" 500, w)).
Proof.
  split.
  - destruct (payload r) as [data|] eqn:Hp.
    + destruct (json_null_dec data) as [->|Hd].
      * unfold signup, guarded, req_json, get. by rewrite Hp.
      * rewrite (signup_run r w data Hp Hd). cbv zeta.
        by destruct (createUser _ _ _ _) as [|message|user].
    + unfold signup, guarded, req_json. by rewrite Hp.
  - intros [Hp|Hp]; unfold signup, guarded, req_json, get; by rewrite Hp.
Qed.

End SignupFailures.

(** ** Projects *)

Section Projects.
Context `{Platform}.

(** Creating a project with a valid token and a body that is not
    [null]. *)
Lemma create_project_run r w user data :
  valid_token r user → payload r = Some data → data ≠ JNull →
  ∃ project,
    project = Js.literal
                [("id", Some (JStr (uuid (draws w))));
                 ("name", Js.field data "name");
                 ("description", Js.field data "description");
                 ("startDate", Js.field data "startDate");
                 ("endDate", Js.field data "endDate");
                 ("createdBy", Some (JStr (uid user)));
                 ("createdAt", Some (JStr (Date.toISOString (clock (reads w)))));
                 ("status", Some (JStr "active"))] ∧
    create_project r w =
      (json_ok (JObj [("project", project)]),
       {| kv := <["project:" +:+ uuid (draws w) := project]> (kv w);
          auth_log := auth_log w;
          reads := S (reads w);
          draws := S (draws w) |}).
Proof.
  intros Hv Hp Hd. eexists. split; [reflexivity|].
  unfold create_project, guarded. rewrite (authenticated_valid _ _ _ Hv).
  unfold req_json, get. rewrite Hp.
  repeat (cbn [lift bind ret randomUUID timestamp now kv_set];
          rewrite ?prop_field by done).
  reflexivity.
Qed.

(** X11. Any authenticated user can create a project, whatever the
    body's fields are: the project stored has the drawn id, status
    [active], the caller as [createdBy] and the four fields [name],
    [description], [startDate], [endDate] as supplied, and a listing of
    the projects right after contains it. *)
Theorem created_project_is_listed r r' w user user' data :
  valid_token r user → payload r = Some data → data ≠ JNull →
  valid_token r' user' →
  ∃ project projects,
    fst (create_project r w) = json_ok (JObj [("project", project)]) ∧
    Js.field project "id" = Some (JStr (uuid (draws w))) ∧
    Js.field project "status" = Some (JStr "active") ∧
    Js.field project "createdBy" = Some (JStr (uid user)) ∧
    Forall (fun k => Js.field project k = Js.field data k)
           ["name"; "description"; "startDate"; "endDate"] ∧
    fst (list_projects r' (snd (create_project r w)))
    = json_ok (JObj [("projects", JArr projects)]) ∧
    project ∈ projects.
Proof.
  intros Hv Hp Hd Hv'.
  destruct (create_project_run r w user data Hv Hp Hd) as (project & Hproject & Hrun).
  rewrite Hrun. cbn [fst snd]. eexists project, _.
  split; [done|].
  split; [by rewrite Hproject, field_literal|].
  split; [by rewrite Hproject, field_literal|].
  split; [by rewrite Hproject, field_literal|].
  split.
  { rewrite Hproject.
    repeat (apply List.Forall_cons;
            [rewrite field_literal; simpl;
             match goal with |- match ?v with _ => _ end = _ => by destruct v end|]).
    apply List.Forall_nil. }
  unfold list_projects, guarded. rewrite (authenticated_valid _ _ _ Hv').
  cbn [lift bind ret kv_getByPrefix kv fst]. split; [reflexivity|].
  apply list_elem_of_fmap. exists ("project:" +:+ uuid (draws w), project).
  split; [done|]. apply list_elem_of_filter. split; [apply prefix_append|].
  apply elem_of_map_to_list, lookup_insert_eq.
Qed.

End Projects.

(** ** When the analytics route answers *)

Section AnalyticsAnswers.
Context `{Platform}.

Lemma new_Date_falsy v : Js.truthy v = false → is_Some (new_Date v).
Proof.
  destruct v as [[| b | n | s | items | props]|]; simpl; try done; eauto.
Qed.

(** A turn of the loop that does not throw was on a scannable
    defect. *)
Lemma tally_defect_scannable acc defect w acc' w' :
  tally_defect acc defect w = (Ok acc', w') → scannable defect.
Proof.
  destruct (json_null_dec defect) as [->|Hd]; [discriminate|].
  unfold tally_defect, is_overdue, get. rewrite !prop_field by done.
  cbn [lift bind ret].
  destruct (Js.to_key (Js.field defect "status")) as [statusKey|] eqn:Hs;
    [|discriminate].
  cbn [lift bind ret].
  destruct (bump statusKey (statusCount acc)) as [statuses|]; [|discriminate].
  cbn [lift bind ret].
  destruct (Js.to_key (Js.field defect "priority")) as [priorityKey|] eqn:Hp;
    [|discriminate].
  cbn [lift bind ret].
  destruct (bump priorityKey (priorityCount acc)) as [priorities|]; [|discriminate].
  cbn [lift bind ret].
  assert (is_Some (new_Date (Js.field defect "dueDate")) → scannable defect) as Hdone.
  { intros Hdue. split; [done|]. split; [by rewrite Hs|]. by split; [rewrite Hp|]. }
  unfold bind, ret. cbn beta iota.
  destruct (Js.truthy (Js.field defect "dueDate")) eqn:Hdue;
    [|intros _; by apply Hdone, new_Date_falsy].
  destruct (new_Date (Js.field defect "dueDate")) as [due|]; [by auto|].
  discriminate.
Qed.

Lemma tally_scannable defects :
  ∀ acc w acc' w', tally defects acc w = (Ok acc', w') → Forall scannable defects.
Proof.
  induction defects as [|defect defects IH]; intros acc w acc' w'; [by constructor|].
  cbn [tally]. unfold bind at 1.
  destruct (tally_defect acc defect w) as [[acc1|] w1] eqn:Hstep; [|discriminate].
  intros Hrest. constructor; [by eapply tally_defect_scannable | by eapply IH].
Qed.

(** The loop gets through scannable defects and counts each once. *)
Lemma tally_counts defects :
  ∀ acc w,
    Forall scannable defects →
    plain_counts (statusCount acc) → plain_counts (priorityCount acc) →
    ∃ acc' w',
      tally defects acc w = (Ok acc', w') ∧
      totalDefects acc' = totalDefects acc + Z.of_nat (length defects).
Proof.
  induction defects as [|defect defects IH]; intros acc w Hscan Hsc Hpc.
  - exists acc, w. split; [done|]. simpl. lia.
  - inversion Hscan as [|? ? Hdefect Hrest]; subst.
    destruct (tally_defect_run acc defect w Hdefect Hsc Hpc)
      as (sk & pk & statuses & priorities & w1 & _ & _ & _ & _ & Hsc1 & Hpc1
          & _ & _ & Hstep).
    set (acc1 := Build_Tally _ _ _ _) in Hstep.
    destruct (IH acc1 w1 Hrest Hsc1 Hpc1) as (acc' & w' & Hrun & Htotal).
    exists acc', w'. cbn [tally]. unfold bind at 1. rewrite Hstep, Hrun.
    split; [done|]. rewrite Htotal. subst acc1. cbn [totalDefects length]. lia.
Qed.

(** With a valid token the route runs the loop over the stored defects
    and answers 500 when it throws. *)
Lemma analytics_run r w user :
  valid_token r user →
  analytics r w =
    match tally (stored_defects w)
            {| statusCount := []; priorityCount := []; totalDefects := 0;
               overdue := 0 |} w with
    | (Ok result, w') =>
        (json_ok (JObj [("totalDefects", JNum (totalDefects result));
                        ("overdue", JNum (overdue result));
                        ("statusCount", JObj (statusCount result));
                        ("priorityCount", JObj (priorityCount result))]), w')
    | (Throw, w') =>
        (json_error "Internal server error while fetching analytics" 500, w')
    end.
Proof.
  intros Hv. unfold analytics, guarded. rewrite (authenticated_valid _ _ _ Hv).
  unfold bind at 1. cbn [kv_getByPrefix]. fold (stored_defects w).
  unfold bind at 1. by destruct (tally _ _ w) as [[result|] w'].
Qed.

Lemma analytics_total r w user :
  valid_token r user → Forall scannable (stored_defects w) →
  Js.field (body (fst (analytics r w))) "totalDefects"
  = Some (JNum (Z.of_nat (length (stored_defects w)))).
Proof.
  intros Hv Hscan. rewrite (analytics_run r w user Hv).
  destruct (tally_counts (stored_defects w)
              {| statusCount := []; priorityCount := []; totalDefects := 0; overdue := 0 |}
              w Hscan) as (acc' & w' & Hrun & Htotal); [constructor ..|].
  rewrite Hrun. simpl. by rewrite Htotal.
Qed.

(** X12. With a valid token the analytics route answers 200 exactly
    when every stored defect is scannable: not [null], with a status
    and a priority that convert to a property name and a due date that
    converts to a date.  Otherwise it answers 500: one such document
    among the defects is enough. *)
Theorem analytics_answers_iff_scannable r w user :
  valid_token r user →
  (status (fst (analytics r w)) = 200 ↔ Forall scannable (stored_defects w)) ∧
  (status (fst (analytics r w)) = 200
   ∨ fst (analytics r w)
     = json_error "Internal server error while fetching analytics" 500).
Proof.
  intros Hv. rewrite (analytics_run r w user Hv).
  destruct (tally _ _ w) as [[result|] w'] eqn:Hrun; cbn [fst status json_ok json_error].
  - split; [|by left]. split; [intros _; by eapply tally_scannable | done].
  - split; [|by right]. split; [done|]. intros Hscan.
    destruct (tally_counts (stored_defects w)
                {| statusCount := []; priorityCount := []; totalDefects := 0;
                   overdue := 0 |} w Hscan) as (acc' & w'' & Hrun' & _);
      [constructor ..|].
    rewrite Hrun in Hrun'. discriminate Hrun'.
Qed.

(** X13. The total the analytics route reports is the number of
    defects the listing route answers, when every stored defect is
    scannable. *)
Theorem analytics_total_is_listing_size r r' w user user' :
  valid_token r user → valid_token r' user' →
  Forall scannable (stored_defects w) →
  ∃ defects,
    fst (list_defects r' w) = json_ok (JObj [("defects", JArr defects)]) ∧
    Js.field (body (fst (analytics r w))) "totalDefects"
    = Some (JNum (Z.of_nat (length defects))).
Proof.
  intros Hv Hv' Hscan. exists (stored_defects w). split.
  - unfold list_defects, guarded. by rewrite (authenticated_valid _ _ _ Hv').
  - by eapply analytics_total.
Qed.

End AnalyticsAnswers.

(** ** Creating a defect, then asking for the analytics *)

Section CreateThenCount.
Context `{Platform}.

Lemma defect_key_not_history id entryId : "history:" +:+ entryId ≠ "defect:" +:+ id.
Proof.
  intros Heq. pose proof (prefix_append "history:" entryId) as Hpre.
  rewrite Heq in Hpre. discriminate Hpre.
Qed.

(** The defects stored after a creation. *)
Lemma create_defect_stored r w user data :
  valid_token r user → payload r = Some data → data ≠ JNull →
  ∃ defect,
    fst (create_defect r w) = json_ok (JObj [("defect", defect)]) ∧
    Js.field defect "status" = Some (JStr "Новая") ∧
    Js.field defect "priority" = Js.field data "priority" ∧
    Js.field defect "dueDate" = Js.field data "dueDate" ∧
    defect ≠ JNull ∧
    defect ∈ stored_defects (snd (create_defect r w)) ∧
    (kv w !! ("defect:" +:+ uuid (draws w)) = None →
     stored_defects (snd (create_defect r w)) ≡ₚ defect :: stored_defects w).
Proof.
  intros Hv Hp Hd.
  destruct (create_defect_run r w user data Hv Hp Hd)
    as (defect & entry & Hdefect & Hentry & Hrun).
  exists defect. rewrite Hrun. cbn [fst snd].
  split; [done|]. split; [by rewrite Hdefect, field_literal|].
  split. { rewrite Hdefect, field_literal. simpl. by destruct (Js.field data "priority"). }
  split. { rewrite Hdefect, field_literal. simpl. by destruct (Js.field data "dueDate"). }
  split; [by rewrite Hdefect|]. split.
  - apply list_elem_of_fmap. exists ("defect:" +:+ uuid (draws w), defect).
    split; [done|]. apply list_elem_of_filter. split; [apply prefix_append|].
    apply elem_of_map_to_list. cbn [kv].
    rewrite lookup_insert_ne by apply defect_key_not_history.
    apply lookup_insert_eq.
  - intros Hnew. unfold stored_defects. cbn [kv].
    rewrite by_prefix_insert_other by reflexivity.
    by apply by_prefix_insert_new; [apply prefix_append|].
Qed.

(** X14. Creating a defect under an id not yet in use raises the
    total the analytics route reports by one, when the stored defects
    were scannable and the new one's priority and due date convert as
    the scan needs. *)
Theorem created_defect_is_counted r r' w user user' data :
  valid_token r user → payload r = Some data → data ≠ JNull →
  is_Some (Js.to_key (Js.field data "priority")) →
  is_Some (new_Date (Js.field data "dueDate")) →
  kv w !! ("defect:" +:+ uuid (draws w)) = None →
  valid_token r' user' → Forall scannable (stored_defects w) →
  ∃ n,
    Js.field (body (fst (analytics r' w))) "totalDefects" = Some (JNum n) ∧
    Js.field (body (fst (analytics r' (snd (create_defect r w))))) "totalDefects"
    = Some (JNum (n + 1)).
Proof.
  intros Hv Hp Hd Hpriority Hdue Hnew Hv' Hscan.
  destruct (create_defect_stored r w user data Hv Hp Hd)
    as (defect & _ & Hs & Hpr & Hdu & Hnn & _ & Hperm).
  specialize (Hperm Hnew).
  exists (Z.of_nat (length (stored_defects w))).
  split; [by eapply analytics_total|].
  rewrite (analytics_total r' _ user' Hv').
  - rewrite Hperm. cbn [length]. do 2 f_equal. lia.
  - rewrite Hperm. constructor; [|done].
    split; [done|]. rewrite Hs, Hpr, Hdu. split; [by eexists|]. done.
Qed.

(** X15. Any authenticated user can take the analytics down: a defect
    created with a priority that does not convert to a string (an
    object with an own [toString] property) is stored with a 200, and
    the analytics route then answers 500 to everyone. *)
Theorem unreadable_priority_breaks_analytics r r' w user user' data v :
  valid_token r user → payload r = Some data → data ≠ JNull →
  Js.field data "priority" = Some v → Js.to_string v = None →
  valid_token r' user' →
  status (fst (create_defect r w)) = 200 ∧
  fst (analytics r' (snd (create_defect r w)))
  = json_error "Internal server error while fetching analytics" 500.
Proof.
  intros Hv Hp Hd Hpriority Hstring Hv'.
  destruct (create_defect_stored r w user data Hv Hp Hd)
    as (defect & Hanswer & _ & Hpr & _ & _ & Hin & _).
  split; [by rewrite Hanswer|].
  rewrite (analytics_run r' _ user' Hv').
  destruct (tally _ _ _) as [[result|] w'] eqn:Hrun; [|done].
  apply tally_scannable in Hrun. rewrite List.Forall_forall in Hrun.
  apply list_elem_of_In, Hrun in Hin. destruct Hin as (_ & _ & [key Hkey] & _).
  rewrite Hpr, Hpriority in Hkey. simpl in Hkey. congruence.
Qed.

End CreateThenCount.

(** ** The Authorization header *)

Section Header.
Context `{Platform}.

Lemma split_on_nonempty sep s : split_on sep s ≠ [].
Proof.
  destruct s as [|c s]; simpl; [done|].
  destruct (Ascii.eqb c sep); [done|]. by destruct (split_on sep s).
Qed.

Lemma split_on_scheme scheme rest :
  spaceless scheme →
  split_on " " (scheme +:+ " " +:+ rest) = scheme :: split_on " " rest.
Proof.
  unfold spaceless.
  induction scheme as [|c scheme IH]; cbn [list_ascii_of_string forallb].
  - intros _. by rewrite DateFacts.append_empty, DateFacts.append_cons.
  - rewrite DateFacts.append_cons. cbn [split_on].
    destruct (Ascii.eqb c " "); [done|]. cbn [negb andb]. intros Hrest.
    by rewrite IH.
Qed.

(** What a route does depends on the request through the token, the
    path parameter and the body only. *)
Lemma serve_token route r1 r2 w :
  accessToken r1 = accessToken r2 → param_id r1 = param_id r2 →
  payload r1 = payload r2 →
  serve route r1 w = serve route r2 w.
Proof.
  intros Htoken Hid Hbody.
  destruct route; cbn [serve];
    unfold list_projects, create_project, list_defects, create_defect, update_defect,
      get_defect, add_comment, analytics, list_users, update_role,
      authenticated, req_json;
    by rewrite Htoken, ?Hid, ?Hbody.
Qed.

(** X16. The scheme word of the [Authorization] header is never looked
    at: the token is what follows the first space, up to the next one,
    so two requests that differ only in the word before the first space
    are answered alike by every route. *)
Theorem scheme_is_not_checked route r1 r2 w scheme1 scheme2 rest :
  spaceless scheme1 → spaceless scheme2 →
  authorization r1 = Some (scheme1 +:+ " " +:+ rest) →
  authorization r2 = Some (scheme2 +:+ " " +:+ rest) →
  param_id r1 = param_id r2 → payload r1 = payload r2 →
  accessToken r1 = head (split_on " " rest) ∧
  serve route r1 w = serve route r2 w.
Proof.
  intros Hs1 Hs2 Ha1 Ha2 Hid Hbody.
  assert (∀ r scheme, spaceless scheme →
            authorization r = Some (scheme +:+ " " +:+ rest) →
            accessToken r = head (split_on " " rest)) as Htoken.
  { intros r scheme Hs Ha. unfold accessToken. rewrite Ha, split_on_scheme by done.
    simpl. by destruct (split_on " " rest). }
  split; [by apply (Htoken r1 scheme1)|].
  apply serve_token; [|done..].
  by rewrite (Htoken r1 scheme1), (Htoken r2 scheme2).
Qed.

End Header.

(** ** The properties on the sample table *)

Lemma sample_alice_valid id data :
  valid_token (H := Sample.platform) (Sample.request "tok-alice" id data) Sample.alice.
Proof. exists "tok-alice". repeat split; done. Qed.

Lemma sample_root_valid id data :
  valid_token (H := Sample.platform) (Sample.request "tok-root" id data) Sample.root.
Proof. exists "tok-root". repeat split; done. Qed.

Lemma sample_no_history key :
  String.prefix "history:" key = true → kv Sample.world !! key = None.
Proof.
  intros Hpre. unfold Sample.world. cbn [kv].
  rewrite !lookup_insert_ne; [apply lookup_empty | intros <-; discriminate Hpre ..].
Qed.

Lemma sample_stored_defects : stored_defects Sample.world = [Sample.defect1].
Proof. vm_compute. reflexivity. Qed.

Lemma sample_scannable :
  Forall (scannable (H := Sample.platform)) (stored_defects Sample.world).
Proof.
  rewrite sample_stored_defects. apply Forall_cons_2; [|apply Forall_nil_2].
  split; [discriminate|]. split; [|split]; eexists; vm_compute; reflexivity.
Qed.

(** Nothing is stored under [defect:nope]. *)
Lemma absent_defect_not_found_witness :
  get_defect (H := Sample.platform)
    (Sample.request "tok-alice" "nope" (JObj [("comment", JStr "hi")])) Sample.world
  = (json_error "Defect not found" 404, Sample.world)
  ∧ update_defect (H := Sample.platform)
      (Sample.request "tok-alice" "nope" (JObj [("comment", JStr "hi")])) Sample.world
    = (json_error "Defect not found" 404, Sample.world)
  ∧ add_comment (H := Sample.platform)
      (Sample.request "tok-alice" "nope" (JObj [("comment", JStr "hi")])) Sample.world
    = (json_error "Defect not found" 404, Sample.world).
Proof.
  destruct (absent_defect_not_found (H := Sample.platform)
              (Sample.request "tok-alice" "nope" (JObj [("comment", JStr "hi")]))
              Sample.world Sample.alice) as (Hget & Hupdate & Hcomment).
  - apply sample_alice_valid.
  - vm_compute. reflexivity.
  - split; [exact Hget|]. split.
    + apply Hupdate. eexists. reflexivity.
    + apply (Hcomment (JObj [("comment", JStr "hi")])); [reflexivity | discriminate].
Defined.

(** The first id drawn on the sample table is [id-0]; the administrator
    reads what the observer created. *)
Lemma created_defect_can_be_read_witness :
  ∃ defect entry,
    fst (create_defect (H := Sample.platform)
           (Sample.request "tok-alice" "" (JObj [("title", JStr "Leak")])) Sample.world)
    = json_ok (JObj [("defect", defect)]) ∧
    Js.field entry "action" = Some (JStr "created") ∧
    Js.field entry "userId" = Some (JStr "u-alice") ∧
    get_defect (H := Sample.platform) (Sample.request "tok-root" "id-0" JNull)
      (snd (create_defect (H := Sample.platform)
              (Sample.request "tok-alice" "" (JObj [("title", JStr "Leak")]))
              Sample.world))
    = (json_ok (JObj [("defect", defect); ("history", JArr [entry])]),
       snd (create_defect (H := Sample.platform)
              (Sample.request "tok-alice" "" (JObj [("title", JStr "Leak")]))
              Sample.world)).
Proof.
  apply (created_defect_can_be_read (H := Sample.platform)
           (Sample.request "tok-alice" "" (JObj [("title", JStr "Leak")]))
           (Sample.request "tok-root" "id-0" JNull)
           Sample.world Sample.alice Sample.root (JObj [("title", JStr "Leak")])).
  - apply sample_alice_valid.
  - reflexivity.
  - discriminate.
  - apply sample_root_valid.
  - reflexivity.
  - intros key Hkey. apply sample_no_history.
    by apply (prefix_longer "history:" "id-0:").
Defined.

(** The administrator makes the observer an engineer. *)
Lemma role_update_applies_witness :
  ∃ updated metadata,
    fst (update_role (H := Sample.platform)
           (Sample.request "tok-root" "u-alice" (JObj [("role", JStr "engineer")]))
           Sample.world)
    = json_ok (JObj [("user", updated)]) ∧
    kv (snd (update_role (H := Sample.platform)
               (Sample.request "tok-root" "u-alice" (JObj [("role", JStr "engineer")]))
               Sample.world))
    = <["user:u-alice" := updated]> (kv Sample.world) ∧
    Js.field updated "role" = Some (JStr "engineer") ∧
    Js.field updated "updatedAt" = Some (JStr "2024-01-01T23:30:00.000Z") ∧
    Js.field updated "id" = Some (JStr "u-alice") ∧
    Js.field metadata "role" = Some (JStr "engineer").
Proof.
  destruct (role_update_applies (H := Sample.platform)
              (Sample.request "tok-root" "u-alice" (JObj [("role", JStr "engineer")]))
              Sample.world Sample.root
              (JObj [("id", JStr "u-root"); ("role", JStr "admin")])
              (JObj [("role", JStr "engineer")]) "engineer"
              [("id", JStr "u-alice"); ("role", JStr "observer")])
    as (updated & metadata & Hanswer & Hkv & Hrole & Hat & Hother & _ & Hmeta & _).
  - apply sample_root_valid.
  - vm_compute. reflexivity.
  - reflexivity.
  - reflexivity.
  - discriminate.
  - reflexivity.
  - apply list_elem_of_In. simpl. tauto.
  - vm_compute. reflexivity.
  - apply (bool_decide_unpack _). vm_compute. exact I.
  - exists updated, metadata.
    split; [exact Hanswer|]. split; [exact Hkv|]. split; [exact Hrole|].
    split; [rewrite Hat; vm_compute; reflexivity|].
    split; [|exact Hmeta]. rewrite Hother; [reflexivity | discriminate ..].
Defined.

(** No record is stored for [u-ghost]. *)
Lemma role_update_unknown_user_witness :
  update_role (H := Sample.platform)
    (Sample.request "tok-root" "u-ghost" (JObj [("role", JStr "engineer")])) Sample.world
  = (json_error "User not found" 404, Sample.world).
Proof.
  apply (role_update_unknown_user (H := Sample.platform)
           (Sample.request "tok-root" "u-ghost" (JObj [("role", JStr "engineer")]))
           Sample.world Sample.root
           (JObj [("id", JStr "u-root"); ("role", JStr "admin")])
           (JObj [("role", JStr "engineer")]) "engineer").
  - apply sample_root_valid.
  - vm_compute. reflexivity.
  - reflexivity.
  - reflexivity.
  - discriminate.
  - reflexivity.
  - apply list_elem_of_In. simpl. tauto.
  - vm_compute. reflexivity.
Defined.

Lemma orphaned_no_admin : no_admin Cases.orphaned.
Proof.
  intros key profile _. unfold Cases.orphaned. cbn [kv].
  rewrite lookup_singleton_Some. intros [_ <-]. discriminate.
Qed.

(** With an observer as the only user, a signup asking for [admin] and
    the observer's own request for it leave the table without an
    administrator. *)
Lemma no_admin_is_final_witness :
  no_admin (run (H := Sample.platform) Cases.attempt Cases.orphaned) ∧
  (update_role (H := Sample.platform)
     (Sample.request "tok-alice" "u-alice" (JObj [("role", JStr "admin")]))
     (run (H := Sample.platform) Cases.attempt Cases.orphaned)
   = (json_error "Unauthorized" 401, run (H := Sample.platform) Cases.attempt Cases.orphaned)
   ∨ update_role (H := Sample.platform)
       (Sample.request "tok-alice" "u-alice" (JObj [("role", JStr "admin")]))
       (run (H := Sample.platform) Cases.attempt Cases.orphaned)
     = (json_error "Forbidden: Admin access required" 403,
        run (H := Sample.platform) Cases.attempt Cases.orphaned)).
Proof.
  apply (no_admin_is_final (H := Sample.platform) Cases.attempt Cases.orphaned
           (Sample.request "tok-alice" "u-alice" (JObj [("role", JStr "admin")]))).
  apply orphaned_no_admin.
Defined.

(** The sample table's one administrator makes themself an observer. *)
Lemma last_admin_can_step_down_witness :
  status (fst (update_role (H := Sample.platform)
                 (Sample.request "tok-root" "u-root" (JObj [("role", JStr "observer")]))
                 Sample.world)) = 200
  ∧ no_admin (snd (update_role (H := Sample.platform)
                     (Sample.request "tok-root" "u-root" (JObj [("role", JStr "observer")]))
                     Sample.world)).
Proof.
  apply (last_admin_can_step_down (H := Sample.platform)
           (Sample.request "tok-root" "u-root" (JObj [("role", JStr "observer")]))
           Sample.world Sample.root
           (JObj [("id", JStr "u-root"); ("role", JStr "admin")])
           (JObj [("role", JStr "observer")]) "observer").
  - apply sample_root_valid.
  - vm_compute. reflexivity.
  - reflexivity.
  - intros key other Hkey. unfold Sample.world. cbn [kv].
    rewrite !lookup_insert_Some, lookup_empty.
    intros [[<- _] | [_ [[<- _] | [_ [[<- <-] | [_ Hnone]]]]]] Hrole.
    + discriminate Hkey.
    + reflexivity.
    + discriminate Hrole.
    + discriminate Hnone.
  - reflexivity.
  - discriminate.
  - reflexivity.
  - apply list_elem_of_In. simpl. tauto.
  - discriminate.
  - reflexivity.
Defined.

(** A signup with the body [null]. *)
Lemma failed_signup_writes_nothing_witness :
  kv (snd (signup (H := Sample.platform) (Sample.request "" "" JNull) Sample.world))
  = kv Sample.world
  ∧ signup (H := Sample.platform) (Sample.request "" "" JNull) Sample.world
    = (json_error "Internal server error during signup" 500, Sample.world).
Proof.
  destruct (failed_signup_writes_nothing (H := Sample.platform)
              (Sample.request "" "" JNull) Sample.world) as [Hkv Hnull].
  split.
  - apply Hkv. vm_compute. discriminate.
  - apply Hnull. right. reflexivity.
Defined.

(** The observer creates a project and the administrator lists it. *)
Lemma created_project_is_listed_witness :
  ∃ project projects,
    fst (create_project (H := Sample.platform)
           (Sample.request "tok-alice" "" (JObj [("name", JStr "Bridge");
                                                 ("status", JStr "closed")]))
           Sample.world)
    = json_ok (JObj [("project", project)]) ∧
    Js.field project "status" = Some (JStr "active") ∧
    Js.field project "name" = Some (JStr "Bridge") ∧
    fst (list_projects (H := Sample.platform) (Sample.request "tok-root" "" JNull)
           (snd (create_project (H := Sample.platform)
                   (Sample.request "tok-alice" "" (JObj [("name", JStr "Bridge");
                                                         ("status", JStr "closed")]))
                   Sample.world)))
    = json_ok (JObj [("projects", JArr projects)]) ∧
    project ∈ projects.
Proof.
  destruct (created_project_is_listed (H := Sample.platform)
              (Sample.request "tok-alice" "" (JObj [("name", JStr "Bridge");
                                                    ("status", JStr "closed")]))
              (Sample.request "tok-root" "" JNull)
              Sample.world Sample.alice Sample.root
              (JObj [("name", JStr "Bridge"); ("status", JStr "closed")]))
    as (project & projects & Hanswer & _ & Hstatus & _ & Hfields & Hlist & Hin).
  - apply sample_alice_valid.
  - reflexivity.
  - discriminate.
  - apply sample_root_valid.
  - exists project, projects.
    split; [exact Hanswer|]. split; [exact Hstatus|].
    split; [|split; [exact Hlist | exact Hin]].
    apply List.Forall_inv in Hfields. exact Hfields.
Defined.

(** The sample table's one defect is scannable. *)
Lemma analytics_answers_iff_scannable_witness :
  (status (fst (analytics (H := Sample.platform) (Sample.request "tok-alice" "" JNull)
                  Sample.world)) = 200
   ↔ Forall (scannable (H := Sample.platform)) (stored_defects Sample.world))
  ∧ (status (fst (analytics (H := Sample.platform) (Sample.request "tok-alice" "" JNull)
                    Sample.world)) = 200
     ∨ fst (analytics (H := Sample.platform) (Sample.request "tok-alice" "" JNull)
              Sample.world)
       = json_error "Internal server error while fetching analytics" 500).
Proof.
  apply (analytics_answers_iff_scannable (H := Sample.platform)
           (Sample.request "tok-alice" "" JNull) Sample.world Sample.alice).
  apply sample_alice_valid.
Defined.

Lemma analytics_total_is_listing_size_witness :
  ∃ defects,
    fst (list_defects (H := Sample.platform) (Sample.request "tok-root" "" JNull)
           Sample.world)
    = json_ok (JObj [("defects", JArr defects)]) ∧
    Js.field (body (fst (analytics (H := Sample.platform)
                           (Sample.request "tok-alice" "" JNull) Sample.world)))
      "totalDefects"
    = Some (JNum (Z.of_nat (length defects))).
Proof.
  apply (analytics_total_is_listing_size (H := Sample.platform)
           (Sample.request "tok-alice" "" JNull) (Sample.request "tok-root" "" JNull)
           Sample.world Sample.alice Sample.root).
  - apply sample_alice_valid.
  - apply sample_root_valid.
  - apply sample_scannable.
Defined.

(** One defect before, two after. *)
Lemma created_defect_is_counted_witness :
  ∃ n,
    Js.field (body (fst (analytics (H := Sample.platform)
                           (Sample.request "tok-root" "" JNull) Sample.world)))
      "totalDefects" = Some (JNum n) ∧
    Js.field (body (fst (analytics (H := Sample.platform)
                           (Sample.request "tok-root" "" JNull)
                           (snd (create_defect (H := Sample.platform)
                                   (Sample.request "tok-alice" ""
                                      (JObj [("title", JStr "Leak");
                                             ("priority", JStr "Low")]))
                                   Sample.world)))))
      "totalDefects" = Some (JNum (n + 1)).
Proof.
  apply (created_defect_is_counted (H := Sample.platform)
           (Sample.request "tok-alice" ""
              (JObj [("title", JStr "Leak"); ("priority", JStr "Low")]))
           (Sample.request "tok-root" "" JNull)
           Sample.world Sample.alice Sample.root
           (JObj [("title", JStr "Leak"); ("priority", JStr "Low")])).
  - apply sample_alice_valid.
  - reflexivity.
  - discriminate.
  - eexists. vm_compute. reflexivity.
  - eexists. vm_compute. reflexivity.
  - vm_compute. reflexivity.
  - apply sample_root_valid.
  - apply sample_scannable.
Defined.

(** The observer creates a defect whose priority is
    [{"toString": null}]; the administrator's analytics fail. *)
Lemma unreadable_priority_breaks_analytics_witness :
  status (fst (create_defect (H := Sample.platform)
                 (Sample.request "tok-alice" ""
                    (JObj [("title", JStr "Leak"); ("priority", Cases.unreadable)]))
                 Sample.world)) = 200
  ∧ fst (analytics (H := Sample.platform) (Sample.request "tok-root" "" JNull)
           (snd (create_defect (H := Sample.platform)
                   (Sample.request "tok-alice" ""
                      (JObj [("title", JStr "Leak"); ("priority", Cases.unreadable)]))
                   Sample.world)))
    = json_error "Internal server error while fetching analytics" 500.
Proof.
  apply (unreadable_priority_breaks_analytics (H := Sample.platform)
           (Sample.request "tok-alice" ""
              (JObj [("title", JStr "Leak"); ("priority", Cases.unreadable)]))
           (Sample.request "tok-root" "" JNull)
           Sample.world Sample.alice Sample.root
           (JObj [("title", JStr "Leak"); ("priority", Cases.unreadable)])
           Cases.unreadable).
  - apply sample_alice_valid.
  - reflexivity.
  - discriminate.
  - reflexivity.
  - reflexivity.
  - apply sample_root_valid.
Defined.

(** [Basic tok-alice] is taken as [Bearer tok-alice] is. *)
Lemma scheme_is_not_checked_witness :
  accessToken (Sample.request "tok-alice" "d1" JNull) = Some "tok-alice"
  ∧ serve (H := Sample.platform) GetDefect (Sample.request "tok-alice" "d1" JNull)
      Sample.world
    = serve (H := Sample.platform) GetDefect
        {| authorization := Some "Basic tok-alice"; param_id := "d1";
           payload := Some JNull |}
        Sample.world.
Proof.
  apply (scheme_is_not_checked (H := Sample.platform) GetDefect
           (Sample.request "tok-alice" "d1" JNull)
           {| authorization := Some "Basic tok-alice"; param_id := "d1";
              payload := Some JNull |}
           Sample.world "Bearer" "Basic" "tok-alice"); reflexivity.
Defined.

(** ** The sidebar *)

Section Menu.

(** X17. The sidebar offers the four pages to each of the server's
    four roles and the administration page to [admin] alone; a role
    outside the four sees an empty menu, and without user information
    or with a falsy role the menu is the observer's. *)
Theorem menu_by_role userInfo :
  let role := AppSidebar.userRole userInfo in
  (map AppSidebar.url (AppSidebar.menuItems userInfo)
   = if includes_role (Some role)
     then (["/"; "/defects"; "/projects"; "/analytics"]
           ++ (if strict_equal (Some role) (Some (JStr "admin")) then ["/admin"] else []))%list
     else [])
  ∧ (Js.truthy (userInfo ≫= fun info => Js.field info "role") = false →
     role = JStr "observer").
Proof.
  cbv zeta. split.
  - unfold AppSidebar.menuItems.
    destruct (AppSidebar.userRole userInfo) as [| b | n | s | items | props];
      try reflexivity.
    cbn [includes_role validRoles existsb strict_equal AppSidebar.allMenuItems
         List.filter AppSidebar.allowed AppSidebar.roles].
    destruct (String.eqb_spec s "observer") as [->|_]; [reflexivity|].
    destruct (String.eqb_spec s "engineer") as [->|_]; [reflexivity|].
    destruct (String.eqb_spec s "manager") as [->|_]; [reflexivity|].
    destruct (String.eqb_spec s "admin") as [->|_]; reflexivity.
  - destruct userInfo as [info|]; [|done]. unfold AppSidebar.userRole. simpl.
    destruct info; try done. by intros ->.
Qed.

End Menu.

(** ** The defect list's filters *)

Section DefectFilters.
Context `{Platform}.
Variable toLowerCase : string → string.

Lemma filter_by_filter {A} (p : A → option bool) l shown :
  filter_by p l = Some shown →
  shown = List.filter (fun x => match p x with Some true => true | _ => false end) l.
Proof.
  revert shown. induction l as [|x l IH]; intros shown; simpl.
  - by intros [= <-].
  - destruct (p x) as [keep|]; [|done].
    destruct (filter_by p l) as [kept|]; [|done].
    intros [= <-]. rewrite (IH kept eq_refl). by destruct keep.
Qed.

Lemma filter_by_throws {A} (p : A → option bool) l x :
  x ∈ l → p x = None → filter_by p l = None.
Proof.
  intros Hin Hx. induction l as [|y l IH]; [by apply not_elem_of_nil in Hin|].
  apply elem_of_cons in Hin as [<-|Hin]; simpl.
  - by rewrite Hx.
  - rewrite (IH Hin). by destruct (p y).
Qed.

Lemma all_or_true filter v :
  DefectsPage.all_or filter v = true → filter = "all" ∨ v = Some (JStr filter).
Proof.
  unfold DefectsPage.all_or. destruct (String.eqb_spec filter "all"); [by left|].
  simpl. intros Heq. right.
  destruct v as [[| | |s| |]|]; try done.
  simpl in Heq. by apply String.eqb_eq in Heq as ->.
Qed.

Lemma untitled_throws f defect :
  ¬ DefectsPage.titled defect → DefectsPage.matches toLowerCase f defect = None.
Proof.
  intros Hno. unfold DefectsPage.matches.
  destruct (Js.prop defect "title") as [[[| | |s| |]|]|] eqn:Htitle; try done.
  destruct Hno. by exists s.
Qed.

(** X18. When the defect list's filter returns, it returns exactly the
    defects its callback accepts, in their order; each of them has the
    status, priority and project asked for unless that filter is [all],
    and its title or description, in lower case, contains the search
    term in lower case. *)
Theorem filtered_defects_meet_filters f defects shown :
  DefectsPage.filteredDefects toLowerCase f defects = Some shown →
  shown = List.filter
            (fun d => match DefectsPage.matches toLowerCase f d with
                      | Some true => true
                      | _ => false
                      end) defects
  ∧ Forall (fun d =>
      (DefectsPage.statusFilter f = "all"
       ∨ Js.field d "status" = Some (JStr (DefectsPage.statusFilter f)))
      ∧ (DefectsPage.priorityFilter f = "all"
         ∨ Js.field d "priority" = Some (JStr (DefectsPage.priorityFilter f)))
      ∧ (DefectsPage.projectFilter f = "all"
         ∨ Js.field d "projectId" = Some (JStr (DefectsPage.projectFilter f)))
      ∧ ∃ s, (Js.field d "title" = Some (JStr s)
              ∨ Js.field d "description" = Some (JStr s))
             ∧ includes (toLowerCase s) (toLowerCase (DefectsPage.searchTerm f)) = true)
      shown.
Proof.
  intros Hshown. apply filter_by_filter in Hshown. split; [done|].
  rewrite Hshown. apply List.Forall_forall. intros d [_ Hd]%List.filter_In.
  unfold DefectsPage.matches in Hd.
  destruct (json_null_dec d) as [->|Hnn]; [done|].
  rewrite prop_field in Hd by done.
  destruct (Js.field d "title") as [[| | |s| |]|] eqn:Htitle; try done.
  cbn [DefectsPage.lower_includes] in Hd.
  assert (∀ found,
            match found with
            | Some matchesSearch =>
                Some (matchesSearch
                      && DefectsPage.all_or (DefectsPage.statusFilter f) (Js.field d "status")
                      && DefectsPage.all_or (DefectsPage.priorityFilter f)
                           (Js.field d "priority")
                      && DefectsPage.all_or (DefectsPage.projectFilter f)
                           (Js.field d "projectId"))
            | None => None
            end = Some true →
            found = Some true
            ∧ DefectsPage.all_or (DefectsPage.statusFilter f) (Js.field d "status") = true
            ∧ DefectsPage.all_or (DefectsPage.priorityFilter f) (Js.field d "priority") = true
            ∧ DefectsPage.all_or (DefectsPage.projectFilter f) (Js.field d "projectId") = true)
    as Hsplit.
  { intros [found|]; [|done]. intros [= Hall].
    apply andb_true_iff in Hall as [Hall Hproject].
    apply andb_true_iff in Hall as [Hall Hpriority].
    apply andb_true_iff in Hall as [-> Hstatus]. done. }
  destruct (includes (toLowerCase s) _) eqn:Hin.
  - destruct (Hsplit (Some true)) as (_ & Hs & Hp & Hj).
    { by destruct (DefectsPage.all_or _ _), (DefectsPage.all_or _ _),
        (DefectsPage.all_or _ _). }
    repeat (split; [by apply all_or_true|]). exists s. split; [by left | done].
  - destruct (DefectsPage.lower_includes toLowerCase (Js.field d "description") _)
      as [found|] eqn:Hdesc; [|done].
    destruct (Hsplit (Some found)) as ([= ->] & Hs & Hp & Hj).
    { by destruct found, (DefectsPage.all_or _ _), (DefectsPage.all_or _ _),
        (DefectsPage.all_or _ _). }
    repeat (split; [by apply all_or_true|]).
    unfold DefectsPage.lower_includes in Hdesc.
    destruct (Js.field d "description") as [[| | |s'| |]|]; try done.
    injection Hdesc as Hdesc. exists s'. split; [by right | done].
Qed.

(** X19. With the filters as the page starts with them, the list shows
    every defect when each has a string as its title; one defect
    without such a title, anywhere in the list, makes the filter throw
    whatever the filters are. *)
Theorem list_needs_titles defects :
  toLowerCase "" = "" →
  (Forall DefectsPage.titled defects →
   DefectsPage.filteredDefects toLowerCase DefectsPage.initial defects = Some defects)
  ∧ (∀ f d, d ∈ defects → ¬ DefectsPage.titled d →
            DefectsPage.filteredDefects toLowerCase f defects = None).
Proof.
  intros Hlower. split.
  - induction 1 as [|d defects [s Hd] _ IH]; [done|].
    unfold DefectsPage.filteredDefects in *. cbn [filter_by]. rewrite IH.
    unfold DefectsPage.matches. rewrite Hd.
    cbn [DefectsPage.lower_includes DefectsPage.initial DefectsPage.searchTerm].
    rewrite Hlower.
    assert (includes (toLowerCase s) "" = true) as ->; [|done].
    by destruct (toLowerCase s).
  - intros f d Hin Hno. eapply filter_by_throws; [exact Hin|].
    by apply untitled_throws.
Qed.

(** X20. The server stores a defect whose title is not a string, and
    the list it then answers makes the page's filter throw, whatever
    the filters and for every user. *)
Theorem untitled_defect_breaks_list r r' w user user' data :
  valid_token r user → payload r = Some data → data ≠ JNull →
  (∀ s, Js.field data "title" ≠ Some (JStr s)) →
  valid_token r' user' →
  status (fst (create_defect r w)) = 200 ∧
  ∃ defects,
    fst (list_defects r' (snd (create_defect r w)))
    = json_ok (JObj [("defects", JArr defects)]) ∧
    ∀ f, DefectsPage.filteredDefects toLowerCase f defects = None.
Proof.
  intros Hv Hp Hd Htitle Hv'.
  destruct (create_defect_run r w user data Hv Hp Hd)
    as (defect & entry & Hdefect & Hentry & Hrun).
  destruct (create_defect_stored r w user data Hv Hp Hd)
    as (defect' & Hanswer & _ & _ & _ & _ & Hin & _).
  split; [by rewrite Hanswer|].
  exists (stored_defects (snd (create_defect r w))). split.
  - unfold list_defects, guarded. by rewrite (authenticated_valid _ _ _ Hv').
  - intros f. eapply filter_by_throws; [exact Hin|]. apply untitled_throws.
    rewrite Hrun in Hanswer. injection Hanswer as <-.
    intros [s Hs]. rewrite Hdefect in Hs. unfold Js.literal in Hs.
    cbn [Js.prop] in Hs. rewrite own_literal in Hs. simpl in Hs.
    destruct (Js.field data "title") as [title|] eqn:Ht; [|done].
    injection Hs as ->. by destruct (Htitle s).
Qed.

End DefectFilters.

(** ** The numbers on a project card *)

Section ProjectStats.
Context `{Platform}.

Lemma filter_m_within {A} (p : A → M bool) (q : A → bool) l :
  (∀ x w w', p x w = (Ok true, w') → q x = true) →
  ∀ w kept w', ProjectsPage.filter_m p l w = (Ok kept, w') →
               kept `sublist_of` List.filter q l.
Proof.
  intros Hpq. induction l as [|x l IH]; intros w kept w'; cbn [ProjectsPage.filter_m].
  - intros [= <- _]. constructor.
  - unfold bind at 1. destruct (p x w) as [[keep|] w1] eqn:Hx; [|done].
    unfold bind at 1.
    destruct (ProjectsPage.filter_m p l w1) as [[rest|] w2] eqn:Hrest; [|done].
    intros [= <- _]. specialize (IH _ _ _ Hrest). cbn [List.filter].
    destruct keep.
    + rewrite (Hpq _ _ _ Hx). by apply sublist_skip.
    + destruct (q x); [by apply sublist_cons | done].
Qed.

Lemma is_overdue_open d w w' :
  is_overdue d w = (Ok true, w') → ProjectsPage.has_status "Закрыта" d = false.
Proof.
  destruct (json_null_dec d) as [->|Hd]; [intros _; reflexivity|].
  unfold is_overdue, get, ProjectsPage.has_status. rewrite !prop_field by done.
  unfold lift, bind, ret, throw, now. cbn beta iota.
  destruct (Js.truthy (Js.field d "dueDate")); [|intros [=]].
  destruct (new_Date (Js.field d "dueDate")) as [[t|]|]; cbn beta iota;
    [|intros [=] ..].
  destruct (t <? clock (reads w)); [|intros [=]].
  intros Hrun. injection Hrun as Hstatus _.
  destruct (Js.field d "status") as [[| | |s| |]|]; try done.
  simpl in *. by destruct (String.eqb s "Закрыта").
Qed.

Lemma filter_length_within {A} (p q : A → bool) l :
  (∀ x, p x = true → q x = true) →
  (length (List.filter p l) ≤ length (List.filter q l))%nat.
Proof.
  intros Hpq. induction l as [|x l IH]; simpl; [lia|].
  destruct (p x) eqn:Hp.
  - rewrite (Hpq x Hp). simpl. lia.
  - destruct (q x); simpl; lia.
Qed.

(** X21. The numbers a project card shows fit together: no defect is
    counted both as completed and as overdue, or both as completed and
    as active, so either pair adds up to at most the project's total,
    which is at most the number of defects loaded. *)
Theorem project_stats_fit projectId defects w stats w' :
  ProjectsPage.getProjectStats projectId defects w = (Ok stats, w') →
  (ProjectsPage.totalDefects stats ≤ length defects)%nat
  ∧ (ProjectsPage.completedDefects stats + ProjectsPage.overdueDefects stats
     ≤ ProjectsPage.totalDefects stats)%nat
  ∧ (ProjectsPage.completedDefects stats + ProjectsPage.activeDefects stats
     ≤ ProjectsPage.totalDefects stats)%nat.
Proof.
  unfold ProjectsPage.getProjectStats. unfold bind at 1.
  destruct (ProjectsPage.filter_m _ defects w) as [[mine|] w1] eqn:Hmine; [|done].
  unfold bind at 1.
  destruct (ProjectsPage.filter_m is_overdue mine w1) as [[late|] w2] eqn:Hlate; [|done].
  intros [= <- _].
  cbn [ProjectsPage.totalDefects ProjectsPage.completedDefects
       ProjectsPage.activeDefects ProjectsPage.overdueDefects].
  apply (filter_m_within _ (fun _ => true)) in Hmine; [|done].
  apply (filter_m_within _ (fun d => negb (ProjectsPage.has_status "Закрыта" d)))
    in Hlate.
  2:{ intros d w0 w0' Hd. by rewrite (is_overdue_open d w0 w0' Hd). }
  apply sublist_length in Hmine, Hlate.
  pose proof (List.filter_length_le (fun _ : json => true) defects) as Hle.
  pose proof (List.filter_length (ProjectsPage.has_status "Закрыта") mine) as Hsum.
  pose proof (filter_length_within (ProjectsPage.has_status "В работе")
                (fun d => negb (ProjectsPage.has_status "Закрыта" d)) mine) as Hactive.
  split; [lia|]. split; [lia|].
  assert (length (List.filter (ProjectsPage.has_status "В работе") mine)
          ≤ length (List.filter (fun d => negb (ProjectsPage.has_status "Закрыта" d)) mine))%nat;
    [|lia].
  apply Hactive. intros d. unfold ProjectsPage.has_status.
  destruct (Js.field d "status") as [[| | |s| |]|]; try done. simpl.
  destruct (String.eqb_spec s "В работе") as [->|]; done.
Qed.

End ProjectStats.

Section ProjectOverdue.
Context `{Platform}.

Lemma filter_m_pure {A} (p : A → M bool) (q : A → bool) (good : World → Prop) l :
  (∀ x w, x ∈ l → good w → ∃ w', p x w = (Ok (q x), w') ∧ good w') →
  ∀ w, good w →
       ∃ w', ProjectsPage.filter_m p l w = (Ok (List.filter q l), w') ∧ good w'.
Proof.
  induction l as [|x l IH]; intros Hp w Hw; cbn [ProjectsPage.filter_m List.filter].
  - by exists w.
  - destruct (Hp x w) as (w1 & Hx & Hw1); [by left | done |].
    destruct (IH (fun y w0 Hy => Hp y w0 (list_elem_of_further _ _ _ Hy)) w1 Hw1)
      as (w2 & Hrest & Hw2).
    exists w2. split; [|done].
    unfold bind at 1. rewrite Hx. unfold bind at 1. rewrite Hrest.
    by destruct (q x).
Qed.

(** With the clock standing at [now] and every loaded defect not
    [null], with a due date that converts to a date, the card's
    numbers are the lengths of the lists its tests select. *)
Lemma project_stats_count projectId defects w now :
  Forall (fun d => d ≠ JNull ∧ is_Some (new_Date (Js.field d "dueDate"))) defects →
  (∀ i, (reads w ≤ i)%nat → clock i = now) →
  let mine := List.filter (fun d => strict_equal (Js.field d "projectId") projectId)
                defects in
  ∃ w',
    ProjectsPage.getProjectStats projectId defects w
    = (Ok {| ProjectsPage.totalDefects := length mine;
             ProjectsPage.completedDefects :=
               length (List.filter (ProjectsPage.has_status "Закрыта") mine);
             ProjectsPage.activeDefects :=
               length (List.filter (ProjectsPage.has_status "В работе") mine);
             ProjectsPage.overdueDefects :=
               length (List.filter (overdue_at now) mine) |}, w').
Proof.
  intros Hgood Hclock mine.
  set (good := fun w0 : World => ∀ i, (reads w0 ≤ i)%nat → clock i = now).
  rewrite List.Forall_forall in Hgood.
  destruct (filter_m_pure
              (fun d => let* id := get d "projectId" in ret (strict_equal id projectId))
              (fun d => strict_equal (Js.field d "projectId") projectId)
              good defects) with (w := w) as (w1 & Hmine & Hw1); [|done|].
  { intros d w0 Hd Hw0. exists w0. split; [|done].
    destruct (Hgood d) as [Hnn _]; [by apply list_elem_of_In|].
    unfold get. by rewrite prop_field. }
  destruct (filter_m_pure is_overdue (overdue_at now) good mine) with (w := w1)
    as (w2 & Hlate & _); [|done|].
  { intros d w0 Hd Hw0.
    apply list_elem_of_In, List.filter_In in Hd as [Hd _].
    destruct (Hgood d Hd) as [Hnn Hdue].
    destruct (is_overdue_run d w0 Hnn Hdue) as (w0' & Hrun & _ & Hreads).
    exists w0'. rewrite Hrun, (Hw0 (reads w0)) by lia. split; [done|].
    intros i Hi. apply Hw0. lia. }
  exists w2. subst mine. unfold ProjectsPage.getProjectStats.
  unfold bind at 1. rewrite Hmine. unfold bind at 1. by rewrite Hlate.
Qed.

End ProjectOverdue.

(** ** The pages on sample data *)

(** Without user information the menu is the observer's. *)
Lemma menu_by_role_witness :
  map AppSidebar.url (AppSidebar.menuItems None)
  = ["/"; "/defects"; "/projects"; "/analytics"]
  ∧ AppSidebar.userRole None = JStr "observer".
Proof.
  destruct (menu_by_role None) as [Hmenu Hrole].
  split; [exact Hmenu | apply Hrole; reflexivity].
Defined.

(** Searching [CRACK] among the new defects: the leak's description
    matches but it is closed. *)
Lemma filtered_defects_meet_filters_witness :
  [PageCases.crack]
  = List.filter
      (fun d => match DefectsPage.matches PageCases.lower PageCases.search d with
                | Some true => true
                | _ => false
                end) [PageCases.crack; PageCases.leak]
  ∧ Forall (fun d =>
      (DefectsPage.statusFilter PageCases.search = "all"
       ∨ Js.field d "status" = Some (JStr (DefectsPage.statusFilter PageCases.search)))
      ∧ (DefectsPage.priorityFilter PageCases.search = "all"
         ∨ Js.field d "priority"
           = Some (JStr (DefectsPage.priorityFilter PageCases.search)))
      ∧ (DefectsPage.projectFilter PageCases.search = "all"
         ∨ Js.field d "projectId"
           = Some (JStr (DefectsPage.projectFilter PageCases.search)))
      ∧ ∃ s, (Js.field d "title" = Some (JStr s)
              ∨ Js.field d "description" = Some (JStr s))
             ∧ includes (PageCases.lower s)
                 (PageCases.lower (DefectsPage.searchTerm PageCases.search)) = true)
      [PageCases.crack].
Proof.
  apply (filtered_defects_meet_filters PageCases.lower PageCases.search
           [PageCases.crack; PageCases.leak] [PageCases.crack]).
  vm_compute. reflexivity.
Defined.

Lemma list_needs_titles_witness :
  DefectsPage.filteredDefects PageCases.lower DefectsPage.initial
    [PageCases.crack; PageCases.leak]
  = Some [PageCases.crack; PageCases.leak]
  ∧ DefectsPage.filteredDefects PageCases.lower PageCases.search
      [PageCases.crack; JObj [("id", JStr "d3"); ("title", JNum 7)]]
    = None.
Proof.
  split.
  - destruct (list_needs_titles PageCases.lower [PageCases.crack; PageCases.leak])
      as [Hall _]; [reflexivity|].
    apply Hall. repeat constructor; eexists; reflexivity.
  - destruct (list_needs_titles PageCases.lower
                [PageCases.crack; JObj [("id", JStr "d3"); ("title", JNum 7)]])
      as [_ Hthrows]; [reflexivity|].
    apply (Hthrows PageCases.search (JObj [("id", JStr "d3"); ("title", JNum 7)])).
    + apply list_elem_of_In. simpl. tauto.
    + intros [s Hs]. discriminate Hs.
Defined.

(** The observer creates a defect with no title. *)
Lemma untitled_defect_breaks_list_witness :
  status (fst (create_defect (H := Sample.platform)
                 (Sample.request "tok-alice" "" (JObj [("priority", JStr "Low")]))
                 Sample.world)) = 200
  ∧ ∃ defects,
      fst (list_defects (H := Sample.platform) (Sample.request "tok-root" "" JNull)
             (snd (create_defect (H := Sample.platform)
                     (Sample.request "tok-alice" "" (JObj [("priority", JStr "Low")]))
                     Sample.world)))
      = json_ok (JObj [("defects", JArr defects)])
      ∧ ∀ f, DefectsPage.filteredDefects PageCases.lower f defects = None.
Proof.
  apply (untitled_defect_breaks_list (H := Sample.platform) PageCases.lower
           (Sample.request "tok-alice" "" (JObj [("priority", JStr "Low")]))
           (Sample.request "tok-root" "" JNull)
           Sample.world Sample.alice Sample.root (JObj [("priority", JStr "Low")])).
  - apply sample_alice_valid.
  - reflexivity.
  - discriminate.
  - intros s Hs. discriminate Hs.
  - apply sample_root_valid.
Defined.

(** The card of the defects without a project: [d1] is in work and
    overdue. *)
Lemma project_stats_fit_witness :
  (ProjectsPage.totalDefects PageCases.card
   ≤ length [Sample.defect1; PageCases.crack])%nat
  ∧ (ProjectsPage.completedDefects PageCases.card
     + ProjectsPage.overdueDefects PageCases.card
     ≤ ProjectsPage.totalDefects PageCases.card)%nat
  ∧ (ProjectsPage.completedDefects PageCases.card
     + ProjectsPage.activeDefects PageCases.card
     ≤ ProjectsPage.totalDefects PageCases.card)%nat.
Proof.
  apply (project_stats_fit (H := Sample.platform) None
           [Sample.defect1; PageCases.crack] Sample.world
           PageCases.card (tick Sample.world)).
  vm_compute. reflexivity.
Defined.


(** ** The shape of the answers *)

Section Answers.
Context `{Platform}.
Variable P : Response → Prop.

Lemma yields_ret resp : P resp → yields P (ret resp).
Proof. by intros Hresp w. Qed.

Lemma yields_throw : yields P throw.
Proof. by intros w. Qed.

Lemma yields_bind {A} (m : M A) (k : A → M Response) :
  (∀ a, yields P (k a)) → yields P (bind m k).
Proof.
  intros Hk w. unfold bind. destruct (m w) as [[a|] w1]; [apply Hk | done].
Qed.

Lemma yields_authenticated r k :
  P (json_error "Unauthorized" 401) → (∀ user, yields P (k user)) →
  yields P (authenticated r k).
Proof.
  intros Hno Hk. unfold authenticated.
  destruct (accessToken r) as [token|]; [|by apply yields_ret].
  destruct (String.eqb token ""); [by apply yields_ret|].
  destruct (verifyAuth token); [apply Hk | by apply yields_ret].
Qed.

Lemma yields_guarded message m w :
  yields P m → P (json_error message 500) → P (fst (guarded message m w)).
Proof.
  intros Hm Hthrow. unfold guarded. specialize (Hm w).
  by destruct (m w) as [[resp|] w1].
Qed.

End Answers.

(** One step along the text of a route. *)
Ltac answer_step :=
  match goal with
  | |- yields ?P (ret _) => apply (yields_ret P)
  | |- yields ?P throw => apply (yields_throw P)
  | |- yields ?P (authenticated _ _) => apply (yields_authenticated P); [|intros ?]
  | |- yields ?P (bind _ _) => apply (yields_bind P); intros ?
  | |- yields _ (if ?b then _ else _) => destruct b
  | |- yields _ (match ?x with _ => _ end) => destruct x
  end.

(** A leaf: the answer is a grant or one of the refusals. *)
Ltac answer_leaf :=
  first
    [ left; split; [reflexivity | eexists; reflexivity]
    | right; eexists; split; [reflexivity|]; split;
      [discriminate | apply list_elem_of_In; simpl; tauto] ].

Section AnswerShapes.
Context `{Platform}.

(** Every answer of a route behind the token check is a grant or a
    refusal. *)
Lemma serve_answers route r w :
  grant (fst (serve route r w)) ∨ refusal (fst (serve route r w)).
Proof.
  destruct route; cbn [serve];
    unfold list_projects, create_project, list_defects, create_defect, update_defect,
      get_defect, add_comment, analytics, list_users, update_role;
    (apply (yields_guarded (fun resp => grant resp ∨ refusal resp));
     [repeat answer_step; answer_leaf | answer_leaf]).
Qed.

(** X23. Every answer of the ten routes behind the token check is
    either a 200 with an object or an object [{"error": message}] with
    a message that is not empty and status 400, 401, 403, 404 or 500;
    the client's request helper returns the object of the first and
    throws an error carrying the server's message for the second, never
    its fallbacks [Network error] or [HTTP <status>]. *)
Theorem refusals_reach_the_caller route r w :
  let resp := fst (serve route r w) in
  (grant resp ∧ Api.apiRequest (status resp) (Some (body resp)) = Api.Returned (body resp))
  ∨ (refusal resp
     ∧ ∃ message, body resp = JObj [("error", JStr message)]
                  ∧ Api.apiRequest (status resp) (Some (body resp))
                    = Api.Thrown message).
Proof.
  cbv zeta. destruct (serve_answers route r w) as [Hgrant | Hrefusal].
  - left. split; [done|]. destruct Hgrant as [-> _]. reflexivity.
  - right. split; [done|]. destruct Hrefusal as (message & Hresp & Hne & Hcode).
    exists message. rewrite Hresp. cbn [body status json_error].
    split; [done|]. unfold Api.apiRequest.
    assert ((200 <=? status (fst (serve route r w)))
            && (status (fst (serve route r w)) <=? 299) = false) as ->.
    { apply list_elem_of_In in Hcode. simpl in Hcode.
      destruct Hcode as [<-|[<-|[<-|[<-|[<-|[]]]]]]; reflexivity. }
    cbn [default Js.prop Js.own]. simpl.
    destruct (String.eqb_spec message "") as [->|_]; [done | reflexivity].
Qed.

End AnswerShapes.

(** ** The history on a defect's page *)

Section HistoryOrder.
Context `{Platform}.

Lemma newer_first_dated a b :
  DefectDetailPage.dated a → DefectDetailPage.dated b →
  DefectDetailPage.newer_first a b
  = Z.compare (DefectDetailPage.stamp b) (DefectDetailPage.stamp a).
Proof.
  intros [ta Ha] [tb Hb]. unfold DefectDetailPage.newer_first, DefectDetailPage.stamp.
  by rewrite Ha, Hb.
Qed.

Lemma insert_newer_sorted x l :
  DefectDetailPage.dated x → Forall DefectDetailPage.dated l →
  StronglySorted (fun a b => DefectDetailPage.stamp b ≤ DefectDetailPage.stamp a) l →
  StronglySorted (fun a b => DefectDetailPage.stamp b ≤ DefectDetailPage.stamp a)
    (insert_by DefectDetailPage.newer_first x l).
Proof.
  intros Hx. induction l as [|y l IH]; simpl.
  - intros _ _. repeat constructor.
  - intros Hdated Hsorted. apply Forall_cons in Hdated as [Hy Hdated].
    apply StronglySorted_inv in Hsorted as [Hrest Hhd].
    rewrite (newer_first_dated x y Hx Hy).
    destruct (Z.compare_spec (DefectDetailPage.stamp y) (DefectDetailPage.stamp x))
      as [Heq|Hlt|Hgt].
    + constructor; [by apply IH|].
      rewrite insert_by_perm. constructor; [lia | done].
    + constructor; [by constructor|].
      constructor; [lia|]. eapply Forall_impl; [exact Hhd|]. simpl. lia.
    + constructor; [by apply IH|].
      rewrite insert_by_perm. constructor; [lia | done].
Qed.

Lemma sort_newer_sorted l :
  Forall DefectDetailPage.dated l →
  StronglySorted (fun a b => DefectDetailPage.stamp b ≤ DefectDetailPage.stamp a)
    (sort_by DefectDetailPage.newer_first l).
Proof.
  unfold sort_by. intros Hl.
  assert (∀ acc, Forall DefectDetailPage.dated acc →
                 StronglySorted
                   (fun a b => DefectDetailPage.stamp b ≤ DefectDetailPage.stamp a) acc →
                 StronglySorted
                   (fun a b => DefectDetailPage.stamp b ≤ DefectDetailPage.stamp a)
                   (fold_left (fun sorted x => insert_by DefectDetailPage.newer_first x sorted)
                      l acc)) as Hgen.
  { induction Hl as [|x l Hx Hl IH]; intros acc Hacc Hsorted; simpl; [done|].
    apply IH.
    - rewrite insert_by_perm. by constructor.
    - by apply insert_newer_sorted. }
  apply Hgen; constructor.
Qed.

(** X24. The history on a defect's page is shown newest first: when
    every entry's timestamp is a valid date, the entries shown are the
    entries answered, each once, in descending order of their time. *)
Theorem history_shown_newest_first history :
  Forall DefectDetailPage.dated history →
  ∃ shown,
    DefectDetailPage.shown_history history = Some shown ∧
    shown ≡ₚ history ∧
    StronglySorted (fun a b => DefectDetailPage.stamp b ≤ DefectDetailPage.stamp a) shown.
Proof.
  intros Hdated. exists (sort_by DefectDetailPage.newer_first history).
  split; [|split; [apply sort_by_perm | by apply sort_newer_sorted]].
  unfold DefectDetailPage.shown_history.
  destruct history as [|a [|b rest]]; [done..|].
  assert (forallb (fun entry => match DefectDetailPage.time_of entry with
                                | Some _ => true
                                | None => false
                                end) (a :: b :: rest) = true) as ->; [|done].
  apply forallb_forall. intros e He. apply list_elem_of_In in He.
  rewrite Forall_forall in Hdated. destruct (Hdated e He) as [t ->]. done.
Qed.

End HistoryOrder.

Section HistoryOnPage.
Context `{Platform}.

Lemma append_inj (s a b : string) : s +:+ a = s +:+ b → a = b.
Proof.
  induction s as [|c s IH]; [done|].
  rewrite !DateFacts.append_cons. intros [= Heq]. by apply IH.
Qed.

Lemma time_of_literal fields t :
  literal_own "timestamp" fields None = Some (JStr (Date.toISOString t)) →
  parseDate (Date.toISOString t) = Some t →
  DefectDetailPage.time_of (Js.literal fields) = Some (Some t).
Proof.
  intros Hfield Hparse. unfold DefectDetailPage.time_of, Js.literal.
  cbn [Js.prop]. rewrite own_literal. cbn [Js.own]. rewrite Hfield.
  simpl. by rewrite Hparse.
Qed.

(** X25. Create a defect, update it, open its page: when the clock
    has moved on between the two history entries, their timestamps read
    back as the times they were written and the ids drawn differ, the
    page shows exactly two entries, the update above the creation,
    in whatever order the store lists them. *)
Theorem update_is_shown_above_creation
    r1 r2 r3 w user1 user2 user3 data updates :
  valid_token r1 user1 → payload r1 = Some data → data ≠ JNull →
  valid_token r2 user2 → payload r2 = Some updates → updates ≠ JNull →
  param_id r2 = uuid (draws w) →
  valid_token r3 user3 → param_id r3 = uuid (draws w) →
  (∀ key, String.prefix ("history:" +:+ uuid (draws w) +:+ ":") key = true →
          kv w !! key = None) →
  uuid (S (draws w)) ≠ uuid (S (S (draws w))) →
  parseDate (Date.toISOString (clock (2 + reads w))) = Some (clock (2 + reads w)) →
  parseDate (Date.toISOString (clock (4 + reads w))) = Some (clock (4 + reads w)) →
  clock (2 + reads w) < clock (4 + reads w) →
  ∃ defect history created updated,
    fst (get_defect r3 (snd (update_defect r2 (snd (create_defect r1 w)))))
    = json_ok (JObj [("defect", defect); ("history", JArr history)]) ∧
    DefectDetailPage.shown_history history = Some [updated; created] ∧
    Js.field created "action" = Some (JStr "created") ∧
    Js.field updated "action" = Some (JStr "updated").
Proof.
  intros Hv1 Hp1 Hd1 Hv2 Hp2 Hd2 Hid2 Hv3 Hid3 Hnew Hids Hparse1 Hparse2 Hclock.
  destruct (create_defect_run r1 w user1 data Hv1 Hp1 Hd1)
    as (defect & entry1 & Hdefect & Hentry1 & Hrun1).
  rewrite Hrun1. cbn [snd].
  set (id := uuid (draws w)) in *.
  set (hkey1 := "history:" +:+ id +:+ ":" +:+ uuid (S (draws w))) in *.
  set (w1 := Build_World _ _ _ _).
  assert (hkey1 ≠ "defect:" +:+ id) as Hk1 by apply defect_key_not_history.
  destruct (update_defect_run r2 w1 user2 updates defect Hv2 Hp2 Hd2)
    as (merged & entry2 & Hmerged & Hentry2 & Hrun2).
  { rewrite Hid2. subst w1. cbn [kv]. by rewrite lookup_insert_ne, lookup_insert_eq. }
  { by rewrite Hdefect. }
  rewrite Hrun2. cbn [snd]. rewrite Hid2 in *. subst w1. cbn [kv draws reads] in *.
  set (hkey2 := "history:" +:+ id +:+ ":" +:+ uuid (S (S (draws w)))) in *.
  assert (hkey2 ≠ "defect:" +:+ id) as Hk2 by apply defect_key_not_history.
  assert (hkey2 ≠ hkey1) as Hk12.
  { intros Heq. apply Hids. symmetry. subst hkey1 hkey2.
    by do 3 apply append_inj in Heq. }
  assert (DefectDetailPage.time_of entry1 = Some (Some (clock (2 + reads w)))) as Ht1.
  { rewrite Hentry1. by apply time_of_literal. }
  assert (DefectDetailPage.time_of entry2 = Some (Some (clock (4 + reads w)))) as Ht2.
  { rewrite Hentry2. by apply time_of_literal. }
  unfold get_defect, guarded. rewrite (authenticated_valid _ _ _ Hv3).
  cbn [lift bind ret kv_get kv]. rewrite Hid3. fold id.
  rewrite lookup_insert_ne, lookup_insert_eq by done.
  assert (Js.truthy (Some merged) = true) as -> by (by rewrite Hmerged).
  cbn [negb lift bind ret kv_getByPrefix kv default fst].
  eexists merged, _, entry1, entry2. split; [reflexivity|].
  split; [|split; [by rewrite Hentry1 | by rewrite Hentry2]].
  match goal with |- DefectDetailPage.shown_history ?l = _ => set (entries := l) end.
  assert (entries ≡ₚ [entry2; entry1]) as Hperm.
  { subst entries.
    rewrite by_prefix_insert_new; [|apply prefix_history_key|].
    - apply Permutation_skip.
      rewrite by_prefix_insert_other by reflexivity.
      rewrite by_prefix_insert_new; [|apply prefix_history_key|].
      + apply Permutation_skip.
        rewrite by_prefix_insert_other by reflexivity.
        by rewrite by_prefix_none.
      + rewrite lookup_insert_ne by done. apply Hnew, prefix_history_key.
    - rewrite !lookup_insert_ne by done. apply Hnew, prefix_history_key. }
  assert (DefectDetailPage.newer_first entry2 entry1 = Lt) as Hlt.
  { unfold DefectDetailPage.newer_first. rewrite Ht1, Ht2. by apply Z.compare_lt_iff. }
  assert (DefectDetailPage.newer_first entry1 entry2 = Gt) as Hgt.
  { unfold DefectDetailPage.newer_first. rewrite Ht1, Ht2. by apply Z.compare_gt_iff. }
  symmetry in Hperm. apply Permutation_length_2_inv in Hperm as [-> | ->];
    unfold DefectDetailPage.shown_history; cbn [forallb]; rewrite Ht1, Ht2;
    cbn [andb sort_by fold_left insert_by]; by rewrite ?Hlt, ?Hgt.
Qed.

End HistoryOnPage.

(** Two entries answered oldest first are shown newest first. *)
Lemma history_shown_newest_first_witness :
  ∃ shown,
    DefectDetailPage.shown_history (H := Sample.platform)
      [PageCases.first_entry; PageCases.second_entry] = Some shown ∧
    shown ≡ₚ [PageCases.first_entry; PageCases.second_entry] ∧
    StronglySorted
      (fun a b => DefectDetailPage.stamp (H := Sample.platform) b
                  ≤ DefectDetailPage.stamp (H := Sample.platform) a) shown.
Proof.
  apply (history_shown_newest_first (H := Sample.platform)
           [PageCases.first_entry; PageCases.second_entry]).
  repeat constructor; eexists; vm_compute; reflexivity.
Defined.

(** The observer creates a defect, the administrator changes its
    status an hour later and opens its page. *)
Lemma update_is_shown_above_creation_witness :
  ∃ defect history created updated,
    fst (get_defect (H := PageCases.ticking) (Sample.request "tok-root" "id-0" JNull)
           (snd (update_defect (H := PageCases.ticking)
                   (Sample.request "tok-root" "id-0" (JObj [("status", JStr "В работе")]))
                   (snd (create_defect (H := PageCases.ticking)
                           (Sample.request "tok-alice" "" (JObj [("title", JStr "Leak")]))
                           Sample.world)))))
    = json_ok (JObj [("defect", defect); ("history", JArr history)]) ∧
    DefectDetailPage.shown_history (H := PageCases.ticking) history
    = Some [updated; created] ∧
    Js.field created "action" = Some (JStr "created") ∧
    Js.field updated "action" = Some (JStr "updated").
Proof.
  apply (update_is_shown_above_creation (H := PageCases.ticking)
           (Sample.request "tok-alice" "" (JObj [("title", JStr "Leak")]))
           (Sample.request "tok-root" "id-0" (JObj [("status", JStr "В работе")]))
           (Sample.request "tok-root" "id-0" JNull)
           Sample.world Sample.alice Sample.root Sample.root
           (JObj [("title", JStr "Leak")]) (JObj [("status", JStr "В работе")])).
  - exists "tok-alice". repeat split; done.
  - reflexivity.
  - discriminate.
  - exists "tok-root". repeat split; done.
  - reflexivity.
  - discriminate.
  - reflexivity.
  - exists "tok-root". repeat split; done.
  - reflexivity.
  - intros key Hkey. apply sample_no_history.
    by apply (prefix_longer "history:" "id-0:").
  - intros Heq. vm_compute in Heq. discriminate Heq.
  - vm_compute. reflexivity.
  - vm_compute. reflexivity.
  - vm_compute. reflexivity.
Defined.

(** ** A new account *)

Section NewAccount.
Context `{Platform}.

(** X26. An account that has just signed up cannot change roles: when
    a signup is answered 200, a role update sent with a token of the
    new user right afterwards is answered 403 and changes nothing,
    whatever role the signup asked for and whatever was stored under
    the user's id before. *)
Theorem new_account_cannot_change_roles r r' w data user :
  payload r = Some data → data ≠ JNull →
  createUser (auth_log w) (Js.field data "email") (Js.field data "password")
    (Js.literal [("name", Js.field data "name"); ("role", Some (JStr "observer"))])
  = CreateOk user →
  valid_token r' user →
  status (fst (signup r w)) = 200 ∧
  update_role r' (snd (signup r w))
  = (json_error "Forbidden: Admin access required" 403, snd (signup r w)).
Proof.
  intros Hp Hd Hcreated Hv. rewrite (signup_run r w data Hp Hd). cbv zeta.
  rewrite Hcreated. cbn [fst snd]. split; [done|].
  apply (update_role_forbidden r' _ user Hv).
  intros profile. cbn [kv with_kv tick with_call]. rewrite lookup_insert_eq.
  intros [= <-]. unfold Js.literal. cbn [Js.prop]. rewrite own_literal.
  simpl. discriminate.
Qed.

End NewAccount.

(** The identity service of the sample platform creates [u-new], whom
    no token resolves to; with the token resolving to the new user the
    request for [admin] is refused. *)
Lemma new_account_cannot_change_roles_witness :
  status (fst (signup (H := PageCases.newcomers)
                 (Sample.request "" "" (JObj [("email", JStr "n@b.c"); ("role", JStr "admin")]))
                 Sample.world)) = 200
  ∧ update_role (H := PageCases.newcomers)
      (Sample.request "tok-new" "u-new" (JObj [("role", JStr "admin")]))
      (snd (signup (H := PageCases.newcomers)
              (Sample.request "" "" (JObj [("email", JStr "n@b.c"); ("role", JStr "admin")]))
              Sample.world))
    = (json_error "Forbidden: Admin access required" 403,
       snd (signup (H := PageCases.newcomers)
              (Sample.request "" "" (JObj [("email", JStr "n@b.c"); ("role", JStr "admin")]))
              Sample.world)).
Proof.
  apply (new_account_cannot_change_roles (H := PageCases.newcomers)
           (Sample.request "" "" (JObj [("email", JStr "n@b.c"); ("role", JStr "admin")]))
           (Sample.request "tok-new" "u-new" (JObj [("role", JStr "admin")]))
           Sample.world
           (JObj [("email", JStr "n@b.c"); ("role", JStr "admin")]) Sample.newcomer).
  - reflexivity.
  - discriminate.
  - reflexivity.
  - exists "tok-new". repeat split; done.
Defined.

(** ** Who writes user records *)

Section UserRecords.
Context `{Platform}.

(** A role update that is not answered 200 has written nothing. *)
Lemma update_role_granted_or_idle r w :
  status (fst (update_role r w)) = 200 ∨ kv (snd (update_role r w)) = kv w.
Proof.
  unfold update_role, guarded, authenticated.
  destruct (accessToken r) as [token|]; [|by right].
  destruct (String.eqb token ""); [by right|].
  destruct (verifyAuth token) as [adminUser|]; [|by right].
  unfold req_json, get, lift, bind, ret, throw, kv_get. cbn beta iota.
  destruct (negb _ || _); [by right|].
  destruct (payload r) as [data|]; [|by right].
  destruct (Js.prop data "role") as [role|]; [|by right].
  destruct (negb (includes_role role)); [by right|].
  destruct (negb (Js.truthy (kv w !! ("user:" +:+ param_id r)))); [by right|].
  by left.
Qed.

(** A role update writes under the key of its target only. *)
Lemma update_role_writes_target r w key :
  key ≠ "user:" +:+ param_id r →
  kv (snd (update_role r w)) !! key = kv w !! key.
Proof.
  intros Hkey. unfold update_role. rewrite guarded_world.
  match goal with
  | |- kv (snd (?m w)) !! key = _ =>
      cut (only_writes (fun k => k = "user:" +:+ param_id r) m)
  end; [intros Hm; by apply Hm|].
  unfold req_json, get. repeat frame_step. by apply only_writes_kv_set.
Qed.

(** X3. A user record changes through two routes only: a signup that
    is answered 200 writes the record of the user the identity service
    created, and a role update that is answered 200 writes the record
    of its target.  No other request changes any key under [user:],
    and neither of these two changes another one. *)
Theorem user_records_change_by_signup_or_role_update c w key :
  String.prefix "user:" key = true →
  kv (snd (answer c w)) !! key ≠ kv w !! key →
  match c with
  | Signup r =>
      status (fst (signup r w)) = 200 ∧
      ∃ data user,
        payload r = Some data ∧
        createUser (auth_log w) (Js.field data "email") (Js.field data "password")
          (Js.literal [("name", Js.field data "name"); ("role", Some (JStr "observer"))])
        = CreateOk user ∧
        key = "user:" +:+ uid user
  | Protected route r =>
      route = PutUserRole ∧ status (fst (update_role r w)) = 200
      ∧ key = "user:" +:+ param_id r
  end.
Proof.
  intros Hkey Hchanged. destruct c as [r | route r]; cbn [answer] in Hchanged.
  - destruct (payload r) as [data|] eqn:Hp.
    + destruct (json_null_dec data) as [->|Hd].
      { destruct Hchanged. unfold signup, guarded, req_json, get. by rewrite Hp. }
      rewrite (signup_run r w data Hp Hd) in Hchanged |- *. cbv zeta in Hchanged |- *.
      destruct (createUser _ _ _ _) as [|message|user] eqn:Hcreated;
        [by destruct Hchanged..|].
      split; [done|]. exists data, user. split; [done|]. split; [done|].
      cbn [snd kv with_kv tick with_call] in Hchanged.
      destruct (decide (key = "user:" +:+ uid user)) as [->|Hne]; [done|].
      destruct Hchanged. by rewrite lookup_insert_ne.
    + destruct Hchanged. unfold signup, guarded, req_json. by rewrite Hp.
  - assert (route = PutUserRole ∨ route ≠ PutUserRole) as [->|Hroute]
      by (destruct route; (by left) || (by right)).
    + cbn [serve] in Hchanged. split; [done|].
      destruct (update_role_granted_or_idle r w) as [Hgranted | Hidle];
        [|destruct Hchanged; by rewrite Hidle].
      split; [done|].
      destruct (decide (key = "user:" +:+ param_id r)) as [->|Hne]; [done|].
      destruct Hchanged. by apply update_role_writes_target.
    + destruct Hchanged.
      by apply serve_only_writes_work, prefix_user_not_work.
Qed.

End UserRecords.

(** On the sample table a signup changes the record of [u-new], the
    user the identity service creates. *)
Lemma user_records_change_by_signup_or_role_update_witness :
  status (fst (signup (H := Sample.platform)
                 (Sample.request "" "" (JObj [("email", JStr "n@b.c")])) Sample.world))
  = 200 ∧
  ∃ data user,
    payload (Sample.request "" "" (JObj [("email", JStr "n@b.c")])) = Some data ∧
    createUser (Platform := Sample.platform) (auth_log Sample.world)
      (Js.field data "email") (Js.field data "password")
      (Js.literal [("name", Js.field data "name"); ("role", Some (JStr "observer"))])
    = CreateOk user ∧
    "user:u-new" = "user:" +:+ uid user.
Proof.
  apply (user_records_change_by_signup_or_role_update (H := Sample.platform)
           (Signup (Sample.request "" "" (JObj [("email", JStr "n@b.c")])))
           Sample.world "user:u-new").
  - reflexivity.
  - vm_compute. discriminate.
Defined.

(** ** A project card and the analytics *)

Section CardAndAnalytics.
Context `{Platform}.

Lemma all_read_filter f docs : all_read docs → all_read (List.filter f docs).
Proof.
  unfold all_read. rewrite !List.Forall_forall.
  intros Hall doc [Hin _]%List.filter_In. by apply Hall.
Qed.

Lemma length_read_defects docs : all_read docs → length (read_defects docs) = length docs.
Proof.
  unfold all_read, read_defects. induction 1 as [|doc docs [D HD] _ IH]; [done|].
  cbn [omap list_omap]. rewrite HD. cbn [length]. by rewrite IH.
Qed.

(** Selecting documents by a test of the code selects the defects they
    hold by the matching condition of the data model. *)
Lemma read_defects_filter (f : json → bool) (P : Spec.Defect → Prop)
    `{∀ D, Decision (P D)} docs :
  all_read docs →
  (∀ doc D, read_defect doc = Some D → (f doc = true ↔ P D)) →
  read_defects (List.filter f docs) = filter P (read_defects docs).
Proof.
  unfold all_read, read_defects. intros Hall Hf.
  induction Hall as [|doc docs [D HD] _ IH]; [done|].
  cbn [List.filter omap list_omap]. rewrite HD, filter_cons.
  destruct (f doc) eqn:Hdoc.
  - rewrite decide_True by (by apply (Hf doc D HD)).
    cbn [omap list_omap]. by rewrite HD, IH.
  - rewrite decide_False; [done|].
    intros HP. apply (Hf doc D HD) in HP. congruence.
Qed.

Lemma length_filter_read (f : json → bool) (P : Spec.Defect → Prop)
    `{∀ D, Decision (P D)} docs :
  all_read docs →
  (∀ doc D, read_defect doc = Some D → (f doc = true ↔ P D)) →
  length (List.filter f docs) = length (filter P (read_defects docs)).
Proof.
  intros Hall Hf.
  rewrite <- (length_read_defects (List.filter f docs)) by by apply all_read_filter.
  by rewrite (read_defects_filter f P).
Qed.

Lemma read_project doc D project :
  read_defect doc = Some D →
  strict_equal (Js.field doc "projectId") (Some (JStr project)) = true
  ↔ Spec.projectId D = Some project.
Proof.
  destruct doc as [| | | | |props]; try done. unfold read_defect. cbn [Js.field].
  destruct (Js.own "status" props) as [[| | |status| |]|]; try done.
  destruct (read_due _) as [due|]; [|done]. intros [= <-]. cbn [Spec.projectId].
  destruct (Js.own "projectId" props) as [[| | |p| |]|]; try done. simpl.
  rewrite String.eqb_eq. split; congruence.
Qed.

Lemma read_status doc D text :
  read_defect doc = Some D →
  ProjectsPage.has_status text doc = true ↔ Spec.status D = text.
Proof.
  destruct doc as [| | | | |props]; try done.
  unfold read_defect, ProjectsPage.has_status. cbn [Js.field].
  destruct (Js.own "status" props) as [[| | |status| |]|]; try done.
  destruct (read_due _) as [due|]; [|done]. intros [= <-]. simpl.
  apply String.eqb_eq.
Qed.

Lemma filter_within {A} (P Q : A → Prop) `{∀ x, Decision (P x)} `{∀ x, Decision (Q x)}
    (l : list A) :
  (length (filter P (filter Q l)) ≤ length (filter P l))%nat.
Proof.
  induction l as [|x l IH]; [done|]. rewrite (filter_cons Q).
  destruct (decide (Q x)); rewrite !filter_cons;
    destruct (decide (P x)); cbn [length]; lia.
Qed.

(** X22. A project card counts by the spec's rule, as the analytics
    do.  With the clock standing at [now] and the stored documents
    defects of the data model that the scan gets through, the card made
    from the listed defects has as its total the defects that name the
    project, as completed and active those of them with status
    [Закрыта] and [В работе], and as overdue those of them whose due
    date is set and strictly earlier than [now] and whose status is not
    [Закрыта]; the analytics route counts the same way over all stored
    defects, so the card's overdue number is at most the route's. *)
Theorem project_card_counts_by_the_rule r w user now project :
  valid_token r user →
  (∀ i, (reads w ≤ i)%nat → clock i = now) →
  Forall scannable (stored_defects w) →
  all_read (stored_defects w) →
  let all := read_defects (stored_defects w) in
  let mine := filter (fun D => Spec.projectId D = Some project) all in
  ∃ stats w' answer,
    ProjectsPage.getProjectStats (Some (JStr project)) (stored_defects w) w
    = (Ok stats, w') ∧
    ProjectsPage.totalDefects stats = length mine ∧
    ProjectsPage.completedDefects stats
    = length (filter (fun D => Spec.status D = "Закрыта") mine) ∧
    ProjectsPage.activeDefects stats
    = length (filter (fun D => Spec.status D = "В работе") mine) ∧
    ProjectsPage.overdueDefects stats
    = length (filter (fun D => Spec.overdue now D = true) mine) ∧
    fst (analytics r w) = json_ok (JObj answer) ∧
    Js.own "overdue" answer
    = Some (JNum (Z.of_nat (length (filter (fun D => Spec.overdue now D = true) all)))) ∧
    (ProjectsPage.overdueDefects stats
     ≤ length (filter (fun D => Spec.overdue now D = true) all))%nat.
Proof.
  intros Hv Hclock Hscan Hread all mine.
  destruct (project_stats_count (Some (JStr project)) (stored_defects w) w now)
    as [w' Hrun]; [|done|].
  { eapply Forall_impl; [exact Hscan|]. by intros d (Hnn & _ & _ & Hdue). }
  destruct (analytics_overdue r w user now Hv Hclock Hscan) as (answer & Hanswer & Hover).
  cbv zeta in Hrun.
  set (chosen := List.filter
                   (fun d => strict_equal (Js.field d "projectId") (Some (JStr project)))
                   (stored_defects w)) in Hrun.
  assert (all_read chosen) as Hchosen by (by apply all_read_filter).
  assert (read_defects chosen = mine) as Hmine.
  { subst chosen mine all. apply read_defects_filter; [done|].
    intros doc D HD. by apply read_project. }
  assert (length (List.filter (overdue_at now) chosen)
          = length (filter (fun D => Spec.overdue now D = true) mine)) as Hlate.
  { rewrite <- Hmine. apply length_filter_read; [done|].
    intros doc D HD. by rewrite (overdue_at_read now doc D HD). }
  eexists _, w', answer. split; [exact Hrun|].
  cbn [ProjectsPage.totalDefects ProjectsPage.completedDefects
       ProjectsPage.activeDefects ProjectsPage.overdueDefects].
  split; [by rewrite <- Hmine, length_read_defects|].
  split.
  { rewrite <- Hmine. apply length_filter_read; [done|].
    intros doc D HD. by apply read_status. }
  split.
  { rewrite <- Hmine. apply length_filter_read; [done|].
    intros doc D HD. by apply read_status. }
  split; [exact Hlate|]. split; [exact Hanswer|].
  split; [by rewrite Hover, overdue_read_defects|].
  rewrite Hlate. subst mine. apply filter_within.
Qed.

End CardAndAnalytics.

(** On the table of five defects, with the clock standing at 1 January
    2024, 23:30 UTC: the card of [p1] shows four defects, one completed,
    two active and one overdue; the analytics count two overdue, the
    second in [p2]. *)
Lemma project_card_counts_by_the_rule_witness :
  ∃ stats w' answer,
    ProjectsPage.getProjectStats (H := Sample.platform) (Some (JStr "p1"))
      (stored_defects Scans.mixed) Scans.mixed = (Ok stats, w') ∧
    ProjectsPage.totalDefects stats = 4%nat ∧
    ProjectsPage.completedDefects stats = 1%nat ∧
    ProjectsPage.activeDefects stats = 2%nat ∧
    ProjectsPage.overdueDefects stats = 1%nat ∧
    fst (analytics (H := Sample.platform) (Sample.request "tok-alice" "" JNull)
           Scans.mixed) = json_ok (JObj answer) ∧
    Js.own "overdue" answer = Some (JNum 2).
Proof.
  destruct (project_card_counts_by_the_rule (H := Sample.platform)
              (Sample.request "tok-alice" "" JNull) Scans.mixed Sample.alice
              1704151800000 "p1")
    as (stats & w' & answer & Hrun & Htotal & Hdone & Hactive & Hlate & Hanswer
        & Hover & _).
  - exists "tok-alice". repeat split; done.
  - intros i _. reflexivity.
  - apply mixed_scannable.
  - apply mixed_read.
  - exists stats, w', answer. rewrite mixed_stored in Htotal, Hdone, Hactive, Hlate, Hover.
    split; [exact Hrun|].
    split; [rewrite Htotal; vm_compute; reflexivity|].
    split; [rewrite Hdone; vm_compute; reflexivity|].
    split; [rewrite Hactive; vm_compute; reflexivity|].
    split; [rewrite Hlate; vm_compute; reflexivity|].
    split; [exact Hanswer|]. rewrite Hover. vm_compute. reflexivity.
Defined.
